(** * SCADA collector: the incremental synchronisation engine

    A shallow embedding of the parts of [collector.py] that decide how
    watermarks, the notification gate, the staleness alerts and the
    current-day file throttle behave, followed by the properties proved
    about them.

    Conventions of the embedding.
    - A [datetime] is an integer number of microseconds (the resolution of
      Python's [datetime]) counted from the Unix epoch; a [timedelta] of
      [s] seconds is [seconds s].  Comparisons and differences of instants
      are exact integer arithmetic.
    - Every call of [datetime.now()] is an explicit argument of the
      operation that makes it.
    - Process-wide dictionaries are [gmap]s keyed by strings.
    - A database call that can raise returns an [outcome]; state changes
      made before the exception are kept, as in Python.
    - One iteration of a worker is one function from state to state; the
      interleaving of workers inside an iteration, the waits between
      iterations, connection pooling and the dashboard are left out. *)

From Stdlib Require Import ZArith Lia Bool.
From stdpp Require Import base option list gmap strings relations sorting.

#[local] Open Scope Z_scope.

(* ===================================================================== *)
(** * Part I: the model *)
(* ===================================================================== *)

(** ** Instants *)

Abbreviation datetime := Z.

Definition seconds (s : Z) : Z := s * 1000000.

(** [datetime(1900, 1, 1)]: 25567 days before the Unix epoch. *)
Definition EPOCH_1900 : datetime := seconds (-2208988800).

(** [d.date()] as a day number (floor division, as the proleptic calendar
    does for instants before the epoch). *)
Definition date_of (t : datetime) : Z := t / seconds 86400.

(** Log records the claims talk about. *)
Inductive log_event :=
| LogSuppressedDuringCooldown (n : Z)   (* info, in can_send *)
| LogRateLimitReached                   (* warning, in can_send *)
| LogRateLimited                        (* debug, in send_telegram_message *)
| LogTelegramSent (message : string)
| LogTelegramError
| LogSyncTimeError                      (* error, in get_last_sync_time_async *)
| LogRowsCopied (n : nat)               (* info, after an insert *)
| LogSyncError.                         (* error, in a worker's handler *)

(** ** Notification gate: [class TelegramRateLimiter] *)

Module Gate.

Record TelegramRateLimiter := mkLimiter {
  max_messages : Z;
  window_seconds : Z;
  cooldown_seconds : Z;
  message_times : list datetime;       (* the deque, oldest first *)
  lock : bool;                         (* [self.lock] is not [None] *)
  cooldown_until : option datetime;
  suppressed_count : Z
}.

(** [__init__] *)
Definition init (max_messages window_seconds cooldown_seconds : Z)
  : TelegramRateLimiter :=
  mkLimiter max_messages window_seconds cooldown_seconds [] false None 0.

(** [async_main]: [telegram_rate_limiter.lock = asyncio.Lock()] *)
Definition with_lock (g : TelegramRateLimiter) : TelegramRateLimiter :=
  mkLimiter (max_messages g) (window_seconds g) (cooldown_seconds g)
            (message_times g) true (cooldown_until g) (suppressed_count g).

Definition set_history (g : TelegramRateLimiter) (h : list datetime) :=
  mkLimiter (max_messages g) (window_seconds g) (cooldown_seconds g)
            h (lock g) (cooldown_until g) (suppressed_count g).

Definition set_cooldown (g : TelegramRateLimiter)
           (c : option datetime) (n : Z) :=
  mkLimiter (max_messages g) (window_seconds g) (cooldown_seconds g)
            (message_times g) (lock g) c n.

(** [while self.message_times and self.message_times[0] < cutoff:
       self.message_times.popleft()] *)
Fixpoint popleft_while (cutoff : datetime) (h : list datetime)
  : list datetime :=
  match h with
  | [] => []
  | t :: h' => if t <? cutoff then popleft_while cutoff h' else h
  end.

(** The part of [can_send] after the cooldown test: trim, then compare
    the length of the history with the limit. *)
Definition check_limit (now : datetime) (g : TelegramRateLimiter)
  : bool * list log_event * TelegramRateLimiter :=
  let cutoff := now - seconds (window_seconds g) in
  let g1 := set_history g (popleft_while cutoff (message_times g)) in
  if Z.of_nat (length (message_times g1)) >=? max_messages g1 then
    (false, [LogRateLimitReached],
     set_cooldown g1 (Some (now + seconds (cooldown_seconds g1))) 1)
  else (true, [], g1).

(** [can_send]; [now] is the value of [datetime.now()] inside the call. *)
Definition can_send (now : datetime) (g : TelegramRateLimiter)
  : bool * list log_event * TelegramRateLimiter :=
  if negb (lock g) then (true, [], g)
  else
    match cooldown_until g with
    | Some u =>
        if now <? u then
          (false, [],
           set_cooldown g (Some u) (suppressed_count g + 1))
        else
          let logs :=
            if 0 <? suppressed_count g
            then [LogSuppressedDuringCooldown (suppressed_count g)]
            else [] in
          let g1 := set_history (set_cooldown g None 0) [] in
          let '(r, l, g2) := check_limit now g1 in
          (r, logs ++ l, g2)
    | None => check_limit now g
    end.

(** [record_sent]: both branches append [datetime.now()]. *)
Definition record_sent (now : datetime) (g : TelegramRateLimiter)
  : TelegramRateLimiter :=
  set_history g (message_times g ++ [now]).

(** One use of the gate by [send_telegram_message]:
    - [Attempt a r]: [force] is false; [can_send] runs at [a] and, when it
      admits, the post succeeds and [record_sent] runs at [r];
    - [Forced r]: [force] is true; the gate is not asked and
      [record_sent] runs at [r]. *)
Inductive gate_call :=
| Attempt (a r : datetime)
| Forced (r : datetime).

Definition call_start (c : gate_call) : datetime :=
  match c with Attempt a _ => a | Forced r => r end.
Definition call_end (c : gate_call) : datetime :=
  match c with Attempt _ r => r | Forced r => r end.

(** Run a sequence of calls; returns the instants at which [can_send]
    answered true, oldest first, and the final gate. *)
Fixpoint run (cs : list gate_call) (g : TelegramRateLimiter)
  : list datetime * TelegramRateLimiter :=
  match cs with
  | [] => ([], g)
  | Forced r :: cs' => run cs' (record_sent r g)
  | Attempt a r :: cs' =>
      let '(ok, _, g1) := can_send a g in
      if ok then
        let '(adm, g2) := run cs' (record_sent r g1) in (a :: adm, g2)
      else run cs' g1
  end.





End Gate.

(** ** Exceptions and outcomes of database calls *)

Inductive exn :=
| IntegrityError      (* duplicate key *)
| OperationalError.   (* any other [Exception] raised by a driver *)

Inductive outcome (A : Type) :=
| Ok (a : A)
| Raised (e : exn).
Arguments Ok {A} a.
Arguments Raised {A} e.

(** State and exception monad: the state reached when the exception is
    raised is kept, as it is for Python's module-level dictionaries. *)
Definition M (S A : Type) : Type := S -> outcome A * S.

Definition ret {S A} (a : A) : M S A := fun s => (Ok a, s).
Definition raise {S A} (e : exn) : M S A := fun s => (Raised e, s).
Definition bind {S A B} (m : M S A) (k : A -> M S B) : M S B :=
  fun s => match m s with
           | (Ok a, s') => k a s'
           | (Raised e, s') => (Raised e, s')
           end.
(** [try: m  except Exception as e: h e] *)
Definition try_except {S A} (m : M S A) (h : exn -> M S A) : M S A :=
  fun s => match m s with
           | (Ok a, s') => (Ok a, s')
           | (Raised e, s') => h e s'
           end.
Definition modify {S} (f : S -> S) : M S unit := fun s => (Ok tt, f s).

Declare Scope py_scope.
Delimit Scope py_scope with py.
Notation "'let*' x ':=' m 'in' k" := (bind m (fun x => k))
  (at level 10, x name, m at level 200, k at level 200) : py_scope.

(** ** Watermark cache: [rectime_cache] *)

Module Cache.

(** [{'rectime': ..., 'updated': ...}] *)
Record cache_entry := mkEntry {
  rectime : datetime;
  updated : datetime
}.

(** The type of the dictionary [rectime_cache]. *)
Abbreviation cache_dict := (gmap string cache_entry).

(** [get_cached_rectime]: an entry is a non-empty dictionary, hence
    truthy; both lock branches read the same way. *)
Definition get_cached_rectime (table_name : string) (c : cache_dict)
  : option datetime :=
  rectime <$> c !! table_name.

(** [set_cached_rectime] *)
Definition set_cached_rectime (now : datetime) (table_name : string)
           (t : datetime) (c : cache_dict) : cache_dict :=
  <[table_name := mkEntry t now]> c.

(** What [cursor.execute("SELECT MAX(RECTIME) ...")] followed by
    [cursor.fetchone()] did. *)
Inductive max_query :=
| QueryRaises            (* execute or fetchone raised *)
| QueryRow (row : option (list (option datetime))).
                         (* the fetched row, or None *)

(** [row[0] if row and len(row) > 0 else None] *)
Definition first_column (row : option (list (option datetime)))
  : option datetime :=
  match row with
  | Some (v :: _) => v
  | _ => None
  end.

(** [get_last_sync_time_async(cursor, table, use_cache)].  Returns the
    watermark, the log records written and the cache afterwards.  A
    [datetime] is always truthy, so [if cached] and [if last_sync_time]
    test for [None]. *)
Definition get_last_sync_time_async (now : datetime) (q : max_query)
           (table : string) (use_cache : bool) (c : cache_dict)
  : datetime * list log_event * cache_dict :=
  match (if use_cache then get_cached_rectime table c else None) with
  | Some cached => (cached, [], c)
  | None =>
      match q with
      | QueryRow row =>
          match first_column row with
          | Some last_sync_time =>
              (last_sync_time, [],
               set_cached_rectime now table last_sync_time c)
          | None => (EPOCH_1900, [], c)
          end
      | QueryRaises => (EPOCH_1900, [LogSyncTimeError], c)
      end
  end.

End Cache.

(** ** Process-wide state *)

(** The text of the staleness alert: the table and
    [notification_timeout // 3600]. *)
Record alert := mkAlert {
  alert_table : string;
  alert_hours : Z
}.

Record status_entry := mkStatus {
  healthy : bool;
  last_sync : option datetime;
  last_error : option exn;
  status_updated : datetime
}.

Record world := mkWorld {
  rectime_cache : gmap string Cache.cache_entry;
  sent_notifications : gmap string (bool * datetime);
  telegram_rate_limiter : Gate.TelegramRateLimiter;
  task_status : gmap string status_entry;
  submitted : list alert;     (* every call of send_telegram_message *)
  posted : list alert;        (* messages the chat service accepted *)
  logs : list log_event
}.

Definition set_cache
           (f : gmap string Cache.cache_entry -> gmap string Cache.cache_entry)
           (w : world) : world :=
  mkWorld (f (rectime_cache w)) (sent_notifications w)
          (telegram_rate_limiter w) (task_status w) (submitted w)
          (posted w) (logs w).
Definition set_sent
           (f : gmap string (bool * datetime) -> gmap string (bool * datetime))
           (w : world) : world :=
  mkWorld (rectime_cache w) (f (sent_notifications w))
          (telegram_rate_limiter w) (task_status w) (submitted w)
          (posted w) (logs w).
Definition set_limiter (g : Gate.TelegramRateLimiter) (w : world) : world :=
  mkWorld (rectime_cache w) (sent_notifications w) g (task_status w)
          (submitted w) (posted w) (logs w).
Definition set_status
           (f : gmap string status_entry -> gmap string status_entry)
           (w : world) : world :=
  mkWorld (rectime_cache w) (sent_notifications w)
          (telegram_rate_limiter w) (f (task_status w)) (submitted w)
          (posted w) (logs w).
Definition add_submitted (a : alert) (w : world) : world :=
  mkWorld (rectime_cache w) (sent_notifications w)
          (telegram_rate_limiter w) (task_status w) (submitted w ++ [a])
          (posted w) (logs w).
Definition add_posted (a : alert) (w : world) : world :=
  mkWorld (rectime_cache w) (sent_notifications w)
          (telegram_rate_limiter w) (task_status w) (submitted w)
          (posted w ++ [a]) (logs w).
Definition add_logs (l : list log_event) (w : world) : world :=
  mkWorld (rectime_cache w) (sent_notifications w)
          (telegram_rate_limiter w) (task_status w) (submitted w)
          (posted w) (logs w ++ l).

(** The options of [CONFIG] the engine reads. *)
Record config := mkConfig {
  notification_timeout : Z;      (* CONFIG.get('notification_timeout', 7200) *)
  telegram_configured : bool     (* bot_token and chat_id are both set *)
}.

(** What the surroundings do during one call or one cycle. *)
Record surroundings := mkSurroundings {
  env_now : datetime;            (* datetime.now() during the cycle *)
  env_post_ok : bool             (* the POST to the chat service succeeds *)
}.

(** [update_task_status] *)
Definition update_task_status (now : datetime) (task_name : string)
           (h : bool) (sync : option datetime) (error : option exn)
           (w : world) : world :=
  set_status (fun m => <[task_name := mkStatus h sync error now]> m) w.

(** ** Staleness alerts *)

Module Notify.

(** [send_telegram_message(message, force, session)] *)
Definition send_telegram_message (cfg : config) (env : surroundings)
           (message : alert) (force : bool) (w : world) : world :=
  let w := add_submitted message w in
  if negb (telegram_configured cfg) then w
  else
    let '(ok, l, g) :=
      if force then (true, [], telegram_rate_limiter w)
      else Gate.can_send (env_now env) (telegram_rate_limiter w) in
    let w := add_logs l (set_limiter g w) in
    if negb ok then add_logs [LogRateLimited] w
    else if env_post_ok env then
      add_logs [LogTelegramSent (alert_table message)]
        (add_posted message
           (set_limiter
              (Gate.record_sent (env_now env) (telegram_rate_limiter w)) w))
    else add_logs [LogTelegramError] w.

(** First half of [_check_and_notify_logic]: remember the observed
    upstream timestamp, clearing the flag when it moved forward. *)
Definition observe (table_name : string) (last_update_time : datetime)
           (sn : gmap string (bool * datetime))
  : gmap string (bool * datetime) :=
  match sn !! table_name with
  | Some (_, recorded) =>
      if recorded <? last_update_time
      then <[table_name := (false, last_update_time)]> sn
      else sn
  | None => <[table_name := (false, last_update_time)]> sn
  end.

(** [sent_notifications[table_name][0]]; the entry exists whenever the
    source reads it. *)
Definition alert_sent (table_name : string)
           (sn : gmap string (bool * datetime)) : bool :=
  match sn !! table_name with
  | Some (flag, _) => flag
  | None => false
  end.

(** [(datetime.now() - last_update_time).total_seconds() > timeout] *)
Definition stale (cfg : config) (now last_update_time : datetime) : bool :=
  seconds (notification_timeout cfg) <? now - last_update_time.

(** [_check_and_notify_logic] *)
Definition _check_and_notify_logic (cfg : config) (env : surroundings)
           (table_name : string) (last_update_time : option datetime)
           (w : world) : world :=
  match last_update_time with
  | None => w
  | Some t =>
      let w1 := set_sent (observe table_name t) w in
      if stale cfg (env_now env) t
         && negb (alert_sent table_name (sent_notifications w1))
      then
        let message := mkAlert table_name (notification_timeout cfg / 3600) in
        let w2 := send_telegram_message cfg env message false w1 in
        set_sent (fun sn => <[table_name := (true, t)]> sn) w2
      else w1
  end.

(** [check_and_notify_async]: takes the lock and runs the logic. *)
Definition check_and_notify_async := _check_and_notify_logic.

End Notify.

(** ** Tables *)

Module Db.

(** A record of the fixed 25-column form.  The twenty-one numeric
    columns T1..T8, V1..V5, P1..P4, H1..H4 are carried along unread;
    [None] is SQL NULL. *)
Record row := mkRow {
  ObjectId : option Z;
  ID : option Z;
  OBJID : option Z;
  RECTIME : option datetime;
  measures : list (option Z)
}.

(** Modelled from the spec: the unique key of a destination table.  The
    schema of the [Dynamic_*] tables is not part of the sources; the
    spec's duplicate scenario identifies a record by its object and its
    timestamp. *)
Definition row_key (r : row) : option Z * option datetime :=
  (ObjectId r, RECTIME r).

(** A table seen through one connection with autocommit off. *)
Record database := mkDb {
  committed : list row;
  pending : list row      (* inserted in the open transaction *)
}.

Definition visible (d : database) : list row := committed d ++ pending d.

Definition has_key (k : option Z * option datetime) (rs : list row) : bool :=
  existsb (fun r => bool_decide (row_key r = k)) rs.

(** [cursor.execute(INSERT ..., values)] *)
Definition execute_insert (r : row) : M database unit :=
  fun d =>
    if has_key (row_key r) (visible d) then (Raised IntegrityError, d)
    else (Ok tt, mkDb (committed d) (pending d ++ [r])).

(** [cursor.executemany(INSERT ..., rows)]: row after row, stopping at the
    first one that is refused. *)
Fixpoint executemany (rs : list row) : M database unit :=
  match rs with
  | [] => ret tt
  | r :: rs' => bind (execute_insert r) (fun _ => executemany rs')
  end.

(** [conn.commit()], [conn.rollback()] and closing the connection. *)
Definition commit (d : database) : database := mkDb (visible d) [].
Definition rollback (d : database) : database := mkDb (committed d) [].
Definition close_connection_safe (d : database) : database := rollback d.

(** A driver call that the surroundings can make fail. *)
Definition guarded {S A} (fails : bool) (m : M S A) : M S A :=
  if fails then raise OperationalError else m.

(** [max] of two nullable instants, NULL being ignored. *)
Definition max_opt (a b : option datetime) : option datetime :=
  match a, b with
  | Some x, Some y => Some (Z.max x y)
  | Some x, None => Some x
  | None, b => b
  end.

(** [SELECT MAX(RECTIME) FROM t] *)
Definition select_max_rectime (rs : list row) : option datetime :=
  foldr (fun r acc => max_opt (RECTIME r) acc) None rs.

(** [WHERE RECTIME > ?]: NULL compares as unknown and is filtered out. *)
Definition newer_than (wm : datetime) (r : row) : bool :=
  match RECTIME r with
  | Some t => wm <? t
  | None => false
  end.

(** [ORDER BY RECTIME ASC]: NULL sorts lowest; a stable insertion sort. *)
Definition rectime_leb (a b : row) : bool :=
  match RECTIME a, RECTIME b with
  | None, _ => true
  | Some _, None => false
  | Some x, Some y => x <=? y
  end.

Fixpoint insert_sorted (r : row) (rs : list row) : list row :=
  match rs with
  | [] => [r]
  | r' :: rs' =>
      if rectime_leb r r' then r :: rs
      else r' :: insert_sorted r rs'
  end.

Definition order_by_rectime (rs : list row) : list row :=
  foldr insert_sorted [] rs.

(** The delta query of the DB-to-DB worker:
    [SELECT ... FROM source WHERE RECTIME > ? ORDER BY RECTIME ASC]. *)
Definition select_delta_ordered (wm : datetime) (source : list row)
  : list row :=
  order_by_rectime (List.filter (newer_than wm) source).

(** The delta query of the Firebird worker:
    [SELECT * FROM table WHERE RECTIME > ? AND OBJID = ?].  There is no
    ORDER BY: the rows come in the order of the engine's scan, which is
    the order of the list [source]. *)
Definition select_delta_firebird (wm : datetime) (objid_filter : Z)
           (source : list row) : list row :=
  List.filter (fun r => newer_than wm r
                        && bool_decide (OBJID r = Some objid_filter)) source.

End Db.

(** ** The database workers *)

Module Sync.
Import Db.

(** The state one worker acts on: the process-wide singletons and its
    destination table. *)
Record sys := mkSys {
  glob : world;
  dest : database
}.

(** What the surroundings do during one cycle of a worker. *)
Record cycle_env := mkEnv {
  env_sur : surroundings;
  env_source : list row;            (* the source table, in scan order *)
  env_dest_read_fails : bool;       (* MAX(RECTIME) on the destination raises *)
  env_source_max_fails : bool;      (* MAX(RECTIME) on the source raises *)
  env_source_fetch_fails : bool;    (* the delta query raises *)
  env_dest_write_fails : bool       (* the connection breaks in executemany *)
}.

Definition on_world (f : world -> world) : M sys unit :=
  modify (fun s => mkSys (f (glob s)) (dest s)).

Definition on_dest {A} (m : M database A) : M sys A :=
  fun s => let '(r, d) := m (dest s) in (r, mkSys (glob s) d).

(** [get_last_sync_time_async] against the worker's destination. *)
Definition read_watermark (env : cycle_env) (table : string)
           (use_cache : bool) : M sys datetime :=
  fun s =>
    let q := if env_dest_read_fails env then Cache.QueryRaises
             else Cache.QueryRow
                    (Some [select_max_rectime (visible (dest s))]) in
    let '(t, l, c) :=
      Cache.get_last_sync_time_async (env_now (env_sur env)) q table
        use_cache (rectime_cache (glob s)) in
    (Ok t, mkSys (add_logs l (set_cache (fun _ => c) (glob s))) (dest s)).

Definition set_cached (env : cycle_env) (table : string) (t : datetime)
  : M sys unit :=
  on_world (set_cache
              (Cache.set_cached_rectime (env_now (env_sur env)) table t)).

#[local] Open Scope py_scope.

(** *** DB-to-DB: [run_sync_mssql_async] *)

Record mssql_job := mkMssqlJob {
  source_table : string;
  target_table : string
}.

Definition mssql_cache_key (j : mssql_job) : string :=
  "[dbo].[" +:+ target_table j +:+ "]".

Definition mssql_task_name (j : mssql_job) : string :=
  "mssql_" +:+ source_table j.

(** The body of the [try] of one iteration. *)
Definition run_sync_mssql_body (cfg : config) (env : cycle_env)
           (j : mssql_job) : M sys unit :=
  let* max_rectime := read_watermark env (mssql_cache_key j) true in
  let* last_update_time :=
    guarded (env_source_max_fails env)
            (ret (Cache.first_column
                    (Some [select_max_rectime (env_source env)]))) in
  let* _ := on_world (Notify.check_and_notify_async cfg (env_sur env)
                        (source_table j) last_update_time) in
  let* rows_to_insert :=
    guarded (env_source_fetch_fails env)
            (ret (select_delta_ordered max_rectime (env_source env))) in
  let* _ :=
    match rows_to_insert with
    | [] => ret tt
    | _ :: _ =>
        let* _ := on_dest (guarded (env_dest_write_fails env)
                             (executemany rows_to_insert)) in
        let* _ := on_dest (modify commit) in
        let* _ := on_world
                    (add_logs [LogRowsCopied (length rows_to_insert)]) in
        match last rows_to_insert ≫= RECTIME with
        | Some last_row_rectime =>
            set_cached env (mssql_cache_key j) last_row_rectime
        | None => ret tt
        end
    end in
  on_world (update_task_status (env_now (env_sur env)) (mssql_task_name j)
              true (Some (env_now (env_sur env))) None).

(** The [except Exception] of a worker: log, mark the task unhealthy and
    close the connections, which abandons the open transaction. *)
Definition worker_handler (env : cycle_env) (task_name : string)
           (e : exn) : M sys unit :=
  let* _ := on_world (add_logs [LogSyncError]) in
  let* _ := on_world (update_task_status (env_now (env_sur env)) task_name
                        false None (Some e)) in
  on_dest (modify close_connection_safe).

(** One iteration of the [while] loop; the waits between iterations
    change none of the state modelled here. *)
Definition run_sync_mssql_cycle (cfg : config) (env : cycle_env)
           (j : mssql_job) : M sys unit :=
  try_except (run_sync_mssql_body cfg env j)
             (worker_handler env (mssql_task_name j)).

(** *** Firebird to DB: [run_sync_firebird_async] *)

Record firebird_job := mkFirebirdJob {
  mssql_table : string;       (* sync_config['target_table'] *)
  objid_filter : Z;           (* sync_config['objid'] *)
  firebird_task_name : string (* "firebird_" and the table without 'dbo.' *)
}.

(** [process_row] on the fixed column set: [OBJID] is popped into
    [ObjectId], and the popped column then reads as the empty string.
    [None] stands for both NULL and the empty string that replaces it. *)
Definition process_row (r : row) : row :=
  mkRow (OBJID r) (ID r) None (RECTIME r) (measures r).

(** The running maximum kept by the loop of [insert_into_mssql_async]:
    [if rectime and (max_rectime is None or rectime > max_rectime)]. *)
Definition step_max_rectime (max_rectime : option datetime) (r : row)
  : option datetime :=
  match RECTIME r, max_rectime with
  | Some t, None => Some t
  | Some t, Some m => if m <? t then Some t else Some m
  | None, _ => max_rectime
  end.

Definition batch_max_rectime (rs : list row) : option datetime :=
  foldl step_max_rectime None rs.

(** The fallback loop: [try: execute; inserted_rows += 1
    except Exception: pass]. *)
Fixpoint insert_each (rs : list row) (inserted : nat) : M database nat :=
  match rs with
  | [] => ret inserted
  | r :: rs' =>
      let* n := try_except (let* _ := execute_insert r in ret (S inserted))
                           (fun _ => ret inserted) in
      insert_each rs' n
  end.

(** [insert_into_mssql_async] *)
Definition insert_into_mssql_async (env : cycle_env) (table : string)
           (data : list row) : M sys unit :=
  let all_values := map process_row data in
  let max_rectime := batch_max_rectime all_values in
  match all_values with
  | [] => ret tt
  | _ :: _ =>
      try_except
        (let* _ := on_dest (guarded (env_dest_write_fails env)
                              (executemany all_values)) in
         let* _ := on_dest (modify commit) in
         let* _ := on_world
                     (add_logs [LogRowsCopied (length all_values)]) in
         match max_rectime with
         | Some t => set_cached env table t
         | None => ret tt
         end)
        (fun e =>
           match e with
           | IntegrityError =>
               let* _ := on_dest (modify rollback) in
               let* inserted_rows := on_dest (insert_each all_values 0) in
               let* _ := on_dest (modify commit) in
               if (0 <? inserted_rows)%nat
               then on_world (add_logs [LogRowsCopied inserted_rows])
               else ret tt
           | OperationalError => raise e
           end)
  end.

(** [get_firebird_data_with_headers]: any failure is logged and answered
    with [(None, None)]. *)
Definition get_firebird_data (env : cycle_env) (last_sync_time : datetime)
           (j : firebird_job) : option (list row) :=
  if env_source_fetch_fails env then None
  else Some (select_delta_firebird last_sync_time (objid_filter j)
               (env_source env)).

Definition run_sync_firebird_body (cfg : config) (env : cycle_env)
           (j : firebird_job) : M sys unit :=
  let* last_sync_time := read_watermark env (mssql_table j) true in
  let* _ := on_world (Notify.check_and_notify_async cfg (env_sur env)
                        (mssql_table j) (Some last_sync_time)) in
  let* _ :=
    match get_firebird_data env last_sync_time j with
    | Some ((_ :: _) as data) =>
        insert_into_mssql_async env (mssql_table j) data
    | _ => ret tt
    end in
  on_world (update_task_status (env_now (env_sur env))
              (firebird_task_name j) true
              (Some (env_now (env_sur env))) None).

Definition run_sync_firebird_cycle (cfg : config) (env : cycle_env)
           (j : firebird_job) : M sys unit :=
  try_except (run_sync_firebird_body cfg env j)
             (worker_handler env (firebird_task_name j)).

End Sync.

(** ** The file-ingest worker: [run_tc2_processor_async] *)

Module Tc2.
Import Db Sync.

Record tc2_config := mkTc2Config {
  file_check_interval : Z;     (* config.get('file_check_interval', 3600) *)
  days_to_search : Z;          (* config.get('days_to_search', 30) *)
  tc2_target_table : string    (* config.get('target_table', ...) *)
}.

(** A file of the watched directory.  [name_date] is the day that
    [re.search] and [strptime] read in the name, [None] when the name
    holds no valid date. *)
Record file := mkFile {
  file_name : string;
  name_date : option Z;
  file_mtime : datetime
}.

(** The worker's local variables that outlive an iteration. *)
Record tc2_state := mkTc2State {
  last_db_record : option datetime;
  files_last_check : gmap string datetime
}.

(** The value of [should_process] for a file inside the lookback window
    whose name carries the day [file_date]. *)
Definition should_process (c : tc2_config) (current_time : datetime)
           (st : tc2_state) (f : file) (file_date : Z) : bool :=
  let current_date := date_of current_time in
  if bool_decide (file_date = current_date) then
    let file_updated_after_db :=
      match last_db_record st with
      | None => true
      | Some w => w <? file_mtime f
      end in
    match files_last_check st !! file_name f with
    | None => true
    | Some last_check =>
        let time_since_last_check := current_time - last_check in
        if time_since_last_check >=? seconds (file_check_interval c)
        then true
        else if file_updated_after_db
                && (time_since_last_check >=? seconds 300)
        then true
        else false
    end
  else
    match last_db_record st with
    | None => true
    | Some w =>
        let last_db_date := date_of w in
        if last_db_date <? file_date then true
        else if bool_decide (file_date = last_db_date)
        then current_time - file_mtime f <? seconds 7200
        else false
    end.

(** The files kept in [files_to_process], in directory order (the sort
    by modification time that follows only reorders them). *)
Definition files_to_process (c : tc2_config) (current_time : datetime)
           (st : tc2_state) (all_files : list file) : list file :=
  List.filter
    (fun f =>
       match name_date f with
       | Some file_date =>
           (date_of current_time - days_to_search c <=? file_date)
           && should_process c current_time st f file_date
       | None => false
       end) all_files.

(** [files_last_check[file_path.name] = datetime.now()] *)
Definition mark_checked (check_time : datetime) (st : tc2_state) (f : file)
  : tc2_state :=
  mkTc2State (last_db_record st)
             (<[file_name f := check_time]> (files_last_check st)).

(** File discovery at [current_time] followed by the processing loop,
    which stamps every file it processes at [check_time]; when the
    shutdown event is set the loop processes nothing.  Returns the files
    processed. *)
Definition scan (c : tc2_config) (current_time check_time : datetime)
           (shutdown : bool) (all_files : list file) (st : tc2_state)
  : list file * tc2_state :=
  let todo := files_to_process c current_time st all_files in
  if shutdown then ([], st)
  else (todo, foldl (mark_checked check_time) st todo).

#[local] Open Scope py_scope.

(** [last_db_record = t; await set_cached_rectime(target_table, t)] *)
Definition adopt (env : cycle_env) (c : tc2_config) (t : datetime)
           (st : tc2_state) : M sys tc2_state :=
  let* _ := set_cached env (tc2_target_table c) t in
  ret (mkTc2State (Some t) (files_last_check st)).

(** After the files: [if max_processed_time: ...] *)
Definition update_after_files (env : cycle_env) (c : tc2_config)
           (max_processed_time : option datetime) (st : tc2_state)
  : M sys tc2_state :=
  match max_processed_time with
  | None => ret st
  | Some _ =>
      let* new_last_record :=
        read_watermark env (tc2_target_table c) false in
      match last_db_record st with
      | None => adopt env c new_last_record st
      | Some l =>
          if l <? new_last_record then adopt env c new_last_record st
          else ret st
      end
  end.

(** The periodic refresh at the end of the iteration. *)
Definition periodic_refresh (env : cycle_env) (c : tc2_config)
           (st : tc2_state) : M sys tc2_state :=
  let* current_db_record :=
    read_watermark env (tc2_target_table c) false in
  if bool_decide (Some current_db_record = last_db_record st) then ret st
  else
    match last_db_record st with
    | None => adopt env c current_db_record st
    | Some l =>
        if l <? current_db_record then adopt env c current_db_record st
        else ret st
    end.

(** The end of an iteration, from the watermark update on. *)
Definition finish_cycle (env : cycle_env) (c : tc2_config)
           (max_processed_time : option datetime) (st : tc2_state)
  : M sys tc2_state :=
  let* st1 := update_after_files env c max_processed_time st in
  let* st2 := periodic_refresh env c st1 in
  let* _ := on_world (update_task_status (env_now (env_sur env))
                        "tc2_processor" true
                        (Some (env_now (env_sur env))) None) in
  ret st2.

End Tc2.

(** ** Vocabulary of the properties *)

Module Props.
Import Gate Cache Db Sync Tc2.



(** The gate of Scenario E once [async_main] has installed its lock. *)
Definition gate_E : TelegramRateLimiter := with_lock (init 5 60 300).

(** A gate whose cooldown is shorter than its window, and three uses of
    it at 0 s, 1 s and 11 s. *)
Definition gate_short_cooldown : TelegramRateLimiter :=
  with_lock (init 1 60 10).
Definition calls_short_cooldown : list gate_call :=
  [Attempt 0 0; Attempt (seconds 1) (seconds 1);
   Attempt (seconds 11) (seconds 11)].

(** [v] is the greatest non-null [RECTIME] among [rows]. *)
Definition greatest_rectime (v : datetime) (rows : list row) : Prop :=
  (exists r, In r rows /\ RECTIME r = Some v)
  /\ (forall r t, In r rows -> RECTIME r = Some t -> t <= v).

(** A record of object 1 stamped [t]. *)
Definition row_at (t : datetime) : row :=
  mkRow (Some 1) (Some 1) (Some 1) (Some t) [].

(** One staleness check made by a worker. *)
Record check_call := mkCall {
  cc_env : surroundings;
  cc_table : string;
  cc_time : option datetime    (* the upstream MAX(RECTIME) it observed *)
}.

Definition check_step (cfg : config) (w : world) (c : check_call) : world :=
  Notify._check_and_notify_logic cfg (cc_env c) (cc_table c) (cc_time c) w.

Definition run_checks (cfg : config) (calls : list check_call) (w : world)
  : world :=
  foldl (check_step cfg) w calls.

(** Number of staleness alerts about [table] in a trace. *)
Definition alerts_for (table : string) (l : list alert) : nat :=
  length (List.filter (fun a => bool_decide (alert_table a = table)) l).

(** Scenario C: the upstream timestamp is three hours old at the first
    of six checks made two minutes apart; the threshold is two hours. *)
Definition config_C : config := mkConfig 7200 true.
Definition upstream_C : datetime := seconds 1735689600.
Definition check_C (minutes : Z) : check_call :=
  mkCall (mkSurroundings (upstream_C + seconds (10800 + 60 * minutes)) true)
         "Dynamic_A" (Some upstream_C).
Definition calls_C : list check_call :=
  [check_C 0; check_C 2; check_C 4; check_C 6; check_C 8; check_C 10].
Definition world_0 : world :=
  mkWorld ∅ ∅ gate_E ∅ [] [] [].

(** Scenario D: the file of 2025-12-23 (day 20445), last modified at
    10:00:00, and the worker's default settings. *)
Definition config_D : tc2_config := mkTc2Config 3600 30 "dbo.Dynamic_TC2".
Definition modified_D : datetime := seconds (1766448000 + 36000).
Definition file_D : file :=
  mkFile "2025-12-23_TC-2.xlsx" (Some 20445) modified_D.

(** The state with which a scan starts: the watermark of the iteration
    and the last-check times left by the scans before it. *)
Definition entering (watermark : datetime) (st : tc2_state) : tc2_state :=
  mkTc2State (Some watermark) (files_last_check st).

(** The cache of a worker's state and the watermark it holds for a
    table. *)
Definition cache_of (s : sys) : gmap string cache_entry :=
  rectime_cache (glob s).

Definition watermark_of (table : string) (s : sys) : option datetime :=
  rectime <$> cache_of s !! table.


(** [rows] carry non-decreasing timestamps, NULL lowest. *)
Definition ascending (rows : list row) : Prop :=
  StronglySorted (fun a b => rectime_leb a b = true) rows.


(** The watermark that [read_watermark] returns in state [s], and the
    cache it leaves. *)
Definition read_result (env : cycle_env) (table : string) (use_cache : bool)
           (s : sys) : datetime * list log_event * gmap string cache_entry :=
  get_last_sync_time_async (env_now (env_sur env))
    (if env_dest_read_fails env then QueryRaises
     else QueryRow (Some [select_max_rectime (visible (dest s))]))
    table use_cache (cache_of s).

Definition wm_read (env : cycle_env) (table : string) (use_cache : bool)
           (s : sys) : datetime :=
  (read_result env table use_cache s).1.1.

Definition cache_read (env : cycle_env) (table : string) (use_cache : bool)
           (s : sys) : gmap string cache_entry :=
  (read_result env table use_cache s).2.

(** Scenarios A and B: the watermark is 2025-01-01 00:00:00, the source
    holds rows stamped 5, 10 and 15 seconds later, and the cycle runs at
    00:00:20.  In Scenario B the destination already holds the row
    stamped 00:00:10. *)
Definition t_2025 (s : Z) : datetime := seconds (1735689600 + s).
Definition job_A : mssql_job := mkMssqlJob "Dynamic_A" "Dynamic_A".
Definition job_A_firebird : firebird_job :=
  mkFirebirdJob "[dbo].[Dynamic_A]" 1 "firebird_Dynamic_A".
Definition source_A : list row :=
  [row_at (t_2025 5); row_at (t_2025 10); row_at (t_2025 15)].
Definition env_A : cycle_env :=
  mkEnv (mkSurroundings (t_2025 20) true) source_A false false false false.
Definition world_A : world :=
  set_cache (fun _ => {[ mssql_cache_key job_A
                         := mkEntry (t_2025 0) (t_2025 0) ]}) world_0.
Definition sys_A : sys := mkSys world_A (mkDb [] []).
Definition sys_B : sys := mkSys world_A (mkDb [row_at (t_2025 10)] []).

(** A first cycle with nothing to copy: the cache is still empty, the
    destination already holds the only row of the source. *)
Definition env_idle : cycle_env :=
  mkEnv (mkSurroundings (t_2025 20) true) [row_at (t_2025 10)]
        false false false false.
Definition sys_fresh : sys := mkSys world_0 (mkDb [row_at (t_2025 10)] []).

(** A Firebird table whose scan returns the later row first. *)
Definition env_unordered : cycle_env :=
  mkEnv (mkSurroundings (t_2025 20) true)
        [row_at (t_2025 15); row_at (t_2025 5)] false false false false.

(** The file worker with watermark 00:00:05 while somebody else has
    written a row stamped 00:00:10 to its destination. *)
Definition state_tc2 : tc2_state := mkTc2State (Some (t_2025 5)) ∅.

(** The same destination once the cache holds its watermark. *)
Definition sys_caught_up : sys :=
  mkSys (set_cache (fun _ => {[ mssql_cache_key job_A
                                := mkEntry (t_2025 10) (t_2025 10) ]})
                   world_0)
        (mkDb [row_at (t_2025 10)] []).

End Props.

(** ** The health endpoint: [health] *)

Module Health.

(** The four values of ['status']. *)
Inductive overall_status :=
| StStarting | StHealthy | StDegraded | StUnhealthy.

(** The fields of the JSON answer that depend on the state; the uptime
    and the timestamp only read the clock and the pool snapshot only
    asks the driver. *)
Record health_response := mkHealth {
  status : overall_status;
  http_status : Z;
  tasks_total : nat;
  tasks_healthy : nat;
  rectime_entries : nat;
  shutdown_requested : bool
}.

(** [sum(1 for t in tasks_info.values() if t.get('healthy', False))] *)
Definition healthy_tasks (ts : gmap string status_entry) : nat :=
  size (filter (fun kv => healthy kv.2 = true) ts).

(** [health()] *)
Definition health (shutdown : bool) (w : world) : health_response :=
  let total_tasks := size (task_status w) in
  let healthy := healthy_tasks (task_status w) in
  let '(st, http) :=
    if (total_tasks =? 0)%nat then (StStarting, 503)
    else if (healthy =? total_tasks)%nat then (StHealthy, 200)
    else if (0 <? healthy)%nat then (StDegraded, 200)
    else (StUnhealthy, 503) in
  mkHealth st http total_tasks healthy (size (rectime_cache w)) shutdown.

End Health.

(** ** The outer loop of the database workers *)

Module Loop.
Import Sync.

(** One pass of [while not shutdown_event.is_set()] in which the
    connections are there or [connect_to_mssql_async] returns them:
    what the surroundings do during the pass, and whether the shutdown
    event is set by the time the wait that ends the pass is over.  A
    shutdown during a connection attempt leaves the worker through
    [KeyboardInterrupt] and is not a pass. *)
Record pass := mkPass {
  pass_env : cycle_env;
  pass_shutdown : bool
}.

(** The timeout handed to [asyncio.wait_for(shutdown_event.wait(), ...)],
    in seconds. *)
Inductive wait :=
| AfterSuccess (timeout : Z)     (* timeout=sync_interval *)
| AfterFailure (timeout : Z).    (* timeout=min(retry_delay, 60) *)

Record loop_end := mkLoopEnd {
  waits : list wait;          (* the waits made, oldest first *)
  last_retry_delay : Z;       (* [retry_delay] when the loop is left *)
  stopped : bool;             (* left through [break]; false: passes ran out *)
  final : sys
}.

(** The [while] loop shared by [run_sync_mssql_async] and
    [run_sync_firebird_async], entered with [retry_delay]:
    - the body of the [try] ends normally: [retry_delay = 1], then wait
      [sync_interval];
    - it raises: the handler runs, then wait [min(retry_delay, 60)], and on
      timeout [retry_delay = min(retry_delay * 2, 60)];
    - a wait that sees the shutdown event breaks out of the loop. *)
Fixpoint worker_loop (body : cycle_env -> M sys unit) (task_name : string)
         (sync_interval : Z) (passes : list pass) (retry_delay : Z)
         (s : sys) : loop_end :=
  match passes with
  | [] => mkLoopEnd [] retry_delay false s
  | p :: passes' =>
      match body (pass_env p) s with
      | (Ok _, s1) =>
          if pass_shutdown p
          then mkLoopEnd [AfterSuccess sync_interval] 1 true s1
          else
            let r := worker_loop body task_name sync_interval passes' 1 s1 in
            mkLoopEnd (AfterSuccess sync_interval :: waits r)
                      (last_retry_delay r) (stopped r) (final r)
      | (Raised e, s1) =>
          let s2 := (worker_handler (pass_env p) task_name e s1).2 in
          let timeout := Z.min retry_delay 60 in
          if pass_shutdown p
          then mkLoopEnd [AfterFailure timeout] retry_delay true s2
          else
            let r := worker_loop body task_name sync_interval passes'
                       (Z.min (retry_delay * 2) 60) s2 in
            mkLoopEnd (AfterFailure timeout :: waits r)
                      (last_retry_delay r) (stopped r) (final r)
      end
  end.

(** [run_sync_mssql_async]: [retry_delay = 1], then the loop, which is
    not entered when the shutdown event is already set. *)
Definition run_sync_mssql_async (cfg : config) (sync_interval : Z)
           (j : mssql_job) (shutdown_set : bool) (passes : list pass)
           (s : sys) : loop_end :=
  if shutdown_set then mkLoopEnd [] 1 true s
  else worker_loop (fun env => run_sync_mssql_body cfg env j)
                   (mssql_task_name j) sync_interval passes 1 s.

(** [run_sync_firebird_async] *)
Definition run_sync_firebird_async (cfg : config) (sync_interval : Z)
           (j : firebird_job) (shutdown_set : bool) (passes : list pass)
           (s : sys) : loop_end :=
  if shutdown_set then mkLoopEnd [] 1 true s
  else worker_loop (fun env => run_sync_firebird_body cfg env j)
                   (firebird_task_name j) sync_interval passes 1 s.

(** The waits a loop makes when it starts after [streak] failures in a
    row: a success waits the interval and ends the streak, the failure
    number [streak + 1] waits [min(2 ^ streak, 60)] seconds. *)
Fixpoint backoff_schedule (sync_interval : Z) (streak : nat)
         (ws : list wait) : Prop :=
  match ws with
  | [] => True
  | AfterSuccess t :: ws' =>
      t = sync_interval /\ backoff_schedule sync_interval 0 ws'
  | AfterFailure t :: ws' =>
      t = Z.min (2 ^ Z.of_nat streak) 60
      /\ backoff_schedule sync_interval (S streak) ws'
  end.

(** The state after running the cycles of the given passes in turn. *)
Definition after_cycles (cycle : cycle_env -> M sys unit)
           (passes : list pass) (s : sys) : sys :=
  foldl (fun s p => (cycle (pass_env p) s).2) s passes.

End Loop.

(** ** Retrying with backoff: [retry_with_backoff_async] *)

Module Retry.

(** How a call of [retry_with_backoff_async] ends. *)
Inductive retry_end (A : Type) :=
| Returned (a : A)          (* func() returned *)
| Reraised (e : exn)        (* the attempts ran out: [raise] *)
| Interrupted               (* raise KeyboardInterrupt("Shutdown requested") *)
| StillTrying.              (* the attempts listed ran out *)
Arguments Returned {A} a.
Arguments Reraised {A} e.
Arguments Interrupted {A}.
Arguments StillTrying {A}.

Record retry_run (A : Type) := mkRetryRun {
  ended : retry_end A;
  calls : nat;               (* how many times func() was awaited *)
  delays : list Z            (* [delay] at each wait, before the jitter *)
}.
Arguments mkRetryRun {A} ended calls delays.
Arguments ended {A} r.
Arguments calls {A} r.
Arguments delays {A} r.

(** The loop of [retry_with_backoff_async], entered with [retries] and
    [delay].  An attempt is what [func()] does and whether the shutdown
    event is set before the wait that follows it times out.  The wait
    lasts [min(delay + jitter, max_delay)], the jitter being a fraction of
    [delay] read off the clock; only [delay] is state. *)
Fixpoint retry_loop {A} (max_retries max_delay : Z)
         (attempts : list (outcome A * bool)) (retries delay : Z)
  : retry_run A :=
  match attempts with
  | [] => mkRetryRun StillTrying 0 []
  | (Ok a, _) :: _ => mkRetryRun (Returned a) 1 []
  | (Raised e, shutdown) :: attempts' =>
      let retries := retries + 1 in
      if (0 <? max_retries) && (max_retries <=? retries)
      then mkRetryRun (Reraised e) 1 []
      else if shutdown then mkRetryRun Interrupted 1 [delay]
      else
        let r := retry_loop max_retries max_delay attempts' retries
                   (Z.min (delay * 2) max_delay) in
        mkRetryRun (ended r) (S (calls r)) (delay :: delays r)
  end.

(** [retry_with_backoff_async(func, max_retries, base_delay, max_delay)] *)
Definition retry_with_backoff_async {A} (max_retries base_delay max_delay : Z)
           (attempts : list (outcome A * bool)) : retry_run A :=
  retry_loop max_retries max_delay attempts 0 base_delay.

(** [connect_to_mssql_async]:
    [retry_with_backoff_async(do_connect, max_retries=0, base_delay=1,
    max_delay=60)]. *)
Definition connect_to_mssql_async {A} (attempts : list (outcome A * bool))
  : retry_run A :=
  retry_with_backoff_async 0 1 60 attempts.

End Retry.

(** ** The limiter's status and sequences of its calls *)

Module GateStatus.
Import Gate.

(** The dictionary that [get_status] returns.  [cooldown_remaining] is
    the timedelta whose [total_seconds()] the code reports, here in
    microseconds. *)
Record gate_status := mkGateStatus {
  messages_in_window : nat;
  status_max_messages : Z;
  status_window_seconds : Z;
  in_cooldown : bool;
  cooldown_remaining : Z;
  status_suppressed_count : Z
}.

(** [get_status]: without a lock the answer is the empty dictionary
    ([None]); with one the history is trimmed as in [can_send] before it
    is counted. *)
Definition get_status (now : datetime) (g : TelegramRateLimiter)
  : option gate_status * TelegramRateLimiter :=
  if negb (lock g) then (None, g)
  else
    let cutoff := now - seconds (window_seconds g) in
    let g1 := set_history g (popleft_while cutoff (message_times g)) in
    let cooling :=
      match cooldown_until g1 with
      | Some u => now <? u
      | None => false
      end in
    (Some (mkGateStatus
             (length (message_times g1))
             (max_messages g1)
             (window_seconds g1)
             cooling
             (match cooldown_until g1 with
              | Some u => if now <? u then u - now else 0
              | None => 0
              end)
             (suppressed_count g1)),
     g1).

(** [can_send] called at each of the instants in turn: the answers, the
    log lines and the gate left. *)
Fixpoint can_send_all (ts : list datetime) (g : TelegramRateLimiter)
  : list bool * list log_event * TelegramRateLimiter :=
  match ts with
  | [] => ([], [], g)
  | t :: ts' =>
      let '(ok, l, g1) := can_send t g in
      let '(oks, ls, g2) := can_send_all ts' g1 in
      (ok :: oks, l ++ ls, g2)
  end.

(** How many of the calls are sent with [force=True]. *)
Definition forced_calls (cs : list gate_call) : nat :=
  length (List.filter (fun c => match c with Forced _ => true
                                        | Attempt _ _ => false end) cs).

(** The instants at which the calls that are not forced ask the gate. *)
Definition attempt_starts (cs : list gate_call) : list datetime :=
  omap (fun c => match c with
                 | Attempt a _ => Some a
                 | Forced _ => None
                 end) cs.

End GateStatus.

(** ** What a batch adds to a table *)

Module Batch.
Import Db.

(** The rows of [batch] that a table already holding [present] takes
    when they are inserted one by one and a row whose key is there is
    refused. *)
Fixpoint accepted (present batch : list row) : list row :=
  match batch with
  | [] => []
  | r :: rs =>
      if has_key (row_key r) present then accepted present rs
      else r :: accepted (present ++ [r]) rs
  end.

(** No two rows of the table carry the same key. *)
Definition unique_keys (rs : list row) : Prop := NoDup (map row_key rs).

End Batch.

(** ** Saving a TC2 frame: [save_tc2_to_sqlserver_async] *)

Module Tc2Save.
Import Db Sync.
#[local] Open Scope py_scope.

(** A line of the frame that [_read_excel_file_sync] returns.  The
    column [check_datetime] is there by construction; after
    [pd.to_datetime(..., errors='coerce')] a value that is no date is
    NaT, here [None].  The numeric columns are carried along unread. *)
Record reading := mkReading {
  check_datetime : option datetime;
  temperature_supply : option Z;
  temperature_return : option Z;
  temperature_cold_water : option Z;
  flow_supply : option Z;
  flow_return : option Z;
  pressure_supply : option Z;
  pressure_return : option Z;
  flow_difference : option Z;
  period_gcal : option Z;
  period_heating_gcal : option Z
}.

(** [config.get('object_id', 1)], [config.get('id_value', 1)] and
    [config.get('objid_value', 1)]. *)
Record save_config := mkSaveConfig {
  object_id : Z;
  id_value : Z;
  objid_value : Z
}.

(** The tuple appended to [rows] for a line stamped [rectime]. *)
Definition to_row (c : save_config) (r : reading) (rectime : datetime)
  : row :=
  mkRow (Some (object_id c)) (Some (id_value c)) (Some (objid_value c))
        (Some rectime)
        [temperature_supply r; temperature_return r;
         temperature_cold_water r; None; None; None;
         flow_supply r; flow_return r; pressure_supply r;
         pressure_return r; None; None; flow_difference r; None; None;
         None; None; period_gcal r; period_heating_gcal r; None; None].

(** [tmp.dropna(subset=['check_datetime'])] followed by the loop that
    builds [rows]. *)
Definition frame_rows (c : save_config) (df : list reading) : list row :=
  omap (fun r => to_row c r <$> check_datetime r) df.

(** The fallback loop, which counts the rows it inserts and keeps the
    greatest of their timestamps ([row[3]] is never NULL here). *)
Fixpoint insert_each_tc2 (rs : list row) (success_count : nat)
         (success_max_rectime : option datetime)
  : M database (nat * option datetime) :=
  match rs with
  | [] => ret (success_count, success_max_rectime)
  | r :: rs' =>
      let* acc :=
        try_except
          (let* _ := execute_insert r in
           ret (S success_count,
                step_max_rectime success_max_rectime r))
          (fun _ => ret (success_count, success_max_rectime)) in
      insert_each_tc2 rs' acc.1 acc.2
  end.

(** [save_tc2_to_sqlserver_async(cursor, conn, df, config)]; [df] is
    [None] for a missing frame.  [write_fails]: the connection breaks in
    [executemany]. *)
Definition save_tc2_to_sqlserver_async (write_fails : bool)
           (c : save_config) (df : option (list reading))
  : M database (nat * option datetime) :=
  try_except
    (match df with
     | None | Some [] => ret (0%nat, None)
     | Some ((_ :: _) as df) =>
         let rows := frame_rows c df in
         let max_rectime := batch_max_rectime rows in
         match rows with
         | [] => ret (0%nat, None)
         | _ :: _ =>
             try_except
               (let* _ := guarded write_fails (executemany rows) in
                let* _ := modify commit in
                ret (length rows, max_rectime))
               (fun e =>
                  match e with
                  | IntegrityError =>
                      let* _ := modify rollback in
                      let* res := insert_each_tc2 rows 0 None in
                      let* _ := modify commit in
                      ret res
                  | OperationalError => raise e
                  end)
         end
     end)
    (fun _ => ret (0%nat, None)).

End Tc2Save.

(** ** Rows as the driver returns them: [process_row] on any columns *)

Module Rows.

(** The values found in a fetched row. *)
Inductive pyval :=
| PNone
| PInt (z : Z)
| PStr (s : string)
| PTime (t : datetime).

(** [row[idx] if idx < len(row) and row[idx] is not None else ''] *)
Definition cell (row : list pyval) (idx : nat) : pyval :=
  match row !! idx with
  | Some PNone | None => PStr EmptyString
  | Some v => v
  end.

(** [for idx, col in enumerate(columns): processed_row[col] = ...],
    entered at index [idx] with the dictionary [d]. *)
Fixpoint fill (row : list pyval) (columns : list string) (idx : nat)
         (d : gmap string pyval) : gmap string pyval :=
  match columns with
  | [] => d
  | col :: columns' => fill row columns' (S idx) (<[col := cell row idx]> d)
  end.

(** [process_row(row, columns)] *)
Definition process_row (row : list pyval) (columns : list string)
  : gmap string pyval :=
  let processed_row := fill row columns 0 ∅ in
  <["ObjectId" := default (PInt 1) (processed_row !! "OBJID")]>
    (delete "OBJID" processed_row).

(** [if 'ObjectId' not in columns: columns.append('ObjectId')]: the list
    of columns as [insert_into_mssql_async] uses it from then on. *)
Definition insert_columns (columns : list string) : list string :=
  if bool_decide ("ObjectId" ∈ columns) then columns
  else columns ++ ["ObjectId"].

(** [tuple(processed_row.get(col, '') for col in columns)], the values
    bound to the INSERT statement for one row. *)
Definition row_values (row : list pyval) (columns : list string)
  : list pyval :=
  let columns := insert_columns columns in
  let processed_row := process_row row columns in
  map (fun col => default (PStr EmptyString) (processed_row !! col)) columns.

(** The 25 columns of a [Dynamic_*] table, in the order of the DB-to-DB
    worker's query. *)
Definition fixed_columns : list string :=
  ["ObjectId"; "ID"; "OBJID"; "RECTIME";
   "T1"; "T2"; "T3"; "T4"; "T5"; "T6"; "V1"; "V2"; "P1"; "P2"; "T7"; "T8";
   "V3"; "V4"; "V5"; "P3"; "P4"; "H1"; "H2"; "H3"; "H4"].

(** A record of the fixed form as the tuple the driver returns for
    these columns. *)
Definition of_int (v : option Z) : pyval :=
  match v with Some z => PInt z | None => PNone end.
Definition of_time (v : option datetime) : pyval :=
  match v with Some t => PTime t | None => PNone end.
Definition tuple_of (r : Db.row) : list pyval :=
  of_int (Db.ObjectId r) :: of_int (Db.ID r) :: of_int (Db.OBJID r)
  :: of_time (Db.RECTIME r) :: map of_int (Db.measures r).

(** NULL bound as the empty string. *)
Definition blank (v : pyval) : pyval :=
  match v with PNone => PStr EmptyString | _ => v end.

End Rows.

(** ** The engine pool: [ConnectionPool] *)

Module Pool.
Import Stdlib.Strings.Ascii.

(** An engine, known by the connection string it was created with; the
    pool options are the same for every engine. *)
Record engine := mkEngine {
  connection_string : string
}.

(** [f"{server}|{database}|{uid}"] *)
Definition pool_key (server database uid : string) : string :=
  server +:+ "|" +:+ database +:+ "|" +:+ uid.

(** [f"mssql+pyodbc://{uid}:{pwd}@{server}/{database}?driver=..."] *)
Definition make_connection_string (server database uid pwd : string)
  : string :=
  "mssql+pyodbc://" +:+ uid +:+ ":" +:+ pwd +:+ "@" +:+ server +:+ "/"
  +:+ database +:+ "?driver=SQL+Server&TrustServerCertificate=yes".

(** [get_engine]: the engine returned and [self.engines] afterwards. *)
Definition get_engine (server database uid pwd : string)
           (engines : gmap string engine) : engine * gmap string engine :=
  let key := pool_key server database uid in
  match engines !! key with
  | Some e => (e, engines)
  | None =>
      let e := mkEngine (make_connection_string server database uid pwd) in
      (e, <[key := e]> engines)
  end.

(** [dispose_all]: every engine is disposed of, then
    [self.engines.clear()]. *)
Definition dispose_all (engines : gmap string engine)
  : gmap string engine := ∅.

(** A call of [get_engine]. *)
Record request := mkRequest {
  req_server : string;
  req_database : string;
  req_uid : string;
  req_pwd : string
}.

(** The pool after the calls [reqs], made in turn on [engines]. *)
Definition after_requests (reqs : list request)
           (engines : gmap string engine) : gmap string engine :=
  foldl (fun es r =>
           (get_engine (req_server r) (req_database r) (req_uid r)
                       (req_pwd r) es).2) engines reqs.

(** ['|' not in s] *)
Fixpoint bar_free (s : string) : bool :=
  match s with
  | EmptyString => true
  | String a s' => negb (Ascii.eqb a "|"%char) && bar_free s'
  end.

(** The key of a call, and a call whose server and database hold no
    ['|']. *)
Definition request_key (r : request) : string :=
  pool_key (req_server r) (req_database r) (req_uid r).

Definition request_ok (r : request) : Prop :=
  bar_free (req_server r) = true /\ bar_free (req_database r) = true.

Definition same_target (r r' : request) : bool :=
  bool_decide (req_server r = req_server r'
               /\ req_database r = req_database r'
               /\ req_uid r = req_uid r').

(** The password of the first of [reqs] made for the target of [r]. *)
Definition first_password (r : request) (reqs : list request)
  : option string :=
  req_pwd <$> List.find (same_target r) reqs.

End Pool.

(** ** The columns of the overview page: [index] *)

Module Web.

(** [column_order] *)
Definition column_order : list string :=
  ["TABLE_NAME"; "RECTIME"; "T1"; "T2"; "T3"; "P1"; "P2"; "V1"; "V2";
   "V3"].

(** The order of [str] that [sorted] uses: code point by code point,
    which is byte by byte on the UTF-8 form held here. *)
Definition str_le (a b : string) : Prop := String.leb a b = true.

#[global] Instance str_le_dec a b : Decision (str_le a b).
Proof. unfold str_le. apply _. Defined.

(** [[col for col in column_order if col in all_columns]
     + sorted(all_columns - set(column_order))] *)
Definition ordered_columns (all_columns : gset string) : list string :=
  filter (fun col => col ∈ all_columns) column_order
  ++ merge_sort str_le (elements (all_columns ∖ list_to_set column_order)).

End Web.

(** ** Validation of the configuration: [validate_config] *)

Module Config.

(** A float as [json.load] yields it: [mantissa * 2 ^ exponent], or one
    of the values of the literals [NaN], [Infinity], [-Infinity]. *)
Inductive pyfloat :=
| FNan
| FInf (negative : bool)
| FFinite (mantissa exponent : Z).

(** The values that [json.load] returns.  The fields of an object are
    kept in the order of the file, each key once. *)
#[warnings="-register-all"] Inductive json :=
| JNull
| JBool (b : bool)
| JInt (z : Z)
| JFloat (f : pyfloat)
| JStr (s : string)
| JList (items : list json)
| JDict (fields : list (string * json)).

(** The exceptions that the operations used by [validate_config] raise. *)
Inductive pyexn := TypeError | AttributeError | KeyError.

Definition ebind {A B} (m : pyexn + A) (k : A -> pyexn + B) : pyexn + B :=
  match m with
  | inl e => inl e
  | inr a => k a
  end.

Definition lookup_field (key : string) (fields : list (string * json))
  : option json :=
  snd <$> List.find (fun kv => String.eqb kv.1 key) fields.

(** [key in container] for a string [key]: a key of a dict, an element
    of a list, a substring of a string; the other values are not
    iterable. *)
Definition contains (container : json) (key : string) : pyexn + bool :=
  match container with
  | JDict fields =>
      inr (match lookup_field key fields with Some _ => true
                                         | None => false end)
  | JList items =>
      inr (existsb (fun v => match v with
                             | JStr s => String.eqb s key
                             | _ => false
                             end) items)
  | JStr s =>
      inr (match String.index 0 key s with Some _ => true
                                      | None => false end)
  | _ => inl TypeError
  end.

(** [container[key]] for a string [key]. *)
Definition getitem (container : json) (key : string) : pyexn + json :=
  match container with
  | JDict fields =>
      match lookup_field key fields with
      | Some v => inr v
      | None => inl KeyError
      end
  | _ => inl TypeError
  end.

(** [for x in v]: the elements of a list, the keys of a dict, the
    characters of a string. *)
Definition iterate (v : json) : pyexn + list json :=
  match v with
  | JList items => inr items
  | JDict fields => inr (map (fun kv => JStr kv.1) fields)
  | JStr s =>
      inr (map (fun a => JStr (String a EmptyString))
               (String.list_ascii_of_string s))
  | _ => inl TypeError
  end.

(** [v.get(key, default)]: only a dict has the method. *)
Definition get (v : json) (key : string) (default : json) : pyexn + json :=
  match v with
  | JDict fields =>
      inr (match lookup_field key fields with Some x => x
                                         | None => default end)
  | _ => inl AttributeError
  end.

Definition float_is_zero (f : pyfloat) : bool :=
  match f with
  | FFinite m _ => m =? 0
  | _ => false
  end.

(** Truth value of [v]. *)
Definition truthy (v : json) : bool :=
  match v with
  | JNull => false
  | JBool b => b
  | JInt z => negb (z =? 0)
  | JFloat f => negb (float_is_zero f)
  | JStr s => negb (String.eqb s EmptyString)
  | JList items => match items with [] => false | _ => true end
  | JDict fields => match fields with [] => false | _ => true end
  end.

(** [isinstance(v, int)]: [bool] is a subclass of [int]. *)
Definition isinstance_int (v : json) : bool :=
  match v with
  | JInt _ | JBool _ => true
  | _ => false
  end.

(** [isinstance(v, (int, float))] *)
Definition isinstance_number (v : json) : bool :=
  match v with
  | JInt _ | JBool _ | JFloat _ => true
  | _ => false
  end.

(** [v <= 0] for a number. *)
Definition le_zero (v : json) : bool :=
  match v with
  | JInt z => z <=? 0
  | JBool b => negb b
  | JFloat FNan => false
  | JFloat (FInf negative) => negative
  | JFloat (FFinite m _) => m <=? 0
  | _ => false
  end.

(** The messages appended to [errors]. *)
Inductive error :=
| MissingSection (section : string)
| MissingKey (section key : string)
| MssqlMissingKey (i : nat) (key : string)
| FirebirdMissingKey (i : nat) (key : string)
| Tc2MissingKey (key : string)
| PortNotNumber
| SyncIntervalNotPositive
| NotificationTimeoutNotPositive.

Definition REQUIRED_CONFIG_KEYS : list (string * list string) :=
  [("database", ["server"; "database"; "username"; "password"]);
   ("telegram", ["chat_id"; "bot_token"]);
   ("web", ["host"; "port"])].
Definition REQUIRED_MSSQL_SYNC_KEYS : list string :=
  ["source_server"; "source_db"; "source_table"; "source_user";
   "source_pass"; "target_table"].
Definition REQUIRED_FIREBIRD_SYNC_KEYS : list string :=
  ["host"; "port"; "database"; "table"; "user"; "password";
   "target_table"; "objid"].
Definition REQUIRED_TC2_KEYS : list string :=
  ["files_directory"; "target_table"].

(** [for key in keys: if key not in v: errors.append(...)] *)
Fixpoint check_keys (mk : string -> error) (v : json) (keys : list string)
         (errors : list error) : pyexn + list error :=
  match keys with
  | [] => inr errors
  | key :: keys' =>
      ebind (contains v key) (fun present =>
        check_keys mk v keys'
          (if present then errors else errors ++ [mk key]))
  end.

(** [for section, keys in REQUIRED_CONFIG_KEYS.items(): ...] *)
Fixpoint check_sections (config : json)
         (required : list (string * list string)) (errors : list error)
  : pyexn + list error :=
  match required with
  | [] => inr errors
  | (section, keys) :: required' =>
      ebind (contains config section) (fun present =>
        if present then
          ebind (getitem config section) (fun v =>
            ebind (check_keys (MissingKey section) v keys errors)
                  (check_sections config required'))
        else
          check_sections config required'
            (errors ++ [MissingSection section]))
  end.

(** [for i, sync in enumerate(...): for key in keys: ...], entered at
    index [i]. *)
Fixpoint check_syncs (mk : nat -> string -> error) (keys : list string)
         (syncs : list json) (i : nat) (errors : list error)
  : pyexn + list error :=
  match syncs with
  | [] => inr errors
  | sync :: syncs' =>
      ebind (check_keys (mk i) sync keys errors)
            (check_syncs mk keys syncs' (S i))
  end.

(** [if name in config: for i, sync in enumerate(config[name]): ...] *)
Definition check_sync_list (name : string) (mk : nat -> string -> error)
           (keys : list string) (config : json) (errors : list error)
  : pyexn + list error :=
  ebind (contains config name) (fun present =>
    if present then
      ebind (getitem config name) (fun v =>
        ebind (iterate v) (fun syncs =>
          check_syncs mk keys syncs 0 errors))
    else inr errors).

(** [if 'tc2_processor' in config: ...] *)
Definition check_tc2 (config : json) (errors : list error)
  : pyexn + list error :=
  ebind (contains config "tc2_processor") (fun present =>
    if present then
      ebind (getitem config "tc2_processor") (fun tc2 =>
        ebind (get tc2 "enabled" (JBool false)) (fun enabled =>
          if truthy enabled
          then check_keys Tc2MissingKey tc2 REQUIRED_TC2_KEYS errors
          else inr errors))
    else inr errors).

(** [if 'web' in config: if not isinstance(config['web'].get('port'),
    int): ...] *)
Definition check_port (config : json) (errors : list error)
  : pyexn + list error :=
  ebind (contains config "web") (fun present =>
    if present then
      ebind (getitem config "web") (fun web =>
        ebind (get web "port" JNull) (fun port =>
          inr (if isinstance_int port then errors
               else errors ++ [PortNotNumber])))
    else inr errors).

(** [if name in config: if not isinstance(config[name], (int, float))
    or config[name] <= 0: ...] *)
Definition check_positive (name : string) (err : error) (config : json)
           (errors : list error) : pyexn + list error :=
  ebind (contains config name) (fun present =>
    if present then
      ebind (getitem config name) (fun v =>
        inr (if negb (isinstance_number v) || le_zero v
             then errors ++ [err] else errors))
    else inr errors).

(** [validate_config(config)]: the list of errors, or the exception
    that escapes. *)
Definition validate_config (config : json) : pyexn + list error :=
  ebind (check_sections config REQUIRED_CONFIG_KEYS []) (fun errors =>
  ebind (check_sync_list "sync_mssql" MssqlMissingKey
           REQUIRED_MSSQL_SYNC_KEYS config errors) (fun errors =>
  ebind (check_sync_list "sync_firebird" FirebirdMissingKey
           REQUIRED_FIREBIRD_SYNC_KEYS config errors) (fun errors =>
  ebind (check_tc2 config errors) (fun errors =>
  ebind (check_port config errors) (fun errors =>
  ebind (check_positive "sync_interval" SyncIntervalNotPositive config
           errors) (fun errors =>
  check_positive "notification_timeout" NotificationTimeoutNotPositive
    config errors)))))).

(** The shape a configuration is meant to have: the sections are
    objects and the two lists of jobs are lists of objects. *)
Definition is_dict (v : json) : Prop := exists fields, v = JDict fields.

Definition well_shaped (fields : list (string * json)) : Prop :=
  (forall section v,
     section ∈ ["database"; "telegram"; "web"; "tc2_processor"] ->
     lookup_field section fields = Some v -> is_dict v)
  /\ (forall name v,
        name ∈ ["sync_mssql"; "sync_firebird"] ->
        lookup_field name fields = Some v ->
        exists syncs, v = JList syncs /\ Forall is_dict syncs).

(** [section.key] is there. *)
Definition has_key (fields : list (string * json)) (section key : string)
  : Prop :=
  exists sec v, lookup_field section fields = Some (JDict sec)
                /\ lookup_field key sec = Some v.

(** Every job of the list [name], if the list is there, has [keys]. *)
Definition jobs_have (fields : list (string * json)) (name : string)
           (keys : list string) : Prop :=
  forall syncs, lookup_field name fields = Some (JList syncs) ->
  forall sync, sync ∈ syncs ->
  forall key, key ∈ keys ->
  exists sec v, sync = JDict sec /\ lookup_field key sec = Some v.

(** What [validate_config] accepts. *)
Definition acceptable (fields : list (string * json)) : Prop :=
  (forall section keys key,
     (section, keys) ∈ REQUIRED_CONFIG_KEYS -> key ∈ keys ->
     has_key fields section key)
  /\ jobs_have fields "sync_mssql" REQUIRED_MSSQL_SYNC_KEYS
  /\ jobs_have fields "sync_firebird" REQUIRED_FIREBIRD_SYNC_KEYS
  /\ (forall tc2 enabled,
        lookup_field "tc2_processor" fields = Some (JDict tc2) ->
        lookup_field "enabled" tc2 = Some enabled ->
        truthy enabled = true ->
        forall key, key ∈ REQUIRED_TC2_KEYS ->
                    exists v, lookup_field key tc2 = Some v)
  /\ (exists web port,
        lookup_field "web" fields = Some (JDict web)
        /\ lookup_field "port" web = Some port
        /\ isinstance_int port = true)
  /\ (forall name v,
        name ∈ ["sync_interval"; "notification_timeout"] ->
        lookup_field name fields = Some v ->
        isinstance_number v = true /\ le_zero v = false).

(** A smallest configuration that is accepted; the interval is given
    as [true]. *)
Definition config_minimal : list (string * json) :=
  [("database", JDict [("server", JStr "srv"); ("database", JStr "scada");
                       ("username", JStr "u"); ("password", JStr "p")]);
   ("telegram", JDict [("chat_id", JStr "1"); ("bot_token", JStr "t")]);
   ("web", JDict [("host", JStr "0.0.0.0"); ("port", JInt 80)]);
   ("sync_interval", JBool true)].

(** [None], a boolean or a number. *)
Definition scalar (v : json) : Prop :=
  match v with
  | JNull | JBool _ | JInt _ | JFloat _ => True
  | _ => False
  end.

End Config.

(** ** The registry of open connections *)

Module Registry.

(** A connection object, known by its identity. *)
Definition conn := nat.

(** [register_connection]: [active_connections.append(conn)] *)
Definition register_connection (c : conn) (active : list conn)
  : list conn :=
  active ++ [c].

(** [list.remove]: the first occurrence goes. *)
Fixpoint remove_first (c : conn) (l : list conn) : list conn :=
  match l with
  | [] => []
  | x :: l' => if bool_decide (x = c) then l' else x :: remove_first c l'
  end.

(** [unregister_connection]:
    [if conn in active_connections: active_connections.remove(conn)] *)
Definition unregister_connection (c : conn) (active : list conn)
  : list conn :=
  if bool_decide (c ∈ active) then remove_first c active else active.

(** The registry after [close_connection_safe(conn)]: nothing happens
    for [None]; what [conn.close()] raises is logged and dropped. *)
Definition close_connection_safe (c : option conn) (active : list conn)
  : list conn :=
  match c with
  | Some c => unregister_connection c active
  | None => active
  end.

(** How often a connection is registered. *)
Definition registrations (c : conn) (active : list conn) : nat :=
  length (filter (fun x => x = c) active).

End Registry.

(* ===================================================================== *)
(** * Part II: properties *)
(* ===================================================================== *)

(** ** The notification gate *)

Module GateFacts.
Import Gate Props.





Lemma can_send_params now g :
  let g' := (can_send now g).2 in
  max_messages g' = max_messages g
  /\ window_seconds g' = window_seconds g
  /\ cooldown_seconds g' = cooldown_seconds g
  /\ lock g' = lock g.
Proof.
  unfold can_send, check_limit.
  repeat (case_match; simplify_eq/=); auto.
Qed.








(** [can_send] on a gate that is not cooling down and whose oldest entry
    is still inside the window. *)
Lemma popleft_while_fresh cutoff x h :
  cutoff <= x -> popleft_while cutoff (x :: h) = x :: h.
Proof. intros H. simpl. by rewrite (proj2 (Z.ltb_ge x cutoff)). Qed.

Lemma can_send_room now m w c h n :
  popleft_while (now - seconds w) h = h ->
  Z.of_nat (length h) < m ->
  can_send now (mkLimiter m w c h true None n)
  = (true, [], mkLimiter m w c h true None n).
Proof.
  intros Hh Hlen. unfold can_send, check_limit, set_history. simpl.
  rewrite Hh. rewrite Z.geb_leb. by rewrite (proj2 (Z.leb_gt _ _)) by lia.
Qed.

Lemma can_send_full now m w c h n :
  popleft_while (now - seconds w) h = h ->
  m <= Z.of_nat (length h) ->
  can_send now (mkLimiter m w c h true None n)
  = (false, [LogRateLimitReached],
     mkLimiter m w c h true (Some (now + seconds c)) 1).
Proof.
  intros Hh Hlen. unfold can_send, check_limit, set_history, set_cooldown.
  simpl. rewrite Hh. rewrite Z.geb_leb.
  by rewrite (proj2 (Z.leb_le _ _)) by lia.
Qed.

Lemma can_send_cooling now m w c h u n :
  now < u ->
  can_send now (mkLimiter m w c h true (Some u) n)
  = (false, [], mkLimiter m w c h true (Some u) (n + 1)).
Proof.
  intros Hu. unfold can_send, set_cooldown. simpl.
  by rewrite (proj2 (Z.ltb_lt now u)).
Qed.

Lemma can_send_cooled now m w c h u n :
  u <= now -> 0 < n -> 0 < m ->
  can_send now (mkLimiter m w c h true (Some u) n)
  = (true, [LogSuppressedDuringCooldown n], mkLimiter m w c [] true None 0).
Proof.
  intros Hu Hn Hm. unfold can_send, check_limit, set_cooldown, set_history.
  simpl. rewrite (proj2 (Z.ltb_ge now u)) by done.
  rewrite (proj2 (Z.ltb_lt 0 n)) by done.
  rewrite Z.geb_leb. by rewrite (proj2 (Z.leb_gt _ _)) by lia.
Qed.

(** Run the next use of a gate whose state is explicit. *)
Ltac gate_next :=
  cbn [run]; unfold record_sent, set_history;
  cbn [message_times lock max_messages window_seconds cooldown_seconds
       cooldown_until suppressed_count app];
  first
    [ rewrite can_send_room;
      [| first [ reflexivity
               | apply popleft_while_fresh; unfold seconds in *; lia ]
       | simpl; lia ]
    | rewrite can_send_full;
      [| first [ reflexivity
               | apply popleft_while_fresh; unfold seconds in *; lia ]
       | simpl; lia ] ].

Example run_short_cooldown :
  (run calls_short_cooldown gate_short_cooldown).1 = [0; seconds 11].
Proof. reflexivity. Qed.




(** C8: Scenario E.  With the gate at 5 messages per 60 s and a cooldown
    of 300 s, six uses inside one second give five admissions and a sixth
    denial that starts the cooldown; [can_send] 299 s after the denial is
    denied, and 301 s after the denial it is admitted, logs the number of
    suppressed messages (two after the call at 299 s, one without it) and
    leaves the history empty, no cooldown and a suppressed count of
    zero. *)
Theorem scenario_E_rate_limit
        (a1 r1 a2 r2 a3 r3 a4 r4 a5 r5 a6 r6 : datetime) :
  a1 <= r1 /\ r1 <= a2 /\ a2 <= r2 /\ r2 <= a3 /\ a3 <= r3 /\ r3 <= a4
  /\ a4 <= r4 /\ r4 <= a5 /\ a5 <= r5 /\ r5 <= a6 /\ a6 <= a1 + seconds 1 ->
  let g6 := mkLimiter 5 60 300 [r1; r2; r3; r4; r5] true
                      (Some (a6 + seconds 300)) 1 in
  let g7 := mkLimiter 5 60 300 [r1; r2; r3; r4; r5] true
                      (Some (a6 + seconds 300)) 2 in
  run [Attempt a1 r1; Attempt a2 r2; Attempt a3 r3; Attempt a4 r4;
       Attempt a5 r5] gate_E
  = ([a1; a2; a3; a4; a5],
     mkLimiter 5 60 300 [r1; r2; r3; r4; r5] true None 0)
  /\ run [Attempt a1 r1; Attempt a2 r2; Attempt a3 r3; Attempt a4 r4;
          Attempt a5 r5; Attempt a6 r6] gate_E
     = ([a1; a2; a3; a4; a5], g6)
  /\ can_send a6 (mkLimiter 5 60 300 [r1; r2; r3; r4; r5] true None 0)
     = (false, [LogRateLimitReached], g6)
  /\ can_send (a6 + seconds 299) g6 = (false, [], g7)
  /\ can_send (a6 + seconds 301) g7
     = (true, [LogSuppressedDuringCooldown 2],
        mkLimiter 5 60 300 [] true None 0)
  /\ can_send (a6 + seconds 301) g6
     = (true, [LogSuppressedDuringCooldown 1],
        mkLimiter 5 60 300 [] true None 0).
Proof.
  intros H. unfold gate_E, with_lock, init. cbn zeta.
  cbn [message_times lock max_messages window_seconds cooldown_seconds
       cooldown_until suppressed_count].
  split; [|split; [|split; [|split; [|split]]]].
  - do 5 gate_next. reflexivity.
  - do 6 gate_next. reflexivity.
  - apply can_send_full; [|simpl; lia].
    apply popleft_while_fresh. unfold seconds in *. lia.
  - apply can_send_cooling. unfold seconds. lia.
  - apply can_send_cooled; [unfold seconds|..]; lia.
  - apply can_send_cooled; [unfold seconds|..]; lia.
Qed.

Lemma scenario_E_rate_limit_witness :
  can_send (seconds 1 + seconds 301)
    (mkLimiter 5 60 300 [0; 200000; 400000; 600000; 800000] true
               (Some (seconds 1 + seconds 300)) 2)
  = (true, [LogSuppressedDuringCooldown 2],
     mkLimiter 5 60 300 [] true None 0).
Proof.
  apply (proj1 (proj2 (proj2 (proj2 (proj2
           (scenario_E_rate_limit 0 0 200000 200000 400000 400000
              600000 600000 800000 800000 (seconds 1) (seconds 1)
              ltac:(unfold seconds; lia))))))).
Defined.

End GateFacts.

(** ** Reading the watermark *)

Module CacheFacts.
Import Cache Db Props.

Lemma select_max_rectime_none rows :
  select_max_rectime rows = None <->
  (forall r, In r rows -> RECTIME r = None).
Proof.
  induction rows as [|r rows IH]; simpl.
  - split; [intros _ ? []|done].
  - destruct (RECTIME r) as [t|] eqn:Ht; simpl.
    + split.
      * destruct (select_max_rectime rows); discriminate.
      * intros H. specialize (H r (or_introl eq_refl)). congruence.
    + rewrite IH. split.
      * intros H x [<-|Hx]; [done|by apply H].
      * intros H x Hx. apply H. by right.
Qed.

Lemma select_max_rectime_some rows v :
  select_max_rectime rows = Some v <-> greatest_rectime v rows.
Proof.
  revert v. induction rows as [|r rows IH]; intros v; simpl.
  - split; [done|]. intros [(x & [] & _) _].
  - destruct (RECTIME r) as [t|] eqn:Ht;
      destruct (select_max_rectime rows) as [m|] eqn:Hm; simpl.
    + pose proof (proj1 (IH m) eq_refl) as [(x & Hx & Hxm) Hub].
      split.
      * intros [= <-]. split.
        -- destruct (Z.max_spec t m) as [[? ->]|[? ->]].
           ++ exists x. split; [by right|done].
           ++ exists r. split; [by left|done].
        -- intros y u [<-|Hy] Hyu.
           ++ rewrite Ht in Hyu. simplify_eq. lia.
           ++ specialize (Hub y u Hy Hyu). lia.
      * intros [(y & Hy & Hyv) Hv]. f_equal.
        pose proof (Hv r t (or_introl eq_refl) Ht).
        pose proof (Hv x m (or_intror Hx) Hxm).
        destruct Hy as [<-|Hy].
        -- rewrite Ht in Hyv. simplify_eq. lia.
        -- specialize (Hub y v Hy Hyv). lia.
    + pose proof (proj1 (select_max_rectime_none rows) Hm) as Hnone.
      split.
      * intros [= <-]. split.
        -- exists r. split; [by left|done].
        -- intros y u [<-|Hy] Hyu.
           ++ rewrite Ht in Hyu. simplify_eq. lia.
           ++ rewrite (Hnone y Hy) in Hyu. discriminate.
      * intros [(y & [<-|Hy] & Hyv) _].
        -- congruence.
        -- rewrite (Hnone y Hy) in Hyv. discriminate.
    + rewrite IH. split.
      * intros [(x & Hx & Hxv) Hub]. split.
        -- exists x. split; [by right|done].
        -- intros y u [<-|Hy] Hyu; [congruence|by apply (Hub y)].
      * intros [(x & [<-|Hx] & Hxv) Hub]; [congruence|]. split.
        -- by exists x.
        -- intros y u Hy. apply Hub. by right.
    + split; [done|].
      pose proof (proj1 (select_max_rectime_none rows) Hm) as Hnone.
      intros [(x & [<-|Hx] & Hxv) _]; [congruence|].
      rewrite (Hnone x Hx) in Hxv. discriminate.
Qed.

(** C9: reading the watermark of [table] with the cache enabled returns
    the cached timestamp when the cache has an entry, leaving the cache
    as it is; without an entry it returns the answer of
    [SELECT MAX(RECTIME)] over the rows of the destination when that is
    not NULL, and stores it in the cache; and it returns
    [datetime(1900, 1, 1)] when the answer is NULL, storing nothing. *)
Theorem watermark_read_cases (now : datetime) (table : string)
        (c : cache_dict) (rows : list row) :
  let q := QueryRow (Some [select_max_rectime rows]) in
  let '(t, _, c') := get_last_sync_time_async now q table true c in
  (forall e, c !! table = Some e -> t = rectime e /\ c' = c)
  /\ (c !! table = None ->
      forall v, greatest_rectime v rows ->
                t = v /\ c' = <[table := mkEntry v now]> c)
  /\ (c !! table = None ->
      (forall r, In r rows -> RECTIME r = None) ->
      t = EPOCH_1900 /\ c' = c).
Proof.
  unfold get_last_sync_time_async, get_cached_rectime, set_cached_rectime.
  simpl. destruct (c !! table) as [e|] eqn:Hc; simpl.
  - split; [|split]; [|done|done]. by intros e' [= <-].
  - destruct (select_max_rectime rows) as [m|] eqn:Hm.
    + split; [done|]. split.
      * intros _ v Hv. apply select_max_rectime_some in Hv.
        by simplify_eq.
      * intros _ Hnone. apply select_max_rectime_none in Hnone.
        congruence.
    + split; [done|]. split; [|done].
      intros _ v Hv. apply select_max_rectime_some in Hv. congruence.
Qed.

Lemma watermark_read_cases_witness :
  (get_last_sync_time_async 99 (QueryRow (Some [select_max_rectime
                                                  [row_at 5; row_at 7]]))
     "dbo.Dynamic_A" true ∅).1.1 = 7.
Proof.
  pose proof (watermark_read_cases 99 "dbo.Dynamic_A" ∅
                [row_at 5; row_at 7]) as H.
  cbv zeta in H.
  destruct (get_last_sync_time_async 99 _ "dbo.Dynamic_A" true ∅)
    as [[t l] c'].
  destruct H as (_ & H & _). simpl.
  apply (H (lookup_empty _) 7).
  split.
  - exists (row_at 7). simpl. auto.
  - intros r t' [<-|[<-|[]]] [= <-]; lia.
Defined.

(** C10: when the [MAX(RECTIME)] query (or its fetch) raises, the read
    still returns: its value is [datetime(1900, 1, 1)], the value it
    returns for a destination without timestamps, and the cache is left
    exactly as it was. *)
Theorem watermark_read_error (now : datetime) (table : string)
        (use_cache : bool) (c : cache_dict) :
  (use_cache = true -> c !! table = None) ->
  get_last_sync_time_async now QueryRaises table use_cache c
  = (EPOCH_1900, [LogSyncTimeError], c)
  /\ get_last_sync_time_async now
       (QueryRow (Some [select_max_rectime []])) table use_cache c
     = (EPOCH_1900, [], c).
Proof.
  intros Hmiss. unfold get_last_sync_time_async, get_cached_rectime.
  destruct use_cache; simpl; [rewrite Hmiss|]; done.
Qed.

Lemma watermark_read_error_witness :
  get_last_sync_time_async 99 QueryRaises "dbo.Dynamic_A" true ∅
  = (EPOCH_1900, [LogSyncTimeError], ∅).
Proof.
  apply (watermark_read_error 99 "dbo.Dynamic_A" true ∅).
  intros _. apply lookup_empty.
Defined.

End CacheFacts.

(** ** Staleness alerts *)

Module NotifyFacts.
Import Notify Props.

Lemma send_telegram_message_trace cfg env m force w :
  sent_notifications (send_telegram_message cfg env m force w)
  = sent_notifications w
  /\ submitted (send_telegram_message cfg env m force w)
     = submitted w ++ [m]
  /\ rectime_cache (send_telegram_message cfg env m force w)
     = rectime_cache w.
Proof.
  unfold send_telegram_message.
  destruct (telegram_configured cfg); simpl; [|done].
  destruct force; simpl.
  - destruct (env_post_ok env); done.
  - destruct (Gate.can_send _ _) as [[ok l] g]. simpl.
    destruct ok; simpl; [destruct (env_post_ok env)|]; done.
Qed.

Lemma alerts_for_app table l1 l2 :
  alerts_for table (l1 ++ l2)
  = (alerts_for table l1 + alerts_for table l2)%nat.
Proof. unfold alerts_for. by rewrite List.filter_app, length_app. Qed.

(** What one check does to the entry of its table and to the trace. *)
Lemma check_logic_cases cfg env table t w :
  let w' := _check_and_notify_logic cfg env table (Some t) w in
  let sn1 := observe table t (sent_notifications w) in
  (stale cfg (env_now env) t && negb (alert_sent table sn1) = true
   /\ sent_notifications w' = <[table := (true, t)]> sn1
   /\ submitted w'
      = submitted w ++ [mkAlert table (notification_timeout cfg / 3600)])
  \/ (stale cfg (env_now env) t && negb (alert_sent table sn1) = false
      /\ sent_notifications w' = sn1
      /\ submitted w' = submitted w).
Proof.
  simpl. unfold _check_and_notify_logic. simpl.
  destruct (stale cfg (env_now env) t
            && negb (alert_sent table
                       (observe table t (sent_notifications w)))) eqn:Hc.
  - left. split; [done|].
    pose proof (send_telegram_message_trace cfg env
                  (mkAlert table (notification_timeout cfg / 3600)) false
                  (set_sent (observe table t) w)) as (Hs & Hsub & _).
    simpl. rewrite Hs, Hsub. done.
  - right. done.
Qed.

Lemma observe_other table table' t sn :
  table' <> table -> observe table' t sn !! table = sn !! table.
Proof.
  intros Hne. unfold observe.
  destruct (sn !! table') as [[f r]|]; [destruct (r <? t)|];
    by rewrite ?lookup_insert_ne.
Qed.

Lemma observe_same table t sn :
  exists f r, observe table t sn !! table = Some (f, r) /\ t <= r
              /\ (forall f0 r0, sn !! table = Some (f0, r0) -> t <= r0 ->
                  (f, r) = (f0, r0))
              /\ (forall f0 r0, sn !! table = Some (f0, r0) -> r0 < t ->
                  (f, r) = (false, t))
              /\ (sn !! table = None -> (f, r) = (false, t)).
Proof.
  unfold observe. destruct (sn !! table) as [[f0 r0]|] eqn:Hsn.
  - destruct (Z.ltb_spec r0 t).
    + exists false, t. rewrite lookup_insert_eq.
      repeat split; try done; try lia.
      intros ? ? [= <- <-] ?. lia.
    + exists f0, r0. rewrite Hsn. repeat split; try done.
      * by intros ? ? [= <- <-].
      * intros ? ? [= <- <-] ?. lia.
  - exists false, t. rewrite lookup_insert_eq.
    repeat split; try done; lia.
Qed.

Lemma check_step_other cfg w c table :
  cc_table c <> table ->
  sent_notifications (check_step cfg w c) !! table
  = sent_notifications w !! table
  /\ alerts_for table (submitted (check_step cfg w c))
     = alerts_for table (submitted w).
Proof.
  intros Hne. unfold check_step. destruct (cc_time c) as [t|]; [|done].
  destruct (check_logic_cases cfg (cc_env c) (cc_table c) t w)
    as [(_ & -> & ->)|(_ & -> & ->)].
  - rewrite lookup_insert_ne by done. rewrite observe_other by done.
    split; [done|]. rewrite alerts_for_app. unfold alerts_for at 2. simpl.
    rewrite bool_decide_eq_false_2 by done. simpl. lia.
  - by rewrite observe_other.
Qed.

(** Once the alert for the timestamp [t] is out, further checks that
    observe [t] submit nothing. *)
Lemma run_checks_settled cfg table t calls : forall w r,
  (forall c, In c calls -> cc_table c = table -> cc_time c = Some t) ->
  sent_notifications w !! table = Some (true, r) -> t <= r ->
  alerts_for table (submitted (run_checks cfg calls w))
  = alerts_for table (submitted w).
Proof.
  induction calls as [|c calls IH]; intros w r Hcalls Hw Htr; [done|].
  simpl. destruct (decide (cc_table c = table)) as [Heq|Hne].
  - assert (sent_notifications (check_step cfg w c) !! table
            = Some (true, r)
            /\ submitted (check_step cfg w c) = submitted w) as [Hs Hsub].
    { unfold check_step. rewrite (Hcalls c (or_introl eq_refl) Heq), Heq.
      destruct (observe_same table t (sent_notifications w))
        as (f & r' & Hobs & _ & Hkeep & _).
      specialize (Hkeep true r Hw Htr). injection Hkeep as -> ->.
      destruct (check_logic_cases cfg (cc_env c) table t w)
        as [(Hc & _)|(_ & -> & ->)].
      - unfold alert_sent in Hc. rewrite Hobs in Hc.
        by rewrite andb_false_r in Hc.
      - done. }
    rewrite (IH _ r); [by rewrite Hsub| |done|done].
    intros c' Hc'. apply Hcalls. by right.
  - destruct (check_step_other cfg w c table Hne) as [Hs Hsub].
    rewrite (IH _ r); [done| |by rewrite Hs|done].
    intros c' Hc'. apply Hcalls. by right.
Qed.

Lemma run_checks_at_most_once cfg table t calls : forall w,
  (forall c, In c calls -> cc_table c = table -> cc_time c = Some t) ->
  (alerts_for table (submitted (run_checks cfg calls w))
   <= alerts_for table (submitted w) + 1)%nat.
Proof.
  induction calls as [|c calls IH]; intros w Hcalls; [simpl; lia|].
  assert (forall c', In c' calls -> cc_table c' = table ->
                     cc_time c' = Some t) as Hrest.
  { intros c' Hc'. apply Hcalls. by right. }
  simpl. destruct (decide (cc_table c = table)) as [Heq|Hne].
  - pose proof (Hcalls c (or_introl eq_refl) Heq) as Ht.
    unfold check_step at 1. rewrite Ht, Heq.
    destruct (check_logic_cases cfg (cc_env c) table t w)
      as [(_ & Hs & Hsub)|(_ & Hs & Hsub)].
    + rewrite (run_checks_settled cfg table t calls _ t Hrest);
        [|by rewrite Hs, lookup_insert_eq|lia].
      rewrite Hsub, alerts_for_app. unfold alerts_for at 2. simpl.
      rewrite bool_decide_eq_true_2 by done. simpl. lia.
    + specialize (IH (_check_and_notify_logic cfg (cc_env c) table
                        (Some t) w) Hrest).
      rewrite Hsub in IH. done.
  - destruct (check_step_other cfg w c table Hne) as [_ Hsub].
    specialize (IH (check_step cfg w c) Hrest). lia.
Qed.

Lemma run_checks_first_alert cfg table t calls : forall w,
  (forall c, In c calls -> cc_table c = table ->
             cc_time c = Some t /\ stale cfg (env_now (cc_env c)) t = true) ->
  sent_notifications w !! table = None ->
  (exists c, In c calls /\ cc_table c = table) ->
  alerts_for table (submitted (run_checks cfg calls w))
  = (alerts_for table (submitted w) + 1)%nat.
Proof.
  induction calls as [|c calls IH]; intros w Hcalls Hw (c0 & Hin & Hc0);
    [destruct Hin|].
  assert (forall c', In c' calls -> cc_table c' = table ->
                     cc_time c' = Some t) as Hrest.
  { intros c' Hc' Ht. apply Hcalls; [by right|done]. }
  simpl. destruct (decide (cc_table c = table)) as [Heq|Hne].
  - destruct (Hcalls c (or_introl eq_refl) Heq) as [Ht Hstale].
    unfold check_step at 1. rewrite Ht, Heq.
    destruct (observe_same table t (sent_notifications w))
      as (f & r & Hobs & _ & _ & _ & Hnew).
    specialize (Hnew Hw). injection Hnew as -> ->.
    destruct (check_logic_cases cfg (cc_env c) table t w)
      as [(_ & Hs & Hsub)|(Hc & _)].
    + rewrite (run_checks_settled cfg table t calls _ t Hrest);
        [|by rewrite Hs, lookup_insert_eq|lia].
      rewrite Hsub, alerts_for_app. unfold alerts_for at 2. simpl.
      by rewrite bool_decide_eq_true_2.
    + unfold alert_sent in Hc. rewrite Hobs, Hstale in Hc. done.
  - destruct (check_step_other cfg w c table Hne) as [Hs Hsub].
    rewrite (IH (check_step cfg w c)); [lia| |by rewrite Hs|].
    + intros c' Hc'. apply Hcalls. by right.
    + destruct Hin as [<-|Hin]; [done|]. by exists c0.
Qed.

(** C3: while the checks of a table keep observing the same upstream
    timestamp [t], at most one staleness alert about the table is
    submitted, whatever the state they start from and whatever other
    tables are checked in between; and it is exactly one when the table
    is checked for the first time and every check finds [t] older than
    the threshold.  When a check observes a timestamp later than the
    recorded one, the flag of the table is reset to false before the
    staleness test, so that the check ends with the flag set exactly when
    it found the new timestamp stale. *)
Theorem staleness_alert_once_per_period (cfg : config) (table : string)
        (t : datetime) (calls : list check_call) (w : world) :
  (forall c, In c calls -> cc_table c = table -> cc_time c = Some t) ->
  (alerts_for table (submitted (run_checks cfg calls w))
   <= alerts_for table (submitted w) + 1)%nat
  /\ (sent_notifications w !! table = None ->
      (exists c, In c calls /\ cc_table c = table) ->
      (forall c, In c calls -> cc_table c = table ->
                 stale cfg (env_now (cc_env c)) t = true) ->
      alerts_for table (submitted (run_checks cfg calls w))
      = (alerts_for table (submitted w) + 1)%nat)
  /\ (forall env flag recorded t',
        sent_notifications w !! table = Some (flag, recorded) ->
        recorded < t' ->
        observe table t' (sent_notifications w) !! table = Some (false, t')
        /\ sent_notifications
             (_check_and_notify_logic cfg env table (Some t') w) !! table
           = Some (stale cfg (env_now env) t', t')).
Proof.
  intros Hcalls. split; [|split].
  - by apply (run_checks_at_most_once cfg table t).
  - intros Hw Hex Hstale.
    apply (run_checks_first_alert cfg table t); try done.
    intros c Hc Ht. split; [by apply Hcalls|by apply Hstale].
  - intros env flag recorded t' Hw Hlt.
    destruct (observe_same table t' (sent_notifications w))
      as (f & r & Hobs & _ & _ & Hreset & _).
    specialize (Hreset flag recorded Hw Hlt). injection Hreset as -> ->.
    split; [done|].
    destruct (check_logic_cases cfg env table t' w)
      as [(Hc & -> & _)|(Hc & -> & _)].
    + rewrite lookup_insert_eq.
      apply andb_prop in Hc as [-> _]. done.
    + rewrite Hobs. unfold alert_sent in Hc. rewrite Hobs in Hc.
      simpl in Hc. rewrite andb_true_r in Hc. by rewrite Hc.
Qed.

Lemma staleness_alert_once_per_period_witness :
  alerts_for "Dynamic_A" (submitted (run_checks config_C calls_C world_0))
  = 1%nat.
Proof.
  pose proof (staleness_alert_once_per_period config_C "Dynamic_A"
                upstream_C calls_C world_0) as H.
  destruct H as (_ & H & _).
  - intros c Hc _. unfold calls_C in Hc. simpl in Hc.
    repeat destruct Hc as [<-|Hc]; try reflexivity. destruct Hc.
  - apply H.
    + apply lookup_empty.
    + exists (check_C 0). split; [by left|reflexivity].
    + intros c Hc _. unfold calls_C in Hc. simpl in Hc.
      repeat destruct Hc as [<-|Hc]; try reflexivity. destruct Hc.
Defined.

End NotifyFacts.

(** ** The current-day file throttle *)

Module Tc2Facts.
Import Tc2 Props.

(** The rule for a file whose date is today. *)
Lemma should_process_today c now st f w :
  last_db_record st = Some w ->
  should_process c now st f (date_of now) = true <->
  files_last_check st !! file_name f = None
  \/ (exists last_check,
        files_last_check st !! file_name f = Some last_check
        /\ seconds (file_check_interval c) <= now - last_check)
  \/ (exists last_check,
        files_last_check st !! file_name f = Some last_check
        /\ w < file_mtime f /\ seconds 300 <= now - last_check).
Proof.
  intros Hw. unfold should_process.
  rewrite bool_decide_eq_true_2 by done. rewrite Hw.
  destruct (files_last_check st !! file_name f) as [lc|] eqn:Hlc.
  - rewrite !Z.geb_leb.
    destruct (Z.leb_spec (seconds (file_check_interval c)) (now - lc));
      destruct (Z.ltb_spec w (file_mtime f));
      destruct (Z.leb_spec (seconds 300) (now - lc)); simpl;
      split; try done;
      try (intros _; right; left; exists lc; done);
      try (intros _; right; right; exists lc; done);
      intros [?|[(? & [= <-] & ?)|(? & [= <-] & ? & ?)]];
      try done; lia.
  - split; [by left|done].
Qed.

Lemma mark_checked_fold chk todo : forall st name,
  files_last_check (foldl (mark_checked chk) st todo) !! name
  = if bool_decide (Exists (fun f => file_name f = name) todo)
    then Some chk else files_last_check st !! name.
Proof.
  induction todo as [|f todo IH]; intros st name.
  - rewrite bool_decide_eq_false_2; [done|]. by intros ?%Exists_nil.
  - cbn [foldl]. rewrite IH. cbn [mark_checked files_last_check].
    destruct (decide (Exists (fun f => file_name f = name) todo)) as [He|He].
    + rewrite !bool_decide_eq_true_2; [done| |done]. by right.
    + rewrite (bool_decide_eq_false_2 _ He).
      destruct (decide (file_name f = name)) as [Hf|Hf].
      * rewrite bool_decide_eq_true_2 by (by left).
        by rewrite Hf, lookup_insert_eq.
      * rewrite lookup_insert_ne by done.
        rewrite bool_decide_eq_false_2; [done|].
        by intros [?|?]%Exists_cons.
Qed.

(** A scan stamps exactly the files it processes. *)
Lemma scan_last_check c now chk shutdown all_files st name :
  let '(processed, st') := scan c now chk shutdown all_files st in
  (files_last_check st' !! name <> files_last_check st !! name ->
   exists f, In f processed /\ file_name f = name)
  /\ (forall f, In f processed ->
                files_last_check st' !! file_name f = Some chk)
  /\ last_db_record st' = last_db_record st.
Proof.
  unfold scan. destruct shutdown; simpl.
  - split; [done|]. split; [intros ? []|done].
  - split; [|split].
    + rewrite mark_checked_fold. case_bool_decide as He; [|done].
      intros _. apply Exists_exists in He as (f & Hf & Hn).
      exists f. split; [|done]. by apply list_elem_of_In.
    + intros f Hf. rewrite mark_checked_fold.
      rewrite bool_decide_eq_true_2; [done|].
      apply Exists_exists. exists f. split; [|done].
      by apply list_elem_of_In.
    + generalize (files_to_process c now st all_files). intros todo.
      revert st. induction todo as [|f todo IH]; intros st; [done|].
      simpl. by rewrite IH.
Qed.

(** Scenario D, for any instant [T] of modification. *)
Lemma scenario_D_scans c T d delta w1 w2 w3 f :
  file_check_interval c = 3600 -> 0 <= days_to_search c ->
  name_date f = Some d -> file_mtime f = T ->
  date_of (T + seconds 60) = d -> date_of (T + seconds 120) = d ->
  date_of (T + seconds 420) = d ->
  0 <= delta <= seconds 60 -> w3 < T ->
  let s1 := scan c (T + seconds 60) (T + seconds 60 + delta) false [f]
                 (mkTc2State (Some w1) ∅) in
  let s2 := scan c (T + seconds 120) (T + seconds 120 + delta) false [f]
                 (entering w2 s1.2) in
  let s3 := scan c (T + seconds 420) (T + seconds 420 + delta) false [f]
                 (entering w3 s2.2) in
  s1.1 = [f] /\ s2.1 = [] /\ s3.1 = [f].
Proof.
  intros Hint Hdays Hd Hm H1 H2 H3 Hdelta Hw.
  assert (scan c (T + seconds 60) (T + seconds 60 + delta) false [f]
            (mkTc2State (Some w1) ∅)
          = ([f], mkTc2State (Some w1)
                    {[file_name f := T + seconds 60 + delta]})) as E1.
  { unfold scan, files_to_process, should_process. simpl.
    rewrite Hd, H1. rewrite bool_decide_eq_true_2 by done.
    rewrite lookup_empty.
    rewrite (proj2 (Z.leb_le (d - days_to_search c) d)) by lia.
    simpl. unfold mark_checked. simpl. by rewrite insert_empty. }
  assert (scan c (T + seconds 120) (T + seconds 120 + delta) false [f]
            (entering w2 (mkTc2State (Some w1)
                            {[file_name f := T + seconds 60 + delta]}))
          = ([], entering w2 (mkTc2State (Some w1)
                            {[file_name f := T + seconds 60 + delta]})))
    as E2.
  { unfold scan, files_to_process, should_process, entering. simpl.
    rewrite Hd, H2. rewrite bool_decide_eq_true_2 by done.
    rewrite lookup_singleton_eq. rewrite Hint.
    rewrite (proj2 (Z.leb_le (d - days_to_search c) d)) by lia.
    rewrite !Z.geb_leb.
    rewrite (proj2 (Z.leb_gt (seconds 3600) _)) by (unfold seconds in *; lia).
    rewrite (proj2 (Z.leb_gt (seconds 300) _)) by (unfold seconds in *; lia).
    by rewrite andb_false_r. }
  cbv zeta. rewrite E1. cbn [fst snd]. rewrite E2. cbn [fst snd].
  split; [done|]. split; [done|].
  unfold scan, files_to_process, should_process, entering. simpl.
  rewrite Hd, H3. rewrite bool_decide_eq_true_2 by done.
  rewrite lookup_singleton_eq. rewrite Hint, Hm.
  rewrite (proj2 (Z.leb_le (d - days_to_search c) d)) by lia.
  rewrite !Z.geb_leb.
  rewrite (proj2 (Z.leb_gt (seconds 3600) _)) by (unfold seconds in *; lia).
  rewrite (proj2 (Z.leb_le (seconds 300) _)) by (unfold seconds in *; lia).
  rewrite (proj2 (Z.ltb_lt w3 T)) by done. done.
Qed.

(** C5: with a watermark [w], a file dated today is selected exactly
    when it was never checked, or [file_check_interval] seconds have
    passed since its last check, or it was modified after [w] and 300
    seconds have passed since its last check, and the files kept for
    processing among those dated today are the ones so selected; a scan
    changes the last-check time of a file only if it processes that file,
    and stamps
    every file it processes; and in Scenario D (default interval of
    3600 s, the file stamped within a minute of each scan that processes
    it, the watermark of the third scan older than the modification) the
    scans one and seven minutes after the modification process the file
    while the scan two minutes after it skips it. *)
Theorem current_day_file_throttle (c : tc2_config) (now chk : datetime)
        (st : tc2_state) (f : file) (w : datetime) (shutdown : bool)
        (all_files : list file) :
  last_db_record st = Some w ->
  (should_process c now st f (date_of now) = true <->
   files_last_check st !! file_name f = None
   \/ (exists last_check,
         files_last_check st !! file_name f = Some last_check
         /\ seconds (file_check_interval c) <= now - last_check)
   \/ (exists last_check,
         files_last_check st !! file_name f = Some last_check
         /\ w < file_mtime f /\ seconds 300 <= now - last_check))
  /\ (0 <= days_to_search c -> name_date f = Some (date_of now) ->
      (In f (files_to_process c now st all_files) <->
       In f all_files
       /\ should_process c now st f (date_of now) = true))
  /\ (forall name,
        let '(processed, st') := scan c now chk shutdown all_files st in
        (files_last_check st' !! name <> files_last_check st !! name ->
         exists f', In f' processed /\ file_name f' = name)
        /\ (forall f', In f' processed ->
                       files_last_check st' !! file_name f' = Some chk))
  /\ (forall T d delta w1 w2 w3,
        file_check_interval c = 3600 -> 0 <= days_to_search c ->
        name_date f = Some d -> file_mtime f = T ->
        date_of (T + seconds 60) = d -> date_of (T + seconds 120) = d ->
        date_of (T + seconds 420) = d ->
        0 <= delta <= seconds 60 -> w3 < T ->
        let s1 := scan c (T + seconds 60) (T + seconds 60 + delta) false
                       [f] (mkTc2State (Some w1) ∅) in
        let s2 := scan c (T + seconds 120) (T + seconds 120 + delta) false
                       [f] (entering w2 s1.2) in
        let s3 := scan c (T + seconds 420) (T + seconds 420 + delta) false
                       [f] (entering w3 s2.2) in
        s1.1 = [f] /\ s2.1 = [] /\ s3.1 = [f]).
Proof.
  intros Hw. split; [|split; [|split]].
  - by apply should_process_today.
  - intros Hdays Hdate. unfold files_to_process.
    rewrite List.filter_In, Hdate.
    rewrite (proj2 (Z.leb_le (date_of now - days_to_search c)
                             (date_of now))) by lia.
    done.
  - intros name.
    pose proof (scan_last_check c now chk shutdown all_files st name) as H.
    destruct (scan c now chk shutdown all_files st) as [processed st'].
    destruct H as (H1 & H2 & _). done.
  - intros T d delta w1 w2 w3 ? ? ? ? ? ? ? ? ?.
    by apply (scenario_D_scans c T d delta w1 w2 w3 f).
Qed.

Lemma current_day_file_throttle_witness :
  let s1 := scan config_D (modified_D + seconds 60)
                 (modified_D + seconds 60 + seconds 2) false [file_D]
                 (mkTc2State (Some EPOCH_1900) ∅) in
  let s2 := scan config_D (modified_D + seconds 120)
                 (modified_D + seconds 120 + seconds 2) false [file_D]
                 (entering (modified_D - seconds 30) s1.2) in
  let s3 := scan config_D (modified_D + seconds 420)
                 (modified_D + seconds 420 + seconds 2) false [file_D]
                 (entering (modified_D - seconds 30) s2.2) in
  s1.1 = [file_D] /\ s2.1 = [] /\ s3.1 = [file_D].
Proof.
  pose proof (current_day_file_throttle config_D 0 0
                (mkTc2State (Some 0) ∅) file_D 0 false [] eq_refl)
    as (_ & _ & _ & H).
  apply (H modified_D 20445 (seconds 2));
    first [ reflexivity
          | vm_compute; done
          | vm_compute; split; discriminate ].
Defined.

End Tc2Facts.

(** ** Tables and queries *)

Module DbFacts.
Import Db Props.

Lemma executemany_ok rs : forall d d',
  executemany rs d = (Ok tt, d') ->
  committed d' = committed d /\ pending d' = pending d ++ rs.
Proof.
  induction rs as [|r rs IH]; intros d d' H; simpl in H.
  - unfold ret in H. simplify_eq. by rewrite app_nil_r.
  - unfold bind, execute_insert in H.
    destruct (has_key (row_key r) (visible d)); [done|].
    apply IH in H as [-> ->]. simpl. by rewrite <- app_assoc.
Qed.

Lemma executemany_raised rs : forall d d' e,
  executemany rs d = (Raised e, d') ->
  e = IntegrityError /\ committed d' = committed d.
Proof.
  induction rs as [|r rs IH]; intros d d' e H; simpl in H.
  - done.
  - unfold bind, execute_insert in H.
    destruct (has_key (row_key r) (visible d)); [by simplify_eq|].
    apply IH in H as [-> ->]. done.
Qed.

Lemma rectime_leb_total a b :
  rectime_leb a b = true \/ rectime_leb b a = true.
Proof.
  unfold rectime_leb. destruct (RECTIME a), (RECTIME b); auto.
  destruct (Z.leb_spec z z0), (Z.leb_spec z0 z); auto. lia.
Qed.

Lemma rectime_leb_trans a b c :
  rectime_leb a b = true -> rectime_leb b c = true ->
  rectime_leb a c = true.
Proof.
  unfold rectime_leb.
  destruct (RECTIME a), (RECTIME b), (RECTIME c); try done.
  rewrite !Z.leb_le. lia.
Qed.

Lemma insert_sorted_In r rs x :
  In x (insert_sorted r rs) <-> x = r \/ In x rs.
Proof.
  induction rs as [|r' rs IH]; simpl; [intuition congruence|].
  destruct (rectime_leb r r'); simpl; [intuition congruence|].
  rewrite IH. intuition congruence.
Qed.

Lemma insert_sorted_ascending r rs :
  ascending rs -> ascending (insert_sorted r rs).
Proof.
  unfold ascending. induction 1 as [|r' rs Hs IH Hall]; simpl.
  - repeat constructor.
  - destruct (rectime_leb r r') eqn:Hle.
    + constructor; [by constructor|].
      constructor; [done|].
      eapply Forall_impl; [exact Hall|].
      intros x Hx. by apply (rectime_leb_trans r r' x).
    + constructor; [done|].
      apply List.Forall_forall. intros x [->|Hx]%insert_sorted_In.
      * destruct (rectime_leb_total r r'); congruence.
      * by apply (proj1 (List.Forall_forall _ _) Hall).
Qed.

Lemma order_by_rectime_In rs x : In x (order_by_rectime rs) <-> In x rs.
Proof.
  induction rs as [|r rs IH]; simpl; [done|].
  rewrite insert_sorted_In, IH. intuition congruence.
Qed.

Lemma order_by_rectime_ascending rs : ascending (order_by_rectime rs).
Proof.
  induction rs as [|r rs IH]; simpl; [constructor|].
  by apply insert_sorted_ascending.
Qed.

(** The delta query of the DB-to-DB worker returns exactly the rows
    newer than the watermark, in ascending order. *)
Lemma select_delta_ordered_spec wm source :
  ascending (select_delta_ordered wm source)
  /\ (forall r, In r (select_delta_ordered wm source) <->
                In r source /\ newer_than wm r = true).
Proof.
  unfold select_delta_ordered. split.
  - apply order_by_rectime_ascending.
  - intros r. rewrite order_by_rectime_In. apply List.filter_In.
Qed.


End DbFacts.

(** ** The database workers *)

Module SyncFacts.
Import Cache Db Sync Props DbFacts.

Ltac run_monad :=
  unfold bind, ret, raise, guarded, on_world, on_dest, modify, try_except,
    set_cached.

Lemma notify_cache cfg env table lut w :
  rectime_cache (Notify.check_and_notify_async cfg env table lut w)
  = rectime_cache w.
Proof.
  unfold Notify.check_and_notify_async, Notify._check_and_notify_logic.
  destruct lut as [t|]; [|done].
  destruct (_ && _); [|done]. simpl.
  by destruct (NotifyFacts.send_telegram_message_trace cfg env
                 (mkAlert table (notification_timeout cfg / 3600)) false
                 (set_sent (Notify.observe table t) w)) as (_ & _ & ->).
Qed.

Lemma read_watermark_run env table use_cache s :
  exists s1,
    read_watermark env table use_cache s
    = (Ok (wm_read env table use_cache s), s1)
    /\ cache_of s1 = cache_read env table use_cache s
    /\ dest s1 = dest s.
Proof.
  unfold read_watermark, wm_read, cache_read, read_result, cache_of.
  destruct (get_last_sync_time_async _ _ _ _ _) as [[t l] c].
  eexists. split; [reflexivity|]. done.
Qed.

(** What a read with the cache enabled does to the cache. *)
Lemma read_result_cache env table s :
  let wm := wm_read env table true s in
  let c1 := cache_read env table true s in
  (forall e, c1 !! table = Some e -> rectime e = wm)
  /\ (forall k, k <> table -> c1 !! k = cache_of s !! k)
  /\ (forall e, cache_of s !! table = Some e -> c1 = cache_of s)
  /\ (cache_of s !! table = None ->
      c1 = cache_of s
      \/ (exists v, env_dest_read_fails env = false
                    /\ select_max_rectime (visible (dest s)) = Some v
                    /\ c1 = <[table := mkEntry v (env_now (env_sur env))]>
                              (cache_of s))).
Proof.
  unfold wm_read, cache_read, read_result, get_last_sync_time_async,
    get_cached_rectime, set_cached_rectime. simpl.
  destruct (cache_of s !! table) as [e|] eqn:Hc; simpl.
  - repeat split; try done. intros e' He'. congruence.
  - destruct (env_dest_read_fails env); simpl.
    + repeat split; try done; [congruence|by left].
    + destruct (select_max_rectime (visible (dest s))) as [v|] eqn:Hv; simpl.
      * repeat split; try done.
        -- intros e. rewrite lookup_insert_eq. by intros [= <-].
        -- intros k Hk. by rewrite lookup_insert_ne.
        -- intros _. right. by exists v.
      * repeat split; try done; [congruence|by left].
Qed.





Lemma world_cache_simpl :
  (forall f w, rectime_cache (set_cache f w) = f (rectime_cache w))
  /\ (forall f w, rectime_cache (set_status f w) = rectime_cache w)
  /\ (forall l w, rectime_cache (add_logs l w) = rectime_cache w)
  /\ (forall now n h a b w,
        rectime_cache (update_task_status now n h a b w) = rectime_cache w).
Proof. done. Qed.

Ltac cache_simpl :=
  unfold cache_of in *; cbn [glob dest];
  destruct world_cache_simpl as (Hsc1 & Hsc2 & Hsc3 & Hsc4);
  repeat first [ rewrite Hsc1 | rewrite Hsc2 | rewrite Hsc3 | rewrite Hsc4
               | rewrite notify_cache ];
  clear Hsc1 Hsc2 Hsc3 Hsc4.

(** The outcomes of the [try] body of a DB-to-DB iteration: nothing is
    inserted; or the insert of a non-empty delta raises; or the delta is
    inserted, committed, and the timestamp of its last row cached. *)
Lemma mssql_body_cases cfg env j s :
  let key := mssql_cache_key j in
  let wm := wm_read env key true s in
  let c1 := cache_read env key true s in
  let rows := select_delta_ordered wm (env_source env) in
  let '(r, s') := run_sync_mssql_body cfg env j s in
  (cache_of s' = c1 /\ dest s' = dest s /\ (r = Ok tt -> rows = []))
  \/ (rows <> [] /\ (exists e, r = Raised e) /\ cache_of s' = c1
      /\ committed (dest s') = committed (dest s))
  \/ (rows <> [] /\ r = Ok tt
      /\ dest s' = mkDb (visible (dest s) ++ rows) []
      /\ cache_of s'
         = match last rows ≫= RECTIME with
           | Some t => <[key := mkEntry t (env_now (env_sur env))]> c1
           | None => c1
           end).
Proof.
  intros key wm c1 rows.
  destruct (read_watermark_run env key true s) as (s1 & Hread & Hc1 & Hd1).
  unfold run_sync_mssql_body. fold key. run_monad. rewrite Hread.
  fold wm. fold rows. cbv beta iota.
  destruct (env_source_max_fails env).
  { left. done. }
  cbv beta iota.
  destruct (env_source_fetch_fails env).
  { left. cache_simpl. done. }
  cbv beta iota.
  destruct rows as [|r0 rows'] eqn:Hrows.
  { left. cache_simpl. done. }
  cbn [dest glob].
  destruct (env_dest_write_fails env).
  { right. left. cache_simpl. rewrite Hd1.
    split; [done|]. split; [by eexists|]. done. }
  destruct (executemany (r0 :: rows') (dest s1)) as [[[]|e] d'] eqn:Hex.
  - apply executemany_ok in Hex as [Hcom Hpen].
    cbv beta iota zeta. cbn [dest glob].
    assert (commit d' = mkDb (visible (dest s) ++ r0 :: rows') []) as Hd'.
    { unfold commit, visible. rewrite Hcom, Hpen, Hd1.
      by rewrite <- app_assoc. }
    destruct (last (r0 :: rows') ≫= RECTIME) as [t|];
      cbv beta iota; cbn [dest glob]; right; right;
      (split; [done|]); cache_simpl;
      rewrite Hd'; unfold set_cached_rectime; by rewrite Hc1.
  - apply executemany_raised in Hex as [-> Hcom].
    cbv beta iota zeta. cbn [dest glob]. right. left.
    cache_simpl. rewrite <- Hd1.
    split; [done|]. split; [by eexists|]. done.
Qed.

(** The handler of a worker leaves the cache alone and abandons the
    open transaction. *)
Lemma worker_handler_run env task e s :
  exists s', worker_handler env task e s = (Ok tt, s')
             /\ cache_of s' = cache_of s
             /\ dest s' = mkDb (committed (dest s)) [].
Proof.
  unfold worker_handler. run_monad. eexists. split; [reflexivity|].
  by cache_simpl.
Qed.

Lemma max_opt_assoc a b c :
  max_opt (max_opt a b) c = max_opt a (max_opt b c).
Proof.
  destruct a, b, c; simpl; try done. f_equal. lia.
Qed.

Lemma step_max_rectime_max_opt acc r :
  step_max_rectime acc r = max_opt acc (RECTIME r).
Proof.
  unfold step_max_rectime, max_opt.
  destruct (RECTIME r) as [t|], acc as [m|]; try done.
  destruct (Z.ltb_spec m t); f_equal; lia.
Qed.

(** The running maximum of the insert loop is the greatest timestamp of
    the batch. *)
Lemma batch_max_rectime_select rows :
  batch_max_rectime rows = select_max_rectime rows.
Proof.
  unfold batch_max_rectime.
  assert (forall acc, foldl step_max_rectime acc rows
                      = max_opt acc (select_max_rectime rows)) as H.
  { induction rows as [|r rows IH]; intros acc; simpl.
    - by destruct acc.
    - rewrite IH, step_max_rectime_max_opt. apply max_opt_assoc. }
  rewrite H. done.
Qed.

(** The fallback loop never raises; it keeps the committed rows and adds,
    in order, the rows of the batch that are accepted. *)
Lemma insert_each_run rs : forall n d,
  exists n' kept,
    insert_each rs n d = (Ok n', mkDb (committed d) (pending d ++ kept))
    /\ sublist kept rs.
Proof.
  induction rs as [|r rs IH]; intros n d; simpl.
  - exists n, []. rewrite app_nil_r. by destruct d.
  - run_monad. unfold execute_insert.
    destruct (has_key (row_key r) (visible d)).
    + destruct (IH n d) as (n' & kept & -> & Hsub).
      exists n', kept. split; [done|]. by constructor.
    + destruct (IH (S n) (mkDb (committed d) (pending d ++ [r])))
        as (n' & kept & -> & Hsub).
      exists n', (r :: kept). simpl. rewrite <- app_assoc.
      split; [done|]. by constructor.
Qed.

(** The outcomes of [insert_into_mssql_async] on a non-empty batch. *)
Lemma insert_into_mssql_cases env table data s :
  let batch := map process_row data in
  batch <> [] ->
  let '(r, s') := insert_into_mssql_async env table data s in
  (r = Raised OperationalError /\ cache_of s' = cache_of s
   /\ dest s' = dest s)
  \/ (r = Ok tt
      /\ (exists d', executemany batch (dest s) = (Ok tt, d'))
      /\ dest s' = mkDb (visible (dest s) ++ batch) []
      /\ cache_of s'
         = match batch_max_rectime batch with
           | Some t =>
               <[table := mkEntry t (env_now (env_sur env))]> (cache_of s)
           | None => cache_of s
           end)
  \/ (r = Ok tt
      /\ (exists d', executemany batch (dest s)
                     = (Raised IntegrityError, d'))
      /\ cache_of s' = cache_of s
      /\ exists kept, sublist kept batch
                      /\ dest s' = mkDb (committed (dest s) ++ kept) []).
Proof.
  intros batch Hne. unfold insert_into_mssql_async. fold batch.
  destruct batch as [|r0 batch'] eqn:Hb; [done|].
  run_monad. cbn [dest glob].
  destruct (env_dest_write_fails env).
  { left. done. }
  destruct (executemany (r0 :: batch') (dest s)) as [[[]|e] d'] eqn:Hex.
  - apply executemany_ok in Hex as Hok. destruct Hok as [Hcom Hpen].
    cbv beta iota zeta. cbn [dest glob].
    assert (commit d' = mkDb (visible (dest s) ++ r0 :: batch') []) as Hd'.
    { unfold commit, visible. rewrite Hcom, Hpen. by rewrite <- app_assoc. }
    destruct (batch_max_rectime (r0 :: batch')) as [t|];
      cbv beta iota; cbn [dest glob]; right; left;
      (split; [done|]); (split; [by eexists|]); cache_simpl;
      by rewrite Hd'.
  - apply executemany_raised in Hex as Hr. destruct Hr as [-> Hcom].
    cbv beta iota zeta. cbn [dest glob].
    destruct (insert_each_run (r0 :: batch') 0%nat (rollback d'))
      as (n' & kept & Hrun & Hsub).
    rewrite Hrun. cbv beta iota zeta. cbn [dest glob].
    destruct (0 <? n')%nat; cbv beta iota zeta; cbn [dest glob];
      right; right; (split; [done|]); (split; [by eexists|]);
      (split; [by cache_simpl|]); exists kept; (split; [done|]);
      unfold commit, visible; simpl; by rewrite Hcom.
Qed.

(** The outcomes of the [try] body of a Firebird iteration. *)
Lemma firebird_body_cases cfg env j s :
  let key := mssql_table j in
  let wm := wm_read env key true s in
  let c1 := cache_read env key true s in
  let data := default [] (get_firebird_data env wm j) in
  let batch := map process_row data in
  let '(r, s') := run_sync_firebird_body cfg env j s in
  (batch = [] /\ r = Ok tt /\ cache_of s' = c1 /\ dest s' = dest s)
  \/ (batch <> [] /\ r = Raised OperationalError /\ cache_of s' = c1
      /\ dest s' = dest s)
  \/ (batch <> [] /\ r = Ok tt
      /\ (exists d', executemany batch (dest s) = (Ok tt, d'))
      /\ dest s' = mkDb (visible (dest s) ++ batch) []
      /\ cache_of s'
         = match batch_max_rectime batch with
           | Some t => <[key := mkEntry t (env_now (env_sur env))]> c1
           | None => c1
           end)
  \/ (batch <> [] /\ r = Ok tt
      /\ (exists d', executemany batch (dest s)
                     = (Raised IntegrityError, d'))
      /\ cache_of s' = c1
      /\ exists kept, sublist kept batch
                      /\ dest s' = mkDb (committed (dest s) ++ kept) []).
Proof.
  intros key wm c1 data batch.
  destruct (read_watermark_run env key true s) as (s1 & Hread & Hc1 & Hd1).
  unfold run_sync_firebird_body. fold key.
  unfold bind at 1. rewrite Hread. fold wm.
  unfold bind at 1. unfold on_world at 1, modify at 1.
  set (s2 := mkSys (Notify.check_and_notify_async cfg (env_sur env) key
                      (Some wm) (glob s1)) (dest s1)).
  assert (cache_of s2 = c1) as Hc2.
  { unfold s2. cache_simpl. done. }
  assert (dest s2 = dest s) as Hd2 by done.
  unfold bind at 1.
  assert (batch = map process_row data) as Hbatch by done.
  unfold data in Hbatch. clearbody batch. clear data.
  destruct (get_firebird_data env wm j) as [[|r0 data']|] eqn:Hdata.
  - left. subst batch. run_monad. cbn [dest glob]. by cache_simpl.
  - pose proof (insert_into_mssql_cases env key (r0 :: data') s2) as Hins.
    cbv zeta in Hins.
    assert (batch = map process_row (r0 :: data')) as Hb2 by done.
    rewrite <- Hb2 in Hins.
    specialize (Hins ltac:(by subst batch)).
    destruct (insert_into_mssql_async env key (r0 :: data') s2) as [r s3].
    rewrite Hc2, Hd2 in Hins.
    destruct Hins as [(-> & Hc & Hd)|[(-> & Hex & Hd & Hc)
                     |(-> & Hex & Hc & Hk)]].
    + right. left. split; [by subst batch|]. done.
    + right. right. left. run_monad. cbn [dest glob].
      split; [by subst batch|]. split; [done|]. split; [done|].
      split; [done|]. cache_simpl. done.
    + right. right. right. run_monad. cbn [dest glob].
      split; [by subst batch|]. split; [done|]. split; [done|].
      split; [by cache_simpl|]. done.
  - left. subst batch. run_monad. cbn [dest glob]. by cache_simpl.
Qed.

(** A cycle is its body followed, when the body raises, by the handler;
    the handler leaves the cache as the body left it. *)
Lemma mssql_cycle_cache cfg env j s :
  cache_of (run_sync_mssql_cycle cfg env j s).2
  = cache_of (run_sync_mssql_body cfg env j s).2.
Proof.
  unfold run_sync_mssql_cycle, try_except.
  destruct (run_sync_mssql_body cfg env j s) as [[[]|e] s1]; [done|].
  destruct (worker_handler_run env (mssql_task_name j) e s1)
    as (s2 & -> & Hc & _). done.
Qed.

Lemma firebird_cycle_cache cfg env j s :
  cache_of (run_sync_firebird_cycle cfg env j s).2
  = cache_of (run_sync_firebird_body cfg env j s).2.
Proof.
  unfold run_sync_firebird_cycle, try_except.
  destruct (run_sync_firebird_body cfg env j s) as [[[]|e] s1]; [done|].
  destruct (worker_handler_run env (firebird_task_name j) e s1)
    as (s2 & -> & Hc & _). done.
Qed.









(** C2 fails on the code: in Scenario B the DB-to-DB worker's bare
    [executemany] raises the integrity error, the worker's handler marks
    the task unhealthy and drops the transaction, the destination gains
    no row and the watermark stays at 00:00:00.  The rollback and the
    row-by-row retry exist only in [insert_into_mssql_async], used by the
    Firebird worker, which on the same input adds the two missing rows
    but leaves the cached watermark where it was. *)
Theorem scenario_B_db_to_db_worker_fails :
  let key := mssql_cache_key job_A in
  let s' := (run_sync_mssql_cycle config_C env_A job_A sys_B).2 in
  let s'' := (insert_into_mssql_async env_A key source_A sys_B).2 in
  (run_sync_mssql_body config_C env_A job_A sys_B).1
  = Raised IntegrityError
  /\ dest s' = dest sys_B
  /\ watermark_of key s' = Some (t_2025 0)
  /\ task_status (glob s') !! mssql_task_name job_A
     = Some (mkStatus false None (Some IntegrityError) (t_2025 20))
  /\ (insert_into_mssql_async env_A key source_A sys_B).1 = Ok tt
  /\ committed (dest s'')
     = [row_at (t_2025 10); process_row (row_at (t_2025 5));
        process_row (row_at (t_2025 15))]
  /\ watermark_of key s'' = Some (t_2025 0).
Proof. vm_compute. repeat split. Qed.

(** A cycle of the DB-to-DB worker that fetches nothing writes the cache
    only through its watermark read. *)
Lemma mssql_idle_cycle_cache cfg env j s :
  select_delta_ordered (wm_read env (mssql_cache_key j) true s)
                       (env_source env) = [] ->
  cache_of (run_sync_mssql_cycle cfg env j s).2
  = cache_read env (mssql_cache_key j) true s.
Proof.
  intros Hrows. rewrite mssql_cycle_cache.
  pose proof (mssql_body_cases cfg env j s) as H. cbv zeta in H.
  destruct (run_sync_mssql_body cfg env j s) as [r s']. simpl.
  destruct H as [(-> & _)|[(Hne & _)|(Hne & _)]]; done.
Qed.

Lemma firebird_idle_cycle_cache cfg env j s :
  default [] (get_firebird_data env (wm_read env (mssql_table j) true s) j)
  = [] ->
  cache_of (run_sync_firebird_cycle cfg env j s).2
  = cache_read env (mssql_table j) true s.
Proof.
  intros Hrows. rewrite firebird_cycle_cache.
  pose proof (firebird_body_cases cfg env j s) as H. cbv zeta in H.
  rewrite Hrows in H.
  destruct (run_sync_firebird_body cfg env j s) as [r s']. simpl.
  destruct H as [(_ & _ & -> & _)|[(Hne & _)|[(Hne & _)|(Hne & _)]]]; done.
Qed.

(** What the cache holds after a read that found it as [c]. *)
Lemma idle_cache_cases env table s :
  let c1 := cache_read env table true s in
  (forall e, cache_of s !! table = Some e -> c1 = cache_of s)
  /\ (cache_of s !! table = None ->
      c1 = cache_of s
      \/ exists v, greatest_rectime v (visible (dest s))
                   /\ c1 = <[table := mkEntry v (env_now (env_sur env))]>
                             (cache_of s)).
Proof.
  destruct (read_result_cache env table s) as (_ & _ & Hhit & Hmiss).
  split; [done|]. intros Hnone.
  destruct (Hmiss Hnone) as [->|(v & _ & Hv & ->)]; [by left|].
  right. exists v. split; [|done].
  by apply CacheFacts.select_max_rectime_some.
Qed.

(** A read that bypasses the cache depends on the destination only. *)
Lemma wm_read_bypass env table s s' :
  dest s' = dest s ->
  wm_read env table false s' = wm_read env table false s.
Proof.
  intros Hd. unfold wm_read, read_result, get_last_sync_time_async.
  rewrite Hd. simpl.
  destruct (env_dest_read_fails env); [done|]. simpl.
  by destruct (select_max_rectime (visible (dest s))).
Qed.

Lemma tc2_adopt_run env c t st s :
  exists s', Tc2.adopt env c t st s
             = (Ok (Tc2.mkTc2State (Some t) (Tc2.files_last_check st)), s')
             /\ dest s' = dest s.
Proof. unfold Tc2.adopt. run_monad. by eexists. Qed.

(** Either block of the file worker that refreshes the watermark leaves
    it at the greater of its value and the destination's answer. *)
Lemma tc2_periodic_refresh_run env c st s l :
  Tc2.last_db_record st = Some l ->
  exists st' s',
    Tc2.periodic_refresh env c st s = (Ok st', s')
    /\ Tc2.last_db_record st'
       = Some (Z.max l (wm_read env (Tc2.tc2_target_table c) false s))
    /\ Tc2.files_last_check st' = Tc2.files_last_check st
    /\ dest s' = dest s.
Proof.
  intros Hl. unfold Tc2.periodic_refresh. unfold bind.
  destruct (read_watermark_run env (Tc2.tc2_target_table c) false s)
    as (s1 & -> & _ & Hd1).
  set (d := wm_read env (Tc2.tc2_target_table c) false s).
  rewrite Hl. case_bool_decide as Heq.
  - injection Heq as Heq. exists st, s1. unfold ret.
    split; [done|]. split; [|done]. rewrite Hl. f_equal. lia.
  - destruct (Z.ltb_spec l d).
    + destruct (tc2_adopt_run env c d st s1) as (s2 & -> & Hd2).
      do 2 eexists. split; [done|]. simpl.
      split; [f_equal; lia|]. split; [done|congruence].
    + exists st, s1. unfold ret.
      split; [done|]. split; [|done]. rewrite Hl. f_equal. lia.
Qed.

Lemma tc2_update_after_files_run env c max_processed_time st s l :
  Tc2.last_db_record st = Some l ->
  exists st' s' l',
    Tc2.update_after_files env c max_processed_time st s = (Ok st', s')
    /\ Tc2.last_db_record st' = Some l'
    /\ (l' = l
        \/ l' = Z.max l (wm_read env (Tc2.tc2_target_table c) false s))
    /\ Tc2.files_last_check st' = Tc2.files_last_check st
    /\ dest s' = dest s.
Proof.
  intros Hl. unfold Tc2.update_after_files.
  destruct max_processed_time as [m|].
  - unfold bind.
    destruct (read_watermark_run env (Tc2.tc2_target_table c) false s)
      as (s1 & -> & _ & Hd1).
    set (d := wm_read env (Tc2.tc2_target_table c) false s).
    rewrite Hl. destruct (Z.ltb_spec l d).
    + destruct (tc2_adopt_run env c d st s1) as (s2 & -> & Hd2).
      exists (Tc2.mkTc2State (Some d) (Tc2.files_last_check st)), s2, d.
      split; [done|]. split; [done|]. split; [right; lia|].
      split; [done|congruence].
    + exists st, s1, l. unfold ret. split; [done|]. split; [done|].
      split; [by left|]. done.
  - exists st, s, l. unfold ret. split; [done|]. split; [done|].
    split; [by left|]. done.
Qed.

(** The end of an iteration of the file worker: its watermark becomes
    the greater of what it was and what the destination now answers. *)
Lemma tc2_finish_cycle_run env c max_processed_time st s l :
  Tc2.last_db_record st = Some l ->
  exists st' s',
    Tc2.finish_cycle env c max_processed_time st s = (Ok st', s')
    /\ Tc2.last_db_record st'
       = Some (Z.max l (wm_read env (Tc2.tc2_target_table c) false s))
    /\ Tc2.files_last_check st' = Tc2.files_last_check st
    /\ dest s' = dest s.
Proof.
  intros Hl. unfold Tc2.finish_cycle. unfold bind at 1.
  destruct (tc2_update_after_files_run env c max_processed_time st s l Hl)
    as (st1 & s1 & l1 & -> & Hl1 & Hcases & Hf1 & Hd1).
  unfold bind at 1.
  destruct (tc2_periodic_refresh_run env c st1 s1 l1 Hl1)
    as (st2 & s2 & -> & Hl2 & Hf2 & Hd2).
  run_monad. do 2 eexists. split; [reflexivity|].
  rewrite (wm_read_bypass env _ s s1 Hd1) in Hl2.
  split; [|split; [congruence|simpl; congruence]].
  rewrite Hl2. f_equal. destruct Hcases as [->| ->]; lia.
Qed.

(** C6, as stated, fails: on a first cycle the cache has no entry for the
    destination; the watermark read fills it with the destination's
    [MAX(RECTIME)] although the cycle then fetches no row. *)
Lemma idle_first_cycle_fills_cache :
  let key := mssql_cache_key job_A in
  select_delta_ordered (wm_read env_idle key true sys_fresh)
                       (env_source env_idle) = []
  /\ cache_of sys_fresh !! key = None
  /\ cache_of (run_sync_mssql_cycle config_C env_idle job_A sys_fresh).2
       !! key
     = Some (mkEntry (t_2025 10) (t_2025 20)).
Proof. vm_compute. repeat split. Qed.

(** C6 (amended): a cycle of a database worker that fetches no row leaves
    the whole cache unchanged when the cache already holds a watermark
    for its destination; when it holds none, the cycle either leaves the
    cache unchanged or adds, through its own watermark read, an entry
    holding the greatest [RECTIME] of the destination.  The file worker
    ends every iteration by asking the destination again, and its
    watermark becomes the greater of its value and the answer. *)
Theorem idle_cycle_keeps_watermark :
  (forall cfg env j s,
     let key := mssql_cache_key j in
     let c' := cache_of (run_sync_mssql_cycle cfg env j s).2 in
     select_delta_ordered (wm_read env key true s) (env_source env) = [] ->
     (forall e, cache_of s !! key = Some e -> c' = cache_of s)
     /\ (cache_of s !! key = None ->
         c' = cache_of s
         \/ exists v, greatest_rectime v (visible (dest s))
                      /\ c' = <[key := mkEntry v (env_now (env_sur env))]>
                                (cache_of s)))
  /\ (forall cfg env j s,
        let key := mssql_table j in
        let c' := cache_of (run_sync_firebird_cycle cfg env j s).2 in
        default [] (get_firebird_data env (wm_read env key true s) j) = [] ->
        (forall e, cache_of s !! key = Some e -> c' = cache_of s)
        /\ (cache_of s !! key = None ->
            c' = cache_of s
            \/ exists v, greatest_rectime v (visible (dest s))
                         /\ c' = <[key := mkEntry v (env_now (env_sur env))]>
                                   (cache_of s)))
  /\ (forall env c max_processed_time st s l,
        Tc2.last_db_record st = Some l ->
        exists st' s',
          Tc2.finish_cycle env c max_processed_time st s = (Ok st', s')
          /\ Tc2.last_db_record st'
             = Some (Z.max l (wm_read env (Tc2.tc2_target_table c)
                                false s)))
  /\ (exists st' s',
        Tc2.finish_cycle env_idle config_D (Some (t_2025 5)) state_tc2
                         sys_fresh = (Ok st', s')
        /\ Tc2.last_db_record st' = Some (t_2025 10)
        /\ watermark_of (Tc2.tc2_target_table config_D) s'
           = Some (t_2025 10)).
Proof.
  split; [|split; [|split]].
  - intros cfg env j s key c' Hrows. unfold c'.
    rewrite (mssql_idle_cycle_cache cfg env j s Hrows).
    apply idle_cache_cases.
  - intros cfg env j s key c' Hrows. unfold c'.
    rewrite (firebird_idle_cycle_cache cfg env j s Hrows).
    apply idle_cache_cases.
  - intros env c mpt st s l Hl.
    destruct (tc2_finish_cycle_run env c mpt st s l Hl)
      as (st' & s' & H1 & H2 & _).
    by exists st', s'.
  - do 2 eexists. split; [vm_compute; reflexivity|]. by vm_compute.
Qed.

Lemma idle_cycle_keeps_watermark_witness :
  cache_of (run_sync_mssql_cycle config_C env_idle job_A sys_caught_up).2
  = cache_of sys_caught_up.
Proof.
  apply (proj1 (proj1 idle_cycle_keeps_watermark config_C env_idle job_A
                  sys_caught_up eq_refl)
               (mkEntry (t_2025 10) (t_2025 10))).
  reflexivity.
Defined.

(** C7, as stated, fails: the delta query of the Firebird worker has no
    ORDER BY; when the scan of the source returns the row stamped
    00:00:15 before the row stamped 00:00:05, the worker inserts them in
    that order. *)
Lemma firebird_inserts_in_scan_order :
  let s' := (run_sync_firebird_cycle config_C env_unordered job_A_firebird
               sys_A).2 in
  (run_sync_firebird_body config_C env_unordered job_A_firebird sys_A).1
  = Ok tt
  /\ committed (dest s')
     = [process_row (row_at (t_2025 15)); process_row (row_at (t_2025 5))]
  /\ ~ ascending (committed (dest s')).
Proof.
  split; [by vm_compute|]. split; [by vm_compute|].
  intros Hasc.
  assert (committed
            (dest (run_sync_firebird_cycle config_C env_unordered
                     job_A_firebird sys_A).2)
          = [process_row (row_at (t_2025 15));
             process_row (row_at (t_2025 5))]) as E by (by vm_compute).
  rewrite E in Hasc. unfold ascending in Hasc.
  inversion Hasc as [|? ? _ Hall]; subst.
  inversion Hall as [|? ? Hle _]; subst.
  vm_compute in Hle. discriminate.
Qed.

(** C7 (amended): a cycle of the DB-to-DB worker that ends without an
    exception appends to the destination exactly the source rows newer
    than the watermark, in ascending order of [RECTIME].  A cycle of the
    Firebird worker inserts rows in the order in which the scan of the
    source returned them: what it adds is, in order, a sublist of the
    fetched rows, themselves in scan order, and all of them when the
    batch insert is accepted. *)
Theorem insert_order_per_worker :
  (forall cfg env j s,
     let wm := wm_read env (mssql_cache_key j) true s in
     let batch := select_delta_ordered wm (env_source env) in
     let '(r, s') := run_sync_mssql_body cfg env j s in
     r = Ok tt ->
     visible (dest s') = visible (dest s) ++ batch
     /\ ascending batch
     /\ (forall x, In x batch <->
                   In x (env_source env) /\ newer_than wm x = true))
  /\ (forall cfg env j s,
        let wm := wm_read env (mssql_table j) true s in
        let data := default [] (get_firebird_data env wm j) in
        let '(r, s') := run_sync_firebird_body cfg env j s in
        r = Ok tt -> pending (dest s) = [] ->
        sublist data (env_source env)
        /\ exists kept,
            sublist kept (map process_row data)
            /\ dest s' = mkDb (committed (dest s) ++ kept) []
            /\ ((exists d', executemany (map process_row data) (dest s)
                            = (Ok tt, d')) ->
                kept = map process_row data)).
Proof.
  split.
  - intros cfg env j s.
    pose proof (mssql_body_cases cfg env j s) as H. cbv zeta in H.
    cbv zeta. destruct (run_sync_mssql_body cfg env j s) as [r s'].
    intros ->.
    pose proof (select_delta_ordered_spec
                  (wm_read env (mssql_cache_key j) true s)
                  (env_source env)) as [Hasc Hin].
    split; [|done].
    destruct H as [(_ & Hd & Hrows)|[(_ & [e He] & _)|(_ & _ & Hd & _)]].
    + rewrite Hd, (Hrows eq_refl), app_nil_r. done.
    + done.
    + rewrite Hd. unfold visible. simpl. by rewrite app_nil_r.
  - intros cfg env j s.
    pose proof (firebird_body_cases cfg env j s) as H. cbv zeta in H.
    cbv zeta. destruct (run_sync_firebird_body cfg env j s) as [r s'].
    intros -> Hpen. split.
    { unfold get_firebird_data, select_delta_firebird.
      destruct (env_source_fetch_fails env); simpl.
      - apply sublist_nil_l.
      - clear. induction (env_source env) as [|x l IH]; simpl; [done|].
        destruct (_ && _); by constructor. }
    destruct H as [(Hb & _ & _ & Hd)|[(_ & Hr & _)
                  |[(_ & _ & _ & Hd & _)|(_ & _ & [d'' Hex] & _ & Hk)]]].
    + exists []. rewrite Hb. split; [done|]. split; [|done].
      rewrite Hd, app_nil_r. destruct (dest s). simpl in Hpen. by subst.
    + done.
    + eexists. split; [done|]. split; [|done].
      rewrite Hd. unfold visible. by rewrite Hpen, app_nil_r.
    + destruct Hk as (kept & Hsub & Hd). exists kept.
      split; [done|]. split; [done|]. intros [d' Hex']. congruence.
Qed.

Lemma insert_order_per_worker_witness :
  ascending (select_delta_ordered
               (wm_read env_unordered (mssql_cache_key job_A) true sys_A)
               (env_source env_unordered)).
Proof.
  pose proof (proj1 insert_order_per_worker config_C env_unordered job_A
                sys_A) as H.
  cbv zeta in H.
  destruct (run_sync_mssql_body config_C env_unordered job_A sys_A)
    as [r s'] eqn:E.
  vm_compute in E. injection E as <- <-.
  exact (proj1 (proj2 (H eq_refl))).
Defined.

End SyncFacts.

(** ** The health endpoint *)

Module HealthFacts.
Import Health Sync Props SyncFacts.

Lemma healthy_tasks_le ts : (healthy_tasks ts <= size ts)%nat.
Proof. apply map_subseteq_size, map_filter_subseteq. Qed.

Lemma healthy_tasks_all ts :
  healthy_tasks ts = size ts <->
  (forall k e, ts !! k = Some e -> healthy e = true).
Proof.
  unfold healthy_tasks. split.
  - intros Hsize k e He.
    assert (filter (fun kv : string * status_entry => healthy kv.2 = true) ts
            = ts) as Hf.
    { apply map_subseteq_size_eq; [apply map_filter_subseteq|lia]. }
    rewrite <- Hf in He.
    by apply map_lookup_filter_Some in He as [_ ?].
  - intros Hall. by rewrite map_filter_id.
Qed.

Lemma healthy_tasks_none ts :
  healthy_tasks ts = 0%nat <->
  (forall k e, ts !! k = Some e -> healthy e = false).
Proof.
  unfold healthy_tasks. rewrite map_size_empty_iff. split.
  - intros Hf k e He. destruct (healthy e) eqn:Hh; [|done].
    assert (filter (fun kv : string * status_entry => healthy kv.2 = true)
              ts !! k = Some e) as Hin.
    { by apply map_lookup_filter_Some. }
    rewrite Hf in Hin. by rewrite lookup_empty in Hin.
  - intros Hall. apply map_empty. intros k.
    apply map_lookup_filter_None. right. intros e He Hh. simpl in Hh.
    rewrite (Hall k e He) in Hh. done.
Qed.

Lemma health_status_table (shutdown : bool) (w : world) :
  let r := health shutdown w in
  let ts := task_status w in
  (status r = StStarting <-> ts = ∅)
  /\ (status r = StHealthy <->
      ts <> ∅ /\ forall k e, ts !! k = Some e -> healthy e = true)
  /\ (status r = StUnhealthy <->
      ts <> ∅ /\ forall k e, ts !! k = Some e -> healthy e = false)
  /\ (status r = StDegraded <->
      (exists k e, ts !! k = Some e /\ healthy e = true)
      /\ (exists k e, ts !! k = Some e /\ healthy e = false))
  /\ (http_status r = 200 <->
      exists k e, ts !! k = Some e /\ healthy e = true)
  /\ (http_status r = 200 \/ http_status r = 503).
Proof.
  cbv zeta. unfold health.
  pose proof (healthy_tasks_le (task_status w)) as Hle.
  pose proof (healthy_tasks_all (task_status w)) as Hall.
  pose proof (healthy_tasks_none (task_status w)) as Hnone.
  pose proof (map_size_empty_iff (task_status w)) as Hempty.
  assert ((exists k e, task_status w !! k = Some e /\ healthy e = true)
          <-> healthy_tasks (task_status w) <> 0%nat) as Hsome.
  { rewrite Hnone. split.
    - intros (k & e & He & Hh) Hf. rewrite (Hf k e He) in Hh. done.
    - intros Hnot. apply dec_stable. intros Hno. apply Hnot.
      intros k e He. destruct (healthy e) eqn:Hh; [|done].
      exfalso. apply Hno. by exists k, e. }
  assert ((exists k e, task_status w !! k = Some e /\ healthy e = false)
          <-> healthy_tasks (task_status w) <> size (task_status w))
    as Hbad.
  { rewrite Hall. split.
    - intros (k & e & He & Hh) Hf. rewrite (Hf k e He) in Hh. done.
    - intros Hnot. apply dec_stable. intros Hno. apply Hnot.
      intros k e He. destruct (healthy e) eqn:Hh; [done|].
      exfalso. apply Hno. by exists k, e. }
  rewrite Hsome, Hbad. rewrite <- Hall, <- Hnone, <- Hempty.
  generalize dependent (healthy_tasks (task_status w)). intros h.
  generalize (size (task_status w)). intros n. intros Hle _ _ _ _.
  destruct (Nat.eqb_spec n 0); [|destruct (Nat.eqb_spec h n);
    [|destruct (Nat.ltb_spec 0 h)]]; simpl;
    repeat split; intros; try discriminate; try lia;
    repeat match goal with H : _ /\ _ |- _ => destruct H end;
    try lia; try discriminate; auto.
Qed.

(** X1: the overall status read off the task registry.  The answer is
    'starting' exactly when no worker has reported yet, 'healthy' exactly
    when at least one has and all are healthy, 'unhealthy' exactly when
    at least one has and none is healthy, and 'degraded' exactly when
    some are healthy and some are not; the HTTP status is 200 exactly
    when some worker is healthy, and 503 otherwise. *)
Theorem health_status_cases (shutdown : bool) (w : world) :
  let r := health shutdown w in
  let ts := task_status w in
  (status r = StStarting <-> ts = ∅)
  /\ (status r = StHealthy <->
      ts <> ∅ /\ forall k e, ts !! k = Some e -> healthy e = true)
  /\ (status r = StUnhealthy <->
      ts <> ∅ /\ forall k e, ts !! k = Some e -> healthy e = false)
  /\ (status r = StDegraded <->
      (exists k e, ts !! k = Some e /\ healthy e = true)
      /\ (exists k e, ts !! k = Some e /\ healthy e = false))
  /\ (http_status r = 200 <->
      exists k e, ts !! k = Some e /\ healthy e = true)
  /\ (http_status r = 200 \/ http_status r = 503).
Proof. apply health_status_table. Qed.

End HealthFacts.

(** ** Workers and the task registry *)

Module StatusFacts.
Import Cache Db Sync Props DbFacts SyncFacts Health HealthFacts.

Lemma send_telegram_message_status cfg env m force w :
  task_status (Notify.send_telegram_message cfg env m force w)
  = task_status w.
Proof.
  unfold Notify.send_telegram_message.
  destruct (telegram_configured cfg); simpl; [|done].
  destruct force; simpl.
  - destruct (env_post_ok env); done.
  - destruct (Gate.can_send _ _) as [[ok l] g]. simpl.
    destruct ok; simpl; [destruct (env_post_ok env)|]; done.
Qed.

Lemma notify_status cfg env table lut w :
  task_status (Notify.check_and_notify_async cfg env table lut w)
  = task_status w.
Proof.
  unfold Notify.check_and_notify_async, Notify._check_and_notify_logic.
  destruct lut as [t|]; [|done].
  destruct (_ && _); [|done]. simpl.
  by rewrite send_telegram_message_status.
Qed.

Lemma read_watermark_status env table use_cache s :
  exists s1,
    read_watermark env table use_cache s
    = (Ok (wm_read env table use_cache s), s1)
    /\ task_status (glob s1) = task_status (glob s).
Proof.
  unfold read_watermark, wm_read, read_result, cache_of.
  destruct (get_last_sync_time_async _ _ _ _ _) as [[t l] c].
  eexists. split; [reflexivity|]. done.
Qed.

(** The body of a DB-to-DB iteration writes the registry only at its
    very end. *)
Ltac run_step :=
  run_monad; cbv beta iota zeta; cbn [glob dest fst snd].

Lemma mssql_body_status cfg env j s :
  let now := env_now (env_sur env) in
  let '(r, s') := run_sync_mssql_body cfg env j s in
  task_status (glob s')
  = match r with
    | Ok _ => <[mssql_task_name j := mkStatus true (Some now) None now]>
                (task_status (glob s))
    | Raised _ => task_status (glob s)
    end.
Proof.
  cbv zeta.
  destruct (read_watermark_status env (mssql_cache_key j) true s)
    as (s1 & Hread & Hs1).
  unfold run_sync_mssql_body. run_monad. rewrite Hread. cbv beta iota.
  destruct (env_source_max_fails env); run_step; [done|].
  destruct (env_source_fetch_fails env); run_step.
  { by rewrite notify_status. }
  destruct (select_delta_ordered _ _) as [|r0 rows']; run_step.
  { unfold update_task_status. cbn [task_status set_status].
    by rewrite notify_status, Hs1. }
  destruct (env_dest_write_fails env); run_step.
  { by rewrite notify_status. }
  destruct (executemany (r0 :: rows') (dest s1)) as [[[]|e] d']; run_step.
  - destruct (last (r0 :: rows') ≫= RECTIME) as [t|]; run_step;
      unfold update_task_status;
      cbn [task_status set_status set_cache add_logs];
      by rewrite notify_status, Hs1.
  - by rewrite notify_status.
Qed.

Lemma insert_into_mssql_status env table data s :
  task_status (glob (insert_into_mssql_async env table data s).2)
  = task_status (glob s).
Proof.
  unfold insert_into_mssql_async.
  destruct (map process_row data) as [|r0 batch'] eqn:Hb; [done|].
  run_step.
  destruct (env_dest_write_fails env); run_step; [done|].
  destruct (executemany (r0 :: batch') (dest s)) as [[[]|e] d'] eqn:Hex;
    run_step.
  - by destruct (batch_max_rectime (r0 :: batch')).
  - apply executemany_raised in Hex as [-> _]. run_step.
    destruct (insert_each_run (r0 :: batch') 0%nat (rollback d'))
      as (n' & kept & -> & _).
    run_step. by destruct (0 <? n')%nat.
Qed.

Lemma firebird_body_status cfg env j s :
  let now := env_now (env_sur env) in
  let '(r, s') := run_sync_firebird_body cfg env j s in
  task_status (glob s')
  = match r with
    | Ok _ => <[firebird_task_name j := mkStatus true (Some now) None now]>
                (task_status (glob s))
    | Raised _ => task_status (glob s)
    end.
Proof.
  cbv zeta.
  destruct (read_watermark_status env (mssql_table j) true s)
    as (s1 & Hread & Hs1).
  unfold run_sync_firebird_body.
  unfold bind at 1. rewrite Hread.
  unfold bind at 1. unfold on_world at 1, modify at 1.
  set (s2 := mkSys _ (dest s1)).
  assert (task_status (glob s2) = task_status (glob s)) as Hs2.
  { unfold s2. cbn [glob]. by rewrite notify_status. }
  clearbody s2. unfold bind at 1.
  destruct (get_firebird_data env _ j) as [[|r0 data']|].
  - run_step. unfold update_task_status. cbn [task_status set_status].
    by rewrite Hs2.
  - pose proof (insert_into_mssql_status env (mssql_table j)
                  (r0 :: data') s2) as Hins.
    destruct (insert_into_mssql_async env (mssql_table j) (r0 :: data') s2)
      as [[[]|e] s3]; cbn [fst snd] in Hins; run_step.
    + unfold update_task_status. cbn [task_status set_status].
      by rewrite Hins, Hs2.
    + by rewrite Hins, Hs2.
  - run_step. unfold update_task_status. cbn [task_status set_status].
    by rewrite Hs2.
Qed.

Lemma worker_handler_status env task e s :
  task_status (glob (worker_handler env task e s).2)
  = <[task := mkStatus false None (Some e) (env_now (env_sur env))]>
      (task_status (glob s)).
Proof. done. Qed.

(** X2: after an iteration of a database worker the registry holds, under
    the worker's task name, "healthy" with the instant of the iteration
    when the body ended normally and "unhealthy" with the exception when
    it raised; no other task's entry is touched.  Hence [/health] answers
    200 after a successful iteration and never 'healthy' or 'starting'
    after a failed one. *)
Theorem iteration_reports_to_registry :
  (forall cfg env j s,
     let now := env_now (env_sur env) in
     let r := (run_sync_mssql_body cfg env j s).1 in
     let s' := (run_sync_mssql_cycle cfg env j s).2 in
     task_status (glob s') !! mssql_task_name j
     = Some (match r with
             | Ok _ => mkStatus true (Some now) None now
             | Raised e => mkStatus false None (Some e) now
             end)
     /\ (forall k, k <> mssql_task_name j ->
                   task_status (glob s') !! k = task_status (glob s) !! k)
     /\ forall shutdown,
          match r with
          | Ok _ => http_status (health shutdown (glob s')) = 200
          | Raised _ =>
              status (health shutdown (glob s')) = StDegraded
              \/ status (health shutdown (glob s')) = StUnhealthy
          end)
  /\ (forall cfg env j s,
        let now := env_now (env_sur env) in
        let r := (run_sync_firebird_body cfg env j s).1 in
        let s' := (run_sync_firebird_cycle cfg env j s).2 in
        task_status (glob s') !! firebird_task_name j
        = Some (match r with
                | Ok _ => mkStatus true (Some now) None now
                | Raised e => mkStatus false None (Some e) now
                end)
        /\ (forall k, k <> firebird_task_name j ->
                      task_status (glob s') !! k
                      = task_status (glob s) !! k)
        /\ forall shutdown,
             match r with
             | Ok _ => http_status (health shutdown (glob s')) = 200
             | Raised _ =>
                 status (health shutdown (glob s')) = StDegraded
                 \/ status (health shutdown (glob s')) = StUnhealthy
             end).
Proof.
  assert (forall ts name (e : status_entry) shutdown w,
            task_status w = <[name := e]> ts ->
            (healthy e = true -> http_status (health shutdown w) = 200)
            /\ (healthy e = false ->
                status (health shutdown w) = StDegraded
                \/ status (health shutdown w) = StUnhealthy)) as Hhealth.
  { intros ts name e shutdown w Hw.
    pose proof (health_status_table shutdown w) as H. cbv zeta in H.
    destruct H as (Hst & Hh & Hu & Hd & Hhttp & _).
    assert (task_status w !! name = Some e) as He
      by (by rewrite Hw, lookup_insert_eq).
    split.
    - intros Hok. apply Hhttp. by exists name, e.
    - intros Hbad.
      destruct (status (health shutdown w)) eqn:E; auto.
      + pose proof (proj1 Hst eq_refl) as E'.
        rewrite E' in He. by rewrite lookup_empty in He.
      + pose proof (proj1 Hh eq_refl) as [_ Hall].
        rewrite (Hall name e He) in Hbad. done. }
  split.
  - intros cfg env j s. cbv zeta.
    pose proof (mssql_body_status cfg env j s) as Hb. cbv zeta in Hb.
    unfold run_sync_mssql_cycle, try_except.
    destruct (run_sync_mssql_body cfg env j s) as [[[]|e] s1]; cbn [fst snd].
    + rewrite Hb. split; [by rewrite lookup_insert_eq|].
      split; [by intros k Hk; rewrite lookup_insert_ne|].
      intros shutdown. by eapply Hhealth.
    + rewrite worker_handler_status, Hb.
      split; [by rewrite lookup_insert_eq|].
      split; [by intros k Hk; rewrite lookup_insert_ne|].
      intros shutdown.
      eapply Hhealth; [apply worker_handler_status|done].
  - intros cfg env j s. cbv zeta.
    pose proof (firebird_body_status cfg env j s) as Hb. cbv zeta in Hb.
    unfold run_sync_firebird_cycle, try_except.
    destruct (run_sync_firebird_body cfg env j s) as [[[]|e] s1];
      cbn [fst snd].
    + rewrite Hb. split; [by rewrite lookup_insert_eq|].
      split; [by intros k Hk; rewrite lookup_insert_ne|].
      intros shutdown. by eapply Hhealth.
    + rewrite worker_handler_status, Hb.
      split; [by rewrite lookup_insert_eq|].
      split; [by intros k Hk; rewrite lookup_insert_ne|].
      intros shutdown.
      eapply Hhealth; [apply worker_handler_status|done].
Qed.

End StatusFacts.

(* ================================================================== *)
(** ** The outer loop of the database workers *)

Module LoopFacts.
Import Sync Props SyncFacts Loop.

Lemma pow2_succ (k : nat) : 2 ^ Z.of_nat (S k) = 2 * 2 ^ Z.of_nat k.
Proof. rewrite Nat2Z.inj_succ, Z.pow_succ_r by lia. done. Qed.

Lemma pow2_pos (k : nat) : 1 <= 2 ^ Z.of_nat k.
Proof. pose proof (Z.pow_pos_nonneg 2 (Z.of_nat k)). lia. Qed.

(** The loop entered after [k] failures in a row follows the schedule
    and leaves [retry_delay] between 1 and 60. *)
Lemma worker_loop_schedule body name interval passes (k : nat) s :
  let r := worker_loop body name interval passes
             (Z.min (2 ^ Z.of_nat k) 60) s in
  backoff_schedule interval k (waits r)
  /\ 1 <= last_retry_delay r <= 60.
Proof.
  revert k s. induction passes as [|p passes IH]; intros k s.
  - cbn. pose proof (pow2_pos k). lia.
  - cbn [worker_loop].
    destruct (body (pass_env p) s) as [[[]|e] s1].
    + destruct (pass_shutdown p); cbn.
      * split; [done|lia].
      * destruct (IH 0%nat s1) as [Hs Hd]. cbn in Hs, Hd. done.
    + pose proof (pow2_pos k). pose proof (pow2_succ k) as Hk.
      destruct (pass_shutdown p); cbn [waits last_retry_delay
        backoff_schedule].
      * split; [split; [lia|done]|lia].
      * replace (Z.min (Z.min (2 ^ Z.of_nat k) 60 * 2) 60)
          with (Z.min (2 ^ Z.of_nat (S k)) 60) by lia.
        destruct (IH (S k)
                    (worker_handler (pass_env p) name e s1).2) as [Hs Hd].
        split; [split; [lia|done]|done].
Qed.

(** Every wait after a failure lasts between 1 and 60 seconds. *)
Lemma backoff_schedule_bounds interval k ws t :
  backoff_schedule interval k ws -> AfterFailure t ∈ ws -> 1 <= t <= 60.
Proof.
  revert k. induction ws as [|w ws IH]; intros k Hs Hin.
  - by apply elem_of_nil in Hin.
  - apply elem_of_cons in Hin as [<-|Hin].
    + cbn in Hs. destruct Hs as [-> _]. pose proof (pow2_pos k). lia.
    + destruct w; cbn in Hs; destruct Hs as [_ Hs]; eauto.
Qed.

(** One pass of the loop changes the state as one cycle does. *)
Lemma worker_loop_cons body name interval p passes rd s :
  let cycle env := try_except (body env) (worker_handler env name) in
  let s1 := (cycle (pass_env p) s).2 in
  exists w rd0 rd',
    worker_loop body name interval (p :: passes) rd s
    = if pass_shutdown p
      then mkLoopEnd [w] rd0 true s1
      else let r := worker_loop body name interval passes rd' s1 in
           mkLoopEnd (w :: waits r) (last_retry_delay r) (stopped r)
                     (final r).
Proof.
  cbv zeta. cbn [worker_loop]. unfold try_except.
  destruct (body (pass_env p) s) as [[[]|e] s1].
  - by exists (AfterSuccess interval), 1, 1.
  - by exists (AfterFailure (Z.min rd 60)), rd, (Z.min (rd * 2) 60).
Qed.

(** Passes that see no shutdown all run, and the loop goes on. *)
Lemma worker_loop_running body name interval pre rest rd s :
  Forall (fun p => pass_shutdown p = false) pre ->
  let cycle env := try_except (body env) (worker_handler env name) in
  exists rd',
    let r := worker_loop body name interval (pre ++ rest) rd s in
    let r' := worker_loop body name interval rest rd'
                (after_cycles cycle pre s) in
    stopped r = stopped r'
    /\ final r = final r'
    /\ length (waits r) = (length pre + length (waits r'))%nat.
Proof.
  cbv zeta. intros Hpre. revert rd s.
  induction Hpre as [|p pre Hp _ IH]; intros rd s.
  - exists rd. done.
  - destruct (worker_loop_cons body name interval p (pre ++ rest) rd s)
      as (w & rd0 & rd1 & E).
    cbv zeta in E. rewrite Hp in E.
    destruct (IH rd1 (try_except (body (pass_env p))
                        (worker_handler (pass_env p) name) s).2)
      as (rd' & H1 & H2 & H3).
    exists rd'. change ((p :: pre) ++ rest) with (p :: (pre ++ rest)).
    rewrite E. cbn [stopped final waits length after_cycles foldl].
    unfold after_cycles in *. rewrite H1, H2, H3. done.
Qed.


(** The loop stops at the first pass that sees the shutdown event: the
    passes before it and that pass run their cycle, no later pass does. *)
Lemma worker_loop_stops body name interval pre p post rd s :
  Forall (fun p => pass_shutdown p = false) pre ->
  pass_shutdown p = true ->
  let cycle env := try_except (body env) (worker_handler env name) in
  let r := worker_loop body name interval (pre ++ p :: post) rd s in
  stopped r = true
  /\ final r = after_cycles cycle (pre ++ [p]) s
  /\ length (waits r) = S (length pre).
Proof.
  cbv zeta. intros Hpre Hp.
  destruct (worker_loop_running body name interval pre (p :: post) rd s
              Hpre) as (rd' & H1 & H2 & H3).
  cbv zeta in H1, H2, H3. rewrite H1, H2, H3.
  destruct (worker_loop_cons body name interval p post rd'
              (after_cycles (fun env => try_except (body env)
                               (worker_handler env name)) pre s))
    as (w & rd0 & rd1 & E).
  cbv zeta in E. rewrite Hp in E. rewrite E.
  cbn [stopped final waits length].
  unfold after_cycles. rewrite foldl_app. cbn [foldl].
  split; [done|]. split; [done|lia].
Qed.




(** X3: the waits of a database worker follow the backoff schedule. *)
Theorem worker_backoff_schedule cfg interval passes s :
  (forall j,
     let r := run_sync_mssql_async cfg interval j false passes s in
     backoff_schedule interval 0 (waits r)
     /\ (forall t, AfterFailure t ∈ waits r -> 1 <= t <= 60)
     /\ 1 <= last_retry_delay r <= 60)
  /\ (forall j,
        let r := run_sync_firebird_async cfg interval j false passes s in
        backoff_schedule interval 0 (waits r)
        /\ (forall t, AfterFailure t ∈ waits r -> 1 <= t <= 60)
        /\ 1 <= last_retry_delay r <= 60).
Proof.
  split; intros j; cbv zeta.
  - unfold run_sync_mssql_async.
    destruct (worker_loop_schedule
                (fun env => run_sync_mssql_body cfg env j)
                (mssql_task_name j) interval passes 0 s) as [Hs Hd].
    cbn in Hs, Hd. split; [done|]. split; [|done].
    intros t. by apply (backoff_schedule_bounds interval 0%nat).
  - unfold run_sync_firebird_async.
    destruct (worker_loop_schedule
                (fun env => run_sync_firebird_body cfg env j)
                (firebird_task_name j) interval passes 0 s) as [Hs Hd].
    cbn in Hs, Hd. split; [done|]. split; [|done].
    intros t. by apply (backoff_schedule_bounds interval 0%nat).
Qed.

(** X4: a database worker stops at the first wait that sees the shutdown
    event.  The iterations up to and including that one run, none after
    it does, and a worker started with the event already set does
    nothing. *)
Theorem worker_stops_at_shutdown cfg interval pre p post s :
  Forall (fun p => pass_shutdown p = false) pre ->
  pass_shutdown p = true ->
  (forall j,
     let r := run_sync_mssql_async cfg interval j false
                (pre ++ p :: post) s in
     stopped r = true
     /\ final r = after_cycles (fun env => run_sync_mssql_cycle cfg env j)
                    (pre ++ [p]) s
     /\ length (waits r) = S (length pre))
  /\ (forall j,
        let r := run_sync_firebird_async cfg interval j false
                   (pre ++ p :: post) s in
        stopped r = true
        /\ final r
           = after_cycles (fun env => run_sync_firebird_cycle cfg env j)
               (pre ++ [p]) s
        /\ length (waits r) = S (length pre))
  /\ (forall j passes,
        let r := run_sync_mssql_async cfg interval j true passes s in
        stopped r = true /\ final r = s /\ waits r = [])
  /\ (forall j passes,
        let r := run_sync_firebird_async cfg interval j true passes s in
        stopped r = true /\ final r = s /\ waits r = []).
Proof.
  intros Hpre Hp. repeat split.
  - by apply worker_loop_stops.
  - by apply (worker_loop_stops
                (fun env => run_sync_mssql_body cfg env j)).
  - by apply worker_loop_stops.
  - by apply worker_loop_stops.
  - by apply (worker_loop_stops
                (fun env => run_sync_firebird_body cfg env j)).
  - by apply worker_loop_stops.
Qed.

Lemma worker_stops_at_shutdown_witness :
  let r := run_sync_mssql_async config_C 5 job_A false
             ([mkPass env_A false] ++ mkPass env_idle true
                :: [mkPass env_A false]) sys_A in
  stopped r = true
  /\ final r = after_cycles (fun env => run_sync_mssql_cycle config_C env job_A)
                 ([mkPass env_A false] ++ [mkPass env_idle true]) sys_A
  /\ length (waits r) = 2%nat.
Proof.
  refine (proj1 (worker_stops_at_shutdown config_C 5 [mkPass env_A false]
                   (mkPass env_idle true) [mkPass env_A false] sys_A
                   _ eq_refl) job_A).
  repeat constructor.
Defined.


End LoopFacts.

(* ================================================================== *)
(** ** Retrying with backoff *)

Module RetryFacts.
Import Retry.

(** What a run of the retry loop did, read off its end. *)
Lemma retry_loop_spec {A} max_retries max_delay
      (attempts : list (outcome A * bool)) retries delay :
  let r := retry_loop max_retries max_delay attempts retries delay in
  (calls r <= length attempts)%nat
  /\ (forall i, (S i < calls r)%nat ->
                exists e, attempts !! i = Some (Raised e, false))
  /\ match ended r with
     | Returned a =>
         (1 <= calls r)%nat
         /\ (exists sh, attempts !! pred (calls r) = Some (Ok a, sh))
         /\ length (delays r) = pred (calls r)
     | Reraised e =>
         (1 <= calls r)%nat
         /\ (exists sh, attempts !! pred (calls r) = Some (Raised e, sh))
         /\ length (delays r) = pred (calls r)
         /\ 0 < max_retries
         /\ (retries < max_retries ->
             retries + Z.of_nat (calls r) = max_retries)
     | Interrupted =>
         (1 <= calls r)%nat
         /\ (exists e, attempts !! pred (calls r) = Some (Raised e, true))
         /\ length (delays r) = calls r
     | StillTrying =>
         calls r = length attempts
         /\ length (delays r) = calls r
     end.
Proof.
  cbv zeta. revert retries delay.
  induction attempts as [|[[a|e] sh] attempts IH]; intros retries delay;
    cbn [retry_loop].
  - cbn. split; [lia|]. split; [intros; lia|done].
  - cbn. split; [lia|]. split; [intros; lia|]. split; [lia|].
    split; [by exists sh|done].
  - destruct ((0 <? max_retries) && (max_retries <=? retries + 1))
      eqn:Hc.
    + apply andb_true_iff in Hc as [H0 H1].
      apply Z.ltb_lt in H0. apply Z.leb_le in H1.
      cbn. split; [lia|]. split; [intros; lia|]. split; [lia|].
      split; [by exists sh|]. split; [done|]. split; [done|]. lia.
    + destruct sh.
      * cbn. split; [lia|]. split; [intros; lia|]. split; [lia|].
        split; [by exists e|done].
      * destruct (IH (retries + 1) (Z.min (delay * 2) max_delay))
          as (Hlen & Hpre & Hend).
        cbn [calls ended delays length]. split; [lia|]. split.
        { intros [|i] Hi; [by exists e|]. cbn. apply Hpre. lia. }
        destruct (ended (retry_loop max_retries max_delay attempts
                           (retries + 1) (Z.min (delay * 2) max_delay))).
        -- destruct Hend as (Hn & [sh Hl] & Hd).
           split; [lia|]. split; [|cbn; lia].
           exists sh. destruct (calls _); [lia|done].
        -- destruct Hend as (Hn & [sh Hl] & Hd & Hm & Hr).
           split; [lia|]. split.
           { exists sh. destruct (calls _); [lia|done]. }
           split; [cbn; lia|]. split; [done|]. intros _.
           apply andb_false_iff in Hc as [Hc|Hc].
           ++ apply Z.ltb_ge in Hc. lia.
           ++ apply Z.leb_gt in Hc. lia.
        -- destruct Hend as (Hn & [e' Hl] & Hd).
           split; [lia|]. split; [|cbn; lia].
           exists e'. destruct (calls _); [lia|done].
        -- destruct Hend as (Hn & Hd). split; cbn; lia.
Qed.

(** The delay doubles at every wait until it reaches the cap. *)
Lemma retry_loop_delays {A} max_retries max_delay base
      (attempts : list (outcome A * bool)) retries (k : nat) :
  0 <= max_delay ->
  forall i d,
    delays (retry_loop max_retries max_delay attempts retries
              (Z.min (base * 2 ^ Z.of_nat k) max_delay)) !! i = Some d ->
    d = Z.min (base * 2 ^ Z.of_nat (k + i)) max_delay.
Proof.
  intros Hmax. revert retries k.
  induction attempts as [|[[a|e] sh] attempts IH]; intros retries k i d;
    cbn [retry_loop]; [done|done|].
  destruct ((0 <? max_retries) && (max_retries <=? retries + 1));
    [done|].
  assert (Z.min (Z.min (base * 2 ^ Z.of_nat k) max_delay * 2) max_delay
          = Z.min (base * 2 ^ Z.of_nat (S k)) max_delay) as Hnext.
  { rewrite LoopFacts.pow2_succ.
    replace (base * (2 * 2 ^ Z.of_nat k))
      with (2 * (base * 2 ^ Z.of_nat k)) by ring.
    generalize (base * 2 ^ Z.of_nat k). intros P. lia. }
  destruct sh; cbn [delays].
  - destruct i as [|i]; cbn; [|done].
    intros [= <-]. by rewrite Nat.add_0_r.
  - destruct i as [|i]; cbn.
    + intros [= <-]. by rewrite Nat.add_0_r.
    + rewrite Hnext. intros Hd. apply IH in Hd.
      by replace (k + S i)%nat with (S k + i)%nat by lia.
Qed.

(** With a positive [max_retries] the function is called at most
    [max_retries - retries] more times. *)
Lemma retry_loop_calls_bound {A} max_retries max_delay
      (attempts : list (outcome A * bool)) retries delay :
  0 <= retries < max_retries ->
  retries
  + Z.of_nat (calls (retry_loop max_retries max_delay attempts retries
                       delay))
  <= max_retries.
Proof.
  revert retries delay.
  induction attempts as [|[[a|e] sh] attempts IH]; intros retries delay Hr;
    cbn [retry_loop]; [cbn; lia|cbn; lia|].
  destruct ((0 <? max_retries) && (max_retries <=? retries + 1)) eqn:Hc;
    [cbn; lia|].
  destruct sh; [cbn; lia|]. cbn [calls].
  apply andb_false_iff in Hc as [Hc|Hc].
  - apply Z.ltb_ge in Hc. lia.
  - apply Z.leb_gt in Hc.
    specialize (IH (retries + 1) (Z.min (delay * 2) max_delay)). lia.
Qed.

(** X6: how many times the retry helper calls its function, and how it
    ends. *)
Theorem retry_attempts A max_retries base_delay max_delay
        (attempts : list (outcome A * bool)) :
  let r := retry_with_backoff_async max_retries base_delay max_delay
             attempts in
  (calls r <= length attempts)%nat
  /\ (0 < max_retries -> Z.of_nat (calls r) <= max_retries)
  /\ (forall i, (S i < calls r)%nat ->
                exists e, attempts !! i = Some (Raised e, false))
  /\ (forall a, ended r = Returned a ->
                exists sh, attempts !! pred (calls r) = Some (Ok a, sh))
  /\ (forall e, ended r = Reraised e ->
                0 < max_retries
                /\ Z.of_nat (calls r) = max_retries
                /\ exists sh,
                     attempts !! pred (calls r) = Some (Raised e, sh))
  /\ (ended r = Interrupted ->
      exists e, attempts !! pred (calls r) = Some (Raised e, true))
  /\ (ended r = StillTrying -> calls r = length attempts)
  /\ (forall e, ended (connect_to_mssql_async attempts) <> Reraised e).
Proof.
  cbv zeta. unfold connect_to_mssql_async, retry_with_backoff_async.
  pose proof (retry_loop_spec max_retries max_delay attempts 0 base_delay)
    as (Hlen & Hpre & Hend).
  pose proof (retry_loop_spec 0 60 attempts 0 1) as (_ & _ & Hconn).
  split; [done|]. split.
  { intros Hm.
    pose proof (retry_loop_calls_bound max_retries max_delay attempts 0
                  base_delay). lia. }
  split; [done|].
  split.
  { intros a E. rewrite E in Hend. by destruct Hend as (_ & ? & _). }
  split.
  { intros e E. rewrite E in Hend.
    destruct Hend as (_ & Hl & _ & Hm & Hr). split; [done|].
    split; [lia|done]. }
  split.
  { intros E. rewrite E in Hend. by destruct Hend as (_ & ? & _). }
  split.
  { intros E. rewrite E in Hend. by destruct Hend as (? & _). }
  intros e E. rewrite E in Hconn. destruct Hconn as (_ & _ & _ & ? & _).
  lia.
Qed.

(** X7: the delay of the retry helper before its jitter starts at
    [base_delay], doubles at every wait and is capped by [max_delay]. *)
Theorem retry_delays_double A max_retries base_delay max_delay
        (attempts : list (outcome A * bool)) (i : nat) (d : Z) :
  0 <= max_delay ->
  base_delay <= max_delay ->
  delays (retry_with_backoff_async max_retries base_delay max_delay
            attempts) !! i = Some d ->
  d = Z.min (base_delay * 2 ^ Z.of_nat i) max_delay
  /\ (0 < base_delay -> base_delay <= d <= max_delay).
Proof.
  intros Hmax Hbase Hd. unfold retry_with_backoff_async in Hd.
  replace base_delay with (Z.min (base_delay * 2 ^ Z.of_nat 0) max_delay)
    in Hd at 1 by (cbn; lia).
  apply retry_loop_delays in Hd; [|done]. cbn [Nat.add] in Hd.
  split; [done|]. intros Hpos. subst d.
  pose proof (LoopFacts.pow2_pos i). nia.
Qed.

Lemma retry_delays_double_witness :
  2 = Z.min (1 * 2 ^ Z.of_nat 1) 60 /\ (0 < 1 -> 1 <= 2 <= 60).
Proof.
  apply (retry_delays_double unit 0 1 60
           [(Raised OperationalError, false);
            (Raised OperationalError, false); (Ok tt, false)] 1%nat 2).
  - lia.
  - lia.
  - reflexivity.
Defined.

End RetryFacts.

(* ================================================================== *)
(** ** The limiter: cooldown accounting, history size and status *)

Module GateStatusFacts.
Import Gate GateStatus.

Lemma popleft_while_length c h :
  (length (popleft_while c h) <= length h)%nat.
Proof.
  induction h as [|x h IH]; cbn; [lia|].
  destruct (x <? c); cbn; lia.
Qed.

(** Trimming removes a prefix of instants older than the cutoff. *)
Lemma popleft_while_suffix c h :
  exists dropped,
    h = dropped ++ popleft_while c h /\ Forall (fun x => x < c) dropped.
Proof.
  induction h as [|x h (d & Hd & Hall)]; [by exists []|].
  cbn. destruct (Z.ltb_spec x c) as [Hx|Hx].
  - exists (x :: d). split; [cbn; by rewrite <- Hd|by constructor].
  - by exists [].
Qed.

Lemma popleft_while_dropped c c' dropped h :
  c <= c' -> Forall (fun x => x < c) dropped ->
  popleft_while c' (dropped ++ h) = popleft_while c' h.
Proof.
  intros Hc. induction 1 as [|x d Hx _ IH]; [done|].
  cbn. by rewrite (proj2 (Z.ltb_lt x c')) by lia.
Qed.

(** [can_send] answers alike on two gates that differ by a prefix of
    history older than the cutoff, and leaves two such gates. *)
Lemma can_send_dropped c now dropped g :
  Forall (fun x => x < c) dropped ->
  c <= now - seconds (window_seconds g) ->
  exists dropped',
    Forall (fun x => x < c) dropped'
    /\ can_send now (set_history g (dropped ++ message_times g))
       = let '(ok, l, g1) := can_send now g in
         (ok, l, set_history g1 (dropped' ++ message_times g1)).
Proof.
  intros Hd Hc. destruct g as [m w cd h lk cu n]. cbn in Hc.
  unfold can_send, set_history. cbn [lock cooldown_until
    message_times max_messages window_seconds cooldown_seconds
    suppressed_count].
  destruct lk; cbn [negb].
  - destruct cu as [u|].
    + destruct (now <? u).
      * exists dropped. done.
      * exists []. unfold check_limit, set_history, set_cooldown. cbn.
        split; [done|]. by destruct (Z.of_nat 0 >=? m).
    + exists []. unfold check_limit, set_history, set_cooldown.
      cbn [lock cooldown_until message_times max_messages
           window_seconds cooldown_seconds suppressed_count].
      rewrite (popleft_while_dropped c) by done.
      split; [done|]. by destruct (_ >=? m).
  - by exists dropped.
Qed.

Lemma record_sent_dropped r dropped g :
  record_sent r (set_history g (dropped ++ message_times g))
  = set_history (record_sent r g)
      (dropped ++ message_times (record_sent r g)).
Proof.
  unfold record_sent, set_history. cbn. by rewrite app_assoc.
Qed.

Lemma record_sent_window r g :
  window_seconds (record_sent r g) = window_seconds g.
Proof. done. Qed.

(** Later admissions do not depend on history older than the cutoff of
    every later call. *)
Lemma run_dropped c cs : forall dropped g,
  Forall (fun x => x < c) dropped ->
  Forall (fun call => c <= call_start call - seconds (window_seconds g))
         cs ->
  (run cs (set_history g (dropped ++ message_times g))).1 = (run cs g).1.
Proof.
  induction cs as [|[a r|r] cs IH]; intros dropped g Hd Hcs; [done| |].
  - apply Forall_cons in Hcs as [Ha Hcs]. cbn in Ha. cbn [run].
    destruct (can_send_dropped c a dropped g Hd Ha) as (d' & Hd' & ->).
    pose proof (GateFacts.can_send_params a g) as Hp.
    destruct (can_send a g) as [[ok l] g1]. cbn in Hp.
    destruct Hp as (_ & Hw & _).
    destruct ok.
    + rewrite record_sent_dropped.
      specialize (IH d' (record_sent r g1) Hd').
      rewrite record_sent_window, Hw in IH. specialize (IH Hcs).
      destruct (run cs (set_history _ _)) as [adm1 g2].
      destruct (run cs (record_sent r g1)) as [adm1' g2'].
      cbn in IH. cbn. by rewrite IH.
    + apply IH; [done|]. by rewrite Hw.
  - apply Forall_cons in Hcs as [_ Hcs]. cbn [run].
    rewrite record_sent_dropped. apply IH; [done|].
    by rewrite record_sent_window.
Qed.

(** While the cooldown lasts every call is refused and only counted. *)
Lemma can_send_all_cooling ts : forall m w c h u n,
  Forall (fun t => t < u) ts ->
  can_send_all ts (mkLimiter m w c h true (Some u) n)
  = (replicate (length ts) false, [],
     mkLimiter m w c h true (Some u) (n + Z.of_nat (length ts))).
Proof.
  induction ts as [|t ts IH]; intros m w c h u n Hts.
  - cbn. by rewrite Z.add_0_r.
  - apply Forall_cons in Hts as [Ht Hts]. cbn [can_send_all].
    rewrite GateFacts.can_send_cooling by done.
    rewrite IH by done. cbn [length replicate app].
    by replace (n + 1 + Z.of_nat (length ts))
         with (n + Z.of_nat (S (length ts))) by lia.
Qed.

(** A call of [can_send] does not lengthen the history, and it admits
    only below the limit. *)
Lemma can_send_history a g (b : Z) :
  lock g = true ->
  0 <= b ->
  Z.of_nat (length (message_times g)) <= Z.max 0 (max_messages g) + b ->
  Z.of_nat (length (message_times (can_send a g).2))
  <= Z.max 0 (max_messages g) + b
  /\ ((can_send a g).1.1 = true ->
      Z.of_nat (length (message_times (can_send a g).2))
      < Z.max 0 (max_messages g)).
Proof.
  destruct g as [m w cd h lk cu n]. cbn. intros -> Hb Hlen.
  unfold can_send, check_limit, set_history, set_cooldown.
  cbn [lock cooldown_until message_times max_messages
       window_seconds cooldown_seconds suppressed_count negb].
  pose proof (popleft_while_length (a - seconds w) h).
  destruct cu as [u|].
  - destruct (a <? u); cbn [fst snd message_times].
    + split; [lia|done].
    + cbn [popleft_while length].
      destruct (Z.geb_spec (Z.of_nat 0) m); cbn; split; try lia; done.
  - destruct (Z.geb_spec
                (Z.of_nat (length (popleft_while (a - seconds w) h)))
                m); cbn; split; try lia; done.
Qed.

(** The history never holds more than the limit plus the forced sends. *)
Lemma run_history_bound cs : forall g (b : Z),
  lock g = true ->
  0 <= b ->
  Z.of_nat (length (message_times g)) <= Z.max 0 (max_messages g) + b ->
  let g' := (run cs g).2 in
  Z.of_nat (length (message_times g'))
  <= Z.max 0 (max_messages g) + b + Z.of_nat (forced_calls cs).
Proof.
  induction cs as [|[a r|r] cs IH]; intros g b Hlock Hb Hlen; cbv zeta.
  - cbn. lia.
  - cbn [run].
    pose proof (GateFacts.can_send_params a g) as Hp.
    pose proof (can_send_history a g b Hlock Hb Hlen) as Hstep.
    destruct (can_send a g) as [[ok l] g1]. cbn in Hp, Hstep.
    destruct Hp as (Hm & _ & _ & Hl). destruct Hstep as [Hle Hlt].
    change (forced_calls (Attempt a r :: cs)) with (forced_calls cs).
    destruct ok.
    + specialize (Hlt eq_refl).
      pose proof (IH (record_sent r g1) b) as IH1. cbv zeta in IH1.
      change (max_messages (record_sent r g1)) with (max_messages g1)
        in IH1.
      change (lock (record_sent r g1)) with (lock g1) in IH1.
      change (message_times (record_sent r g1))
        with (message_times g1 ++ [r]) in IH1.
      rewrite Hm, Hl, length_app in IH1. cbn [length] in IH1.
      destruct (run cs (record_sent r g1)) as [adm g2].
      cbn [snd] in *. apply IH1; [done|lia|lia].
    + specialize (IH g1 b). rewrite Hm, Hl in IH.
      apply IH; [by rewrite <- Hlock|lia|lia].
  - cbn [run].
    change (forced_calls (Forced r :: cs)) with (S (forced_calls cs)).
    pose proof (IH (record_sent r g) (b + 1)) as IH1. cbv zeta in IH1.
    change (max_messages (record_sent r g)) with (max_messages g) in IH1.
    change (lock (record_sent r g)) with (lock g) in IH1.
    change (message_times (record_sent r g))
      with (message_times g ++ [r]) in IH1.
    rewrite length_app in IH1. cbn [length] in IH1.
    assert (forall x y : Z,
              x <= y + (b + 1) + Z.of_nat (forced_calls cs) ->
              x <= y + b + Z.of_nat (S (forced_calls cs))) as Hadd by lia.
    apply Hadd, IH1; [done|lia|lia].
Qed.

Lemma can_send_all_app ts1 : forall ts2 g,
  can_send_all (ts1 ++ ts2) g
  = let '(o1, l1, g1) := can_send_all ts1 g in
    let '(o2, l2, g2) := can_send_all ts2 g1 in
    (o1 ++ o2, l1 ++ l2, g2).
Proof.
  induction ts1 as [|t ts1 IH]; intros ts2 g.
  - cbn. by destruct (can_send_all ts2 g) as [[o2 l2] g2].
  - cbn [app can_send_all]. destruct (can_send t g) as [[ok l] g1].
    rewrite IH. destruct (can_send_all ts1 g1) as [[o1 l1] g1'].
    destruct (can_send_all ts2 g1') as [[o2 l2] g2].
    by rewrite app_assoc.
Qed.

(** X8: a whole cooldown.  The call that finds the window full is
    refused and starts the cooldown; every call before its end is
    refused without a log line; the first call at or after its end is
    admitted, logs how many were refused, the first one included, and
    leaves an empty history. *)
Theorem cooldown_counts_refusals now0 ts now1 g :
  lock g = true ->
  cooldown_until g = None ->
  0 < max_messages g ->
  max_messages g
  <= Z.of_nat (length (popleft_while (now0 - seconds (window_seconds g))
                         (message_times g))) ->
  Forall (fun t => t < now0 + seconds (cooldown_seconds g)) ts ->
  now0 + seconds (cooldown_seconds g) <= now1 ->
  can_send_all (now0 :: ts ++ [now1]) g
  = (false :: replicate (length ts) false ++ [true],
     [LogRateLimitReached;
      LogSuppressedDuringCooldown (1 + Z.of_nat (length ts))],
     mkLimiter (max_messages g) (window_seconds g) (cooldown_seconds g)
               [] true None 0).
Proof.
  destruct g as [m w cd h lk cu n]. cbn. intros -> -> Hm Hfull Hts Hnow1.
  unfold can_send, check_limit, set_history, set_cooldown.
  cbn [lock cooldown_until message_times max_messages window_seconds
       cooldown_seconds suppressed_count negb].
  rewrite Z.geb_leb, (proj2 (Z.leb_le _ _)) by lia.
  rewrite can_send_all_app, can_send_all_cooling by done.
  cbn [can_send_all].
  rewrite GateFacts.can_send_cooled by lia.
  done.
Qed.

Lemma cooldown_counts_refusals_witness :
  can_send_all (seconds 1 :: [seconds 2] ++ [seconds 301])
               (mkLimiter 1 60 300 [0] true None 0)
  = (false :: replicate 1 false ++ [true],
     [LogRateLimitReached; LogSuppressedDuringCooldown (1 + 1)],
     mkLimiter 1 60 300 [] true None 0).
Proof.
  apply (cooldown_counts_refusals (seconds 1) [seconds 2] (seconds 301)
           (mkLimiter 1 60 300 [0] true None 0)).
  - reflexivity.
  - reflexivity.
  - reflexivity.
  - vm_compute. discriminate.
  - repeat constructor.
  - vm_compute. discriminate.
Defined.

(** X9: with the lock installed the history holds at most the limit,
    plus one entry for every forced send. *)
Theorem history_bounded_by_limit cs g :
  lock g = true ->
  Z.of_nat (length (message_times g)) <= Z.max 0 (max_messages g) ->
  Z.of_nat (length (message_times (run cs g).2))
  <= Z.max 0 (max_messages g) + Z.of_nat (forced_calls cs).
Proof.
  intros Hlock Hlen.
  pose proof (run_history_bound cs g 0 Hlock) as H. cbv zeta in H.
  rewrite Z.add_0_r in H. apply H; lia.
Qed.

Lemma history_bounded_by_limit_witness :
  Z.of_nat (length (message_times
                      (run [Attempt 0 0; Forced 1; Attempt 2 2]
                           (with_lock (init 1 60 300))).2))
  <= Z.max 0 1 + Z.of_nat 1.
Proof.
  apply (history_bounded_by_limit [Attempt 0 0; Forced 1; Attempt 2 2]
           (with_lock (init 1 60 300))).
  - reflexivity.
  - vm_compute. discriminate.
Defined.

(** X10: [get_status] only observes.  The admissions of later calls are
    the same with and without it, without a lock it answers nothing and
    changes nothing, and what it reports tells what [can_send] would
    answer at the same instant. *)
Theorem get_status_observes t g cs :
  Forall (fun call => t <= call_start call) cs ->
  (run cs (get_status t g).2).1 = (run cs g).1
  /\ (lock g = false -> get_status t g = (None, g))
  /\ (forall st, (get_status t g).1 = Some st ->
        lock g = true
        /\ messages_in_window st
           = length (popleft_while (t - seconds (window_seconds g))
                       (message_times g))
        /\ (messages_in_window st <= length (message_times g))%nat
        /\ (in_cooldown st = true ->
            (can_send t g).1.1 = false /\ 0 < cooldown_remaining st)
        /\ (in_cooldown st = false -> cooldown_remaining st = 0)
        /\ (cooldown_until g = None ->
            ((can_send t g).1.1 = true
             <-> Z.of_nat (messages_in_window st) < max_messages g))).
Proof.
  intros Hcs. split; [|split].
  - unfold get_status. destruct (lock g); cbn [negb]; [|done]. cbn [snd].
    destruct (popleft_while_suffix (t - seconds (window_seconds g))
                (message_times g)) as (d & Hd & Hall).
    set (g1 := set_history g
                 (popleft_while (t - seconds (window_seconds g))
                    (message_times g))).
    assert (g = set_history g1 (d ++ message_times g1)) as Hg.
    { destruct g. unfold g1, set_history. cbn in *. by rewrite <- Hd. }
    symmetry.
    trans ((run cs (set_history g1 (d ++ message_times g1))).1);
      [by rewrite <- Hg|].
    apply (run_dropped (t - seconds (window_seconds g))); [done|].
    eapply Forall_impl; [exact Hcs|]. intros call Hcall.
    cbn beta in Hcall |- *.
    change (window_seconds g1) with (window_seconds g). lia.
  - unfold get_status. by intros ->.
  - intros st. destruct g as [m w cd h lk cu n].
    unfold get_status, can_send, check_limit, set_history, set_cooldown.
    cbn [lock cooldown_until message_times max_messages window_seconds
         cooldown_seconds suppressed_count].
    destruct lk; cbn [negb fst]; [|done]. intros [= <-].
    cbn [messages_in_window in_cooldown cooldown_remaining].
    split; [done|]. split; [done|].
    split; [apply popleft_while_length|].
    destruct cu as [u|].
    + destruct (Z.ltb_spec t u); cbn.
      * split; [intros _; split; [done|lia]|]. split; done.
      * split; [done|]. split; done.
    + split; [done|]. split; [done|]. intros _.
      destruct (Z.geb_spec
                  (Z.of_nat (length (popleft_while (t - seconds w) h)))
                  m); cbn; split; try done; lia.
Qed.

Lemma get_status_observes_witness :
  (run [Attempt (seconds 70) (seconds 70)]
       (get_status (seconds 61)
          (mkLimiter 1 60 300 [0] true None 0)).2).1
  = (run [Attempt (seconds 70) (seconds 70)]
         (mkLimiter 1 60 300 [0] true None 0)).1.
Proof.
  refine (proj1 (get_status_observes (seconds 61)
                   (mkLimiter 1 60 300 [0] true None 0)
                   [Attempt (seconds 70) (seconds 70)] _)).
  repeat constructor. vm_compute. discriminate.
Defined.

(** X27: without its lock the limiter limits nothing.  Until
    [async_main] installs the lock, every send that asks the gate is
    admitted, every send is appended to the history, nothing is trimmed
    and no cooldown starts. *)
Theorem limiter_without_lock_admits_all cs g :
  lock g = false ->
  (run cs g).1 = attempt_starts cs
  /\ message_times (run cs g).2 = message_times g ++ map call_end cs
  /\ cooldown_until (run cs g).2 = cooldown_until g
  /\ suppressed_count (run cs g).2 = suppressed_count g
  /\ lock (run cs g).2 = false.
Proof.
  revert g. induction cs as [|[a r|r] cs IH]; intros g Hlock.
  - cbn. by rewrite app_nil_r.
  - cbn [run attempt_starts omap]. unfold can_send. rewrite Hlock.
    cbn [negb].
    destruct (IH (record_sent r g) Hlock) as (H1 & H2 & H3 & H4 & H5).
    destruct (run cs (record_sent r g)) as [adm g2]. cbn [fst snd] in *.
    rewrite H1, H2. cbn. rewrite <- app_assoc. done.
  - cbn [run attempt_starts omap].
    destruct (IH (record_sent r g) Hlock) as (H1 & H2 & H3 & H4 & H5).
    rewrite H1, H2. cbn. rewrite <- app_assoc. done.
Qed.

Lemma limiter_without_lock_admits_all_witness :
  (run [Attempt 0 0; Attempt 1 1; Forced 2; Attempt 3 3] (init 1 60 300)).1
  = attempt_starts [Attempt 0 0; Attempt 1 1; Forced 2; Attempt 3 3]
  /\ message_times
       (run [Attempt 0 0; Attempt 1 1; Forced 2; Attempt 3 3]
            (init 1 60 300)).2
     = message_times (init 1 60 300)
       ++ map call_end [Attempt 0 0; Attempt 1 1; Forced 2; Attempt 3 3]
  /\ cooldown_until
       (run [Attempt 0 0; Attempt 1 1; Forced 2; Attempt 3 3]
            (init 1 60 300)).2
     = cooldown_until (init 1 60 300)
  /\ suppressed_count
       (run [Attempt 0 0; Attempt 1 1; Forced 2; Attempt 3 3]
            (init 1 60 300)).2
     = suppressed_count (init 1 60 300)
  /\ lock (run [Attempt 0 0; Attempt 1 1; Forced 2; Attempt 3 3]
               (init 1 60 300)).2 = false.
Proof.
  apply (limiter_without_lock_admits_all
           [Attempt 0 0; Attempt 1 1; Forced 2; Attempt 3 3]
           (init 1 60 300)).
  reflexivity.
Defined.

End GateStatusFacts.

(* ================================================================== *)
(** ** The batch insert of the Firebird worker *)

Module BatchFacts.
Import Cache Db Sync Props DbFacts SyncFacts Batch.

Lemma has_key_app k xs ys :
  has_key k (xs ++ ys) = has_key k xs || has_key k ys.
Proof. unfold has_key. apply existsb_app. Qed.

Lemma has_key_elem_of k rs :
  has_key k rs = true <-> k ∈ map row_key rs.
Proof.
  unfold has_key. rewrite existsb_exists, list_elem_of_fmap. split.
  - intros (r & Hin & Hk). apply bool_decide_eq_true in Hk.
    exists r. split; [done|]. by apply list_elem_of_In.
  - intros (r & -> & Hin). exists r. split; [by apply list_elem_of_In|].
    by apply bool_decide_eq_true.
Qed.

Lemma has_key_self r xs ys : has_key (row_key r) (xs ++ r :: ys) = true.
Proof.
  rewrite has_key_app. cbn. rewrite bool_decide_eq_true_2 by done.
  cbn. by rewrite orb_true_r.
Qed.

Lemma accepted_length present batch :
  (length (accepted present batch) <= length batch)%nat.
Proof.
  revert present. induction batch as [|r rs IH]; intros present; cbn.
  - lia.
  - destruct (has_key (row_key r) present); cbn.
    + specialize (IH present). lia.
    + specialize (IH (present ++ [r])). lia.
Qed.

Lemma accepted_sublist present batch :
  sublist (accepted present batch) batch.
Proof.
  revert present. induction batch as [|r rs IH]; intros present; cbn.
  - constructor.
  - destruct (has_key (row_key r) present); by constructor.
Qed.

(** Afterwards the key of every row of the batch is in the table. *)
Lemma accepted_keys present batch r :
  r ∈ batch ->
  has_key (row_key r) (present ++ accepted present batch) = true.
Proof.
  revert present. induction batch as [|r0 rs IH]; intros present Hin.
  - by apply elem_of_nil in Hin.
  - cbn. destruct (has_key (row_key r0) present) eqn:Hk.
    + apply elem_of_cons in Hin as [->|Hin]; [|by apply IH].
      by rewrite has_key_app, Hk.
    + apply elem_of_cons in Hin as [->|Hin].
      * apply has_key_self.
      * rewrite (cons_middle r0), app_assoc. by apply IH.
Qed.

(** No accepted row repeats a key that was there. *)
Lemma accepted_new present batch r :
  r ∈ accepted present batch -> has_key (row_key r) present = false.
Proof.
  revert present. induction batch as [|r0 rs IH]; intros present Hin.
  - by apply elem_of_nil in Hin.
  - cbn in Hin. destruct (has_key (row_key r0) present) eqn:Hk.
    + by apply IH.
    + apply elem_of_cons in Hin as [->|Hin]; [done|].
      apply IH in Hin. rewrite has_key_app in Hin.
      by apply orb_false_iff in Hin as [? _].
Qed.

Lemma accepted_unique present batch :
  unique_keys present -> unique_keys (present ++ accepted present batch).
Proof.
  unfold unique_keys.
  revert present. induction batch as [|r rs IH]; intros present Hnd.
  - cbn. by rewrite app_nil_r.
  - cbn. destruct (has_key (row_key r) present) eqn:Hk; [by apply IH|].
    rewrite (cons_middle r), app_assoc. apply IH.
    rewrite map_app. cbn.
    apply NoDup_app. split; [done|]. split; [|apply NoDup_singleton].
    intros k Hin Hk'. apply list_elem_of_singleton in Hk' as ->.
    apply has_key_elem_of in Hin. congruence.
Qed.

(** A table that holds every key of the batch takes none of its rows. *)
Lemma accepted_all_present present batch :
  (forall r, r ∈ batch -> has_key (row_key r) present = true) ->
  accepted present batch = [].
Proof.
  induction batch as [|r rs IH]; intros Hall; [done|].
  cbn. rewrite Hall by apply list_elem_of_here.
  apply IH. intros r' Hr'. apply Hall. by apply list_elem_of_further.
Qed.

Lemma accepted_idempotent present batch :
  accepted (present ++ accepted present batch) batch = [].
Proof.
  apply accepted_all_present. intros r. apply accepted_keys.
Qed.

(** [executemany] goes through exactly when every row is accepted. *)
Lemma executemany_accepted rs : forall d,
  match executemany rs d with
  | (Ok _, d') =>
      accepted (visible d) rs = rs
      /\ d' = mkDb (committed d) (pending d ++ rs)
  | (Raised e, d') =>
      e = IntegrityError /\ committed d' = committed d
      /\ accepted (visible d) rs <> rs
  end.
Proof.
  induction rs as [|r rs IH]; intros d; cbn.
  - rewrite app_nil_r. by destruct d.
  - unfold bind, execute_insert.
    destruct (has_key (row_key r) (visible d)) eqn:Hk.
    + split; [done|]. split; [done|]. intros Heq.
      pose proof (accepted_length (visible d) rs) as Hlen.
      rewrite Heq in Hlen. cbn in Hlen. lia.
    + specialize (IH (mkDb (committed d) (pending d ++ [r]))).
      destruct (executemany rs (mkDb (committed d) (pending d ++ [r])))
        as [[[]|e] d'].
      * destruct IH as [Hacc ->]. unfold visible in Hacc. cbn in Hacc.
        rewrite app_assoc in Hacc. unfold visible. rewrite Hacc.
        cbn. by rewrite <- app_assoc.
      * destruct IH as (-> & Hcom & Hne). split; [done|].
        split; [done|]. intros [= Heq]. apply Hne.
        unfold visible in *. cbn. by rewrite app_assoc.
Qed.

(** The fallback loop adds exactly the accepted rows and counts them. *)
Lemma insert_each_accepted rs : forall n d,
  insert_each rs n d
  = (Ok (n + length (accepted (visible d) rs))%nat,
     mkDb (committed d) (pending d ++ accepted (visible d) rs)).
Proof.
  induction rs as [|r rs IH]; intros n d; cbn [insert_each accepted].
  - cbn. rewrite app_nil_r, Nat.add_0_r. by destruct d.
  - run_monad. unfold execute_insert.
    destruct (has_key (row_key r) (visible d)).
    + by rewrite IH.
    + rewrite IH. unfold visible. cbn [committed pending length].
      rewrite <- !app_assoc. cbn [app]. f_equal. f_equal. lia.
Qed.

Lemma db_no_pending d : pending d = [] -> mkDb (committed d ++ []) [] = d.
Proof. destruct d. cbn. intros ->. by rewrite app_nil_r. Qed.

(** [insert_into_mssql_async] when the connection holds: the table takes
    the accepted rows, and the cache moves only when all were accepted. *)
Lemma insert_into_mssql_exact env table data s :
  env_dest_write_fails env = false ->
  pending (dest s) = [] ->
  let batch := map process_row data in
  let kept := accepted (committed (dest s)) batch in
  let '(r, s') := insert_into_mssql_async env table data s in
  r = Ok tt
  /\ dest s' = mkDb (committed (dest s) ++ kept) []
  /\ (kept = batch ->
      cache_of s'
      = match batch_max_rectime batch with
        | Some t =>
            <[table := mkEntry t (env_now (env_sur env))]> (cache_of s)
        | None => cache_of s
        end)
  /\ (kept <> batch -> cache_of s' = cache_of s).
Proof.
  intros Hw Hp batch kept. unfold insert_into_mssql_async. fold batch.
  subst kept. destruct batch as [|r0 batch'] eqn:Hb.
  { cbn. split; [done|]. split; [by rewrite db_no_pending|]. done. }
  run_monad. cbn [dest glob]. rewrite Hw.
  pose proof (executemany_accepted (r0 :: batch') (dest s)) as Hex.
  assert (visible (dest s) = committed (dest s)) as Hvis.
  { unfold visible. by rewrite Hp, app_nil_r. }
  rewrite Hvis in Hex.
  destruct (executemany (r0 :: batch') (dest s)) as [[[]|e] d'].
  - destruct Hex as [Hacc ->]. rewrite Hacc, Hp.
    cbv beta iota zeta. cbn [dest glob].
    destruct (batch_max_rectime (r0 :: batch')) as [t|];
      cbv beta iota; cbn [dest glob];
      (split; [done|]); (split; [done|]); (split; [|done]);
      intros _; by cache_simpl.
  - destruct Hex as (-> & Hcom & Hne).
    cbv beta iota zeta. cbn [dest glob].
    rewrite insert_each_accepted.
    assert (visible (rollback d') = committed (dest s)) as Hrb.
    { unfold visible, rollback. cbn. by rewrite Hcom, app_nil_r. }
    rewrite Hrb. unfold commit, visible, rollback.
    cbv beta iota zeta. cbn [dest glob committed pending app].
    rewrite Hcom.
    destruct (0 <? _)%nat; cbv beta iota zeta; cbn [dest glob];
      (split; [done|]); (split; [done|]); (split; [done|]);
      intros _; by cache_simpl.
Qed.

(** The [try] body of a Firebird iteration when the connection holds. *)
Lemma firebird_body_exact cfg env j s :
  env_dest_write_fails env = false ->
  pending (dest s) = [] ->
  let key := mssql_table j in
  let wm := wm_read env key true s in
  let c1 := cache_read env key true s in
  let data := default [] (get_firebird_data env wm j) in
  let batch := map process_row data in
  let kept := accepted (committed (dest s)) batch in
  let '(r, s') := run_sync_firebird_body cfg env j s in
  r = Ok tt
  /\ dest s' = mkDb (committed (dest s) ++ kept) []
  /\ (kept = batch ->
      cache_of s'
      = match batch_max_rectime batch with
        | Some t => <[key := mkEntry t (env_now (env_sur env))]> c1
        | None => c1
        end)
  /\ (kept <> batch -> cache_of s' = c1).
Proof.
  intros Hw Hp key wm c1 data batch kept.
  destruct (read_watermark_run env key true s) as (s1 & Hread & Hc1 & Hd1).
  unfold run_sync_firebird_body. fold key.
  unfold bind at 1. rewrite Hread. fold wm.
  unfold bind at 1. unfold on_world at 1, modify at 1.
  set (s2 := mkSys (Notify.check_and_notify_async cfg (env_sur env) key
                      (Some wm) (glob s1)) (dest s1)).
  assert (cache_of s2 = c1) as Hc2.
  { unfold s2. cache_simpl. done. }
  assert (dest s2 = dest s) as Hd2 by done.
  unfold bind at 1.
  pose proof (insert_into_mssql_exact env key data s2 Hw) as Hins.
  rewrite Hd2 in Hins. specialize (Hins Hp). cbv zeta in Hins.
  fold batch in Hins. fold kept in Hins. rewrite Hc2 in Hins.
  assert (insert_into_mssql_async env key data s2
          = match get_firebird_data env wm j with
            | Some ((_ :: _) as data) =>
                insert_into_mssql_async env key data s2
            | _ => ret tt s2
            end) as Hsame.
  { unfold data. by destruct (get_firebird_data env wm j) as [[|]|]. }
  assert (match get_firebird_data env wm j with
          | Some ((_ :: _) as data) => insert_into_mssql_async env key data
          | _ => ret tt
          end s2
          = insert_into_mssql_async env key data s2) as ->.
  { rewrite Hsame. by destruct (get_firebird_data env wm j) as [[|]|]. }
  destruct (insert_into_mssql_async env key data s2) as [r s3].
  destruct Hins as (-> & Hd & Hall & Hsome).
  run_monad. cbn [dest glob]. split; [done|]. split; [done|].
  split; intros Hk; cache_simpl; [by apply Hall|by apply Hsome].
Qed.

(** X11: the batch insert of the Firebird worker skips duplicates.
    While the connection holds it does not raise; the table then holds
    its former rows followed by the rows of the batch, in batch order,
    whose key was not there yet, with nothing left uncommitted; every key
    of the batch is in the table, and keys that were unique stay
    unique. *)
Theorem firebird_insert_skips_duplicates env table data s :
  env_dest_write_fails env = false ->
  pending (dest s) = [] ->
  let batch := map process_row data in
  let kept := accepted (committed (dest s)) batch in
  let '(r, s') := insert_into_mssql_async env table data s in
  r = Ok tt
  /\ dest s' = mkDb (committed (dest s) ++ kept) []
  /\ sublist kept batch
  /\ (forall x, x ∈ kept ->
                has_key (row_key x) (committed (dest s)) = false)
  /\ (forall x, x ∈ batch ->
                has_key (row_key x) (committed (dest s')) = true)
  /\ (unique_keys (committed (dest s)) ->
      unique_keys (committed (dest s'))).
Proof.
  intros Hw Hp batch kept.
  pose proof (insert_into_mssql_exact env table data s Hw Hp) as H.
  cbv zeta in H. fold batch in H. fold kept in H.
  destruct (insert_into_mssql_async env table data s) as [r s'].
  destruct H as (-> & Hd & _). rewrite Hd. cbn [committed].
  split; [done|]. split; [done|].
  split; [apply accepted_sublist|].
  split; [intros x; apply accepted_new|].
  split; [intros x; apply accepted_keys|apply accepted_unique].
Qed.

Lemma firebird_insert_skips_duplicates_witness :
  let '(r, s') := insert_into_mssql_async env_A "[dbo].[Dynamic_A]"
                    source_A sys_A in
  let batch := map process_row source_A in
  let kept := accepted (committed (dest sys_A)) batch in
  r = Ok tt
  /\ dest s' = mkDb (committed (dest sys_A) ++ kept) []
  /\ sublist kept batch
  /\ (forall x, x ∈ kept ->
                has_key (row_key x) (committed (dest sys_A)) = false)
  /\ (forall x, x ∈ batch ->
                has_key (row_key x) (committed (dest s')) = true)
  /\ (unique_keys (committed (dest sys_A)) ->
      unique_keys (committed (dest s'))).
Proof.
  apply (firebird_insert_skips_duplicates env_A "[dbo].[Dynamic_A]"
           source_A sys_A); reflexivity.
Defined.

(** X12: inserting the same batch again changes neither the table nor
    the cache. *)
Theorem firebird_insert_idempotent env env2 table data s :
  env_dest_write_fails env = false ->
  env_dest_write_fails env2 = false ->
  pending (dest s) = [] ->
  let s1 := (insert_into_mssql_async env table data s).2 in
  let '(r2, s2) := insert_into_mssql_async env2 table data s1 in
  r2 = Ok tt /\ dest s2 = dest s1 /\ cache_of s2 = cache_of s1.
Proof.
  intros Hw Hw2 Hp.
  pose proof (insert_into_mssql_exact env table data s Hw Hp) as H1.
  cbv zeta in H1.
  destruct (insert_into_mssql_async env table data s) as [r1 s1].
  destruct H1 as (_ & Hd1 & _). cbn [snd].
  assert (pending (dest s1) = []) as Hp1 by by rewrite Hd1.
  pose proof (insert_into_mssql_exact env2 table data s1 Hw2 Hp1) as H2.
  cbv zeta in H2.
  destruct (insert_into_mssql_async env2 table data s1) as [r2 s2].
  destruct H2 as (-> & Hd2 & Hall & Hsome).
  assert (accepted (committed (dest s1)) (map process_row data) = [])
    as Hnone.
  { rewrite Hd1. cbn [committed]. apply accepted_idempotent. }
  rewrite Hnone in Hd2, Hall, Hsome.
  split; [done|]. split; [by rewrite Hd2, db_no_pending|].
  destruct (map process_row data) as [|r0 rs] eqn:Hb.
  - by apply Hall.
  - by apply Hsome.
Qed.

Lemma firebird_insert_idempotent_witness :
  let s1 := (insert_into_mssql_async env_A "[dbo].[Dynamic_A]" source_A
               sys_B).2 in
  let '(r2, s2) := insert_into_mssql_async env_A "[dbo].[Dynamic_A]"
                     source_A s1 in
  r2 = Ok tt /\ dest s2 = dest s1 /\ cache_of s2 = cache_of s1.
Proof.
  apply (firebird_insert_idempotent env_A env_A "[dbo].[Dynamic_A]"
           source_A sys_B); reflexivity.
Defined.

(** X13: a duplicate stalls the watermark of the Firebird worker.  When
    the watermark is cached and the delta holds a row whose key is
    already in the destination, the cycle ends normally and copies the
    rows that were missing, but leaves the cache as it was: the next
    cycle over the same source fetches the same delta again. *)
Theorem firebird_duplicate_stalls_watermark cfg env j s e r0 :
  cache_of s !! mssql_table j = Some e ->
  env_source_fetch_fails env = false ->
  env_dest_write_fails env = false ->
  pending (dest s) = [] ->
  let delta := select_delta_firebird (rectime e) (objid_filter j)
                 (env_source env) in
  r0 ∈ delta ->
  has_key (row_key (process_row r0)) (committed (dest s)) = true ->
  let '(r, s') := run_sync_firebird_cycle cfg env j s in
  r = Ok tt
  /\ cache_of s' = cache_of s
  /\ dest s'
     = mkDb (committed (dest s)
             ++ accepted (committed (dest s)) (map process_row delta)) []
  /\ (forall env',
        env_source env' = env_source env ->
        env_source_fetch_fails env' = false ->
        get_firebird_data env' (wm_read env' (mssql_table j) true s') j
        = Some delta).
Proof.
  intros Hc Hf Hw Hp delta Hr0 Hdup.
  pose proof (firebird_body_exact cfg env j s Hw Hp) as H. cbv zeta in H.
  assert (forall env' s', cache_of s' = cache_of s ->
            wm_read env' (mssql_table j) true s' = rectime e) as Hwm.
  { intros env' s' Hs'.
    unfold wm_read, read_result, get_last_sync_time_async,
      get_cached_rectime. rewrite Hs', Hc. done. }
  assert (cache_read env (mssql_table j) true s = cache_of s) as Hcr.
  { by destruct (read_result_cache env (mssql_table j) s)
      as (_ & _ & Hhit & _); apply (Hhit e). }
  rewrite Hcr, (Hwm env s eq_refl) in H.
  unfold get_firebird_data in H. rewrite Hf in H.
  change (default [] (Some ?x)) with x in H. fold delta in H.
  unfold run_sync_firebird_cycle, try_except.
  destruct (run_sync_firebird_body cfg env j s) as [r s'].
  destruct H as (-> & Hd & _ & Hsome).
  assert (cache_of s' = cache_of s) as Hc'.
  { apply Hsome. intros Heq.
    assert (process_row r0 ∈ map process_row delta) as Hin.
    { apply list_elem_of_fmap. by exists r0. }
    rewrite <- Heq in Hin. apply accepted_new in Hin. congruence. }
  split; [done|]. split; [done|]. split; [done|].
  intros env' Hsrc Hf'. unfold get_firebird_data.
  rewrite Hf', (Hwm env' s' Hc'), Hsrc. done.
Qed.

Lemma firebird_duplicate_stalls_watermark_witness :
  let '(r, s') := run_sync_firebird_cycle config_C env_A job_A_firebird
                    sys_B in
  let delta := select_delta_firebird (t_2025 0) 1 source_A in
  r = Ok tt
  /\ cache_of s' = cache_of sys_B
  /\ dest s'
     = mkDb (committed (dest sys_B)
             ++ accepted (committed (dest sys_B))
                  (map process_row delta)) []
  /\ (forall env',
        env_source env' = env_source env_A ->
        env_source_fetch_fails env' = false ->
        get_firebird_data env'
          (wm_read env' (mssql_table job_A_firebird) true s')
          job_A_firebird
        = Some delta).
Proof.
  apply (firebird_duplicate_stalls_watermark config_C env_A job_A_firebird
           sys_B (mkEntry (t_2025 0) (t_2025 0)) (row_at (t_2025 10))).
  - reflexivity.
  - reflexivity.
  - reflexivity.
  - reflexivity.
  - vm_compute. apply list_elem_of_further, list_elem_of_here.
  - reflexivity.
Defined.

End BatchFacts.

(* ================================================================== *)
(** ** Delivery of staleness alerts *)

Module DeliveryFacts.
Import Notify Props NotifyFacts.

(** A message is posted only when Telegram is configured, the limiter
    admits it (or is bypassed) and the POST succeeds. *)
Lemma send_telegram_message_posted cfg env m force w :
  let delivered :=
    telegram_configured cfg
    && (force || (Gate.can_send (env_now env) (telegram_rate_limiter w)).1.1)
    && env_post_ok env in
  posted (send_telegram_message cfg env m force w)
  = posted w ++ (if delivered then [m] else []).
Proof.
  cbv zeta. unfold send_telegram_message.
  destruct (telegram_configured cfg); cbn; [|by rewrite app_nil_r].
  destruct force; cbn.
  - destruct (env_post_ok env); cbn; [done|by rewrite app_nil_r].
  - destruct (Gate.can_send _ _) as [[ok l] g]. cbn.
    destruct ok; cbn; [|by rewrite app_nil_r].
    destruct (env_post_ok env); cbn; [done|by rewrite app_nil_r].
Qed.

Lemma alerts_for_sublist table l1 l2 :
  sublist l1 l2 -> (alerts_for table l1 <= alerts_for table l2)%nat.
Proof.
  unfold alerts_for. induction 1 as [|x l1 l2 _ IH|x l1 l2 _ IH]; cbn.
  - lia.
  - destruct (bool_decide _); cbn; lia.
  - destruct (bool_decide _); cbn; lia.
Qed.

(** What one check adds to the two traces. *)
Lemma check_step_traces cfg w c :
  exists ls lp,
    submitted (check_step cfg w c) = submitted w ++ ls
    /\ posted (check_step cfg w c) = posted w ++ lp
    /\ sublist lp ls.
Proof.
  unfold check_step, _check_and_notify_logic.
  destruct (cc_time c) as [t|].
  - destruct (_ && _).
    + cbn. rewrite send_telegram_message_posted. cbv zeta.
      destruct (send_telegram_message_trace cfg (cc_env c)
                  (mkAlert (cc_table c) (notification_timeout cfg / 3600))
                  false (set_sent (observe (cc_table c) t) w))
        as (_ & -> & _).
      cbn. eexists _, _. split; [done|]. split; [done|].
      destruct (_ && _); [done|]. by constructor.
    + exists [], []. by rewrite !app_nil_r.
  - exists [], []. by rewrite !app_nil_r.
Qed.

Lemma run_checks_traces cfg calls : forall w,
  exists ls lp,
    submitted (run_checks cfg calls w) = submitted w ++ ls
    /\ posted (run_checks cfg calls w) = posted w ++ lp
    /\ sublist lp ls.
Proof.
  induction calls as [|c calls IH]; intros w.
  - exists [], []. by rewrite !app_nil_r.
  - cbn. destruct (check_step_traces cfg w c) as (ls1 & lp1 & Hs1 & Hp1 & H1).
    destruct (IH (check_step cfg w c)) as (ls2 & lp2 & Hs2 & Hp2 & H2).
    exists (ls1 ++ ls2), (lp1 ++ lp2).
    unfold run_checks in *. rewrite Hs2, Hp2, Hs1, Hp1, <- !app_assoc.
    split; [done|]. split; [done|]. by apply sublist_app.
Qed.

(** Checks that submit no alert about a table post none about it. *)
Lemma run_checks_posted_settled cfg table calls w :
  alerts_for table (submitted (run_checks cfg calls w))
  = alerts_for table (submitted w) ->
  alerts_for table (posted (run_checks cfg calls w))
  = alerts_for table (posted w).
Proof.
  destruct (run_checks_traces cfg calls w) as (ls & lp & -> & -> & Hsub).
  rewrite !alerts_for_app. intros Hs.
  pose proof (alerts_for_sublist table lp ls Hsub). lia.
Qed.

(** X14: an alert that could not be delivered is not sent again.  When
    the first stale check of a table submits its alert while Telegram is
    not configured, the limiter refuses or the POST fails, nothing is
    posted, the table is marked as notified all the same, and the later
    checks that observe the same upstream timestamp neither submit nor
    post an alert about the table. *)
Theorem undelivered_alert_not_retried cfg table t c calls w :
  cc_table c = table ->
  cc_time c = Some t ->
  (forall c', In c' calls -> cc_table c' = table -> cc_time c' = Some t) ->
  stale cfg (env_now (cc_env c)) t = true ->
  alert_sent table (observe table t (sent_notifications w)) = false ->
  telegram_configured cfg
  && (Gate.can_send (env_now (cc_env c)) (telegram_rate_limiter w)).1.1
  && env_post_ok (cc_env c) = false ->
  let w1 := check_step cfg w c in
  let w' := run_checks cfg (c :: calls) w in
  sent_notifications w1 !! table = Some (true, t)
  /\ posted w1 = posted w
  /\ alerts_for table (submitted w')
     = (alerts_for table (submitted w) + 1)%nat
  /\ alerts_for table (posted w') = alerts_for table (posted w).
Proof.
  intros Htab Ht Hcalls Hstale Hflag Hundel. cbv zeta.
  assert (sent_notifications (check_step cfg w c) !! table = Some (true, t)
          /\ posted (check_step cfg w c) = posted w
          /\ submitted (check_step cfg w c)
             = submitted w
               ++ [mkAlert table (notification_timeout cfg / 3600)])
    as (Hs1 & Hp1 & Hsub1).
  { unfold check_step, _check_and_notify_logic. rewrite Ht, Htab.
    cbn [sent_notifications set_sent]. rewrite Hstale, Hflag.
    cbn [andb negb]. cbn [sent_notifications set_sent posted submitted].
    rewrite send_telegram_message_posted. cbv zeta.
    destruct (send_telegram_message_trace cfg (cc_env c)
                (mkAlert table (notification_timeout cfg / 3600))
                false (set_sent (observe table t) w)) as (_ & -> & _).
    cbn [telegram_rate_limiter set_sent orb posted submitted].
    rewrite Hundel, app_nil_r, lookup_insert_eq. done. }
  split; [done|]. split; [done|].
  change (run_checks cfg (c :: calls) w)
    with (run_checks cfg calls (check_step cfg w c)).
  pose proof (run_checks_settled cfg table t calls (check_step cfg w c) t
                Hcalls Hs1 ltac:(lia)) as Hsettled.
  split.
  - rewrite Hsettled, Hsub1, alerts_for_app. unfold alerts_for at 2.
    cbn. by rewrite bool_decide_eq_true_2.
  - rewrite (run_checks_posted_settled cfg table calls _ Hsettled).
    by rewrite Hp1.
Qed.

Lemma undelivered_alert_not_retried_witness :
  sent_notifications
    (check_step config_C world_0
       (mkCall (mkSurroundings (upstream_C + seconds 10800) false)
               "Dynamic_A" (Some upstream_C))) !! "Dynamic_A"
  = Some (true, upstream_C)
  /\ posted (check_step config_C world_0
               (mkCall (mkSurroundings (upstream_C + seconds 10800) false)
                       "Dynamic_A" (Some upstream_C)))
     = posted world_0
  /\ alerts_for "Dynamic_A"
       (submitted
          (run_checks config_C
             (mkCall (mkSurroundings (upstream_C + seconds 10800) false)
                     "Dynamic_A" (Some upstream_C)
              :: [check_C 2; check_C 4]) world_0))
     = (alerts_for "Dynamic_A" (submitted world_0) + 1)%nat
  /\ alerts_for "Dynamic_A"
       (posted
          (run_checks config_C
             (mkCall (mkSurroundings (upstream_C + seconds 10800) false)
                     "Dynamic_A" (Some upstream_C)
              :: [check_C 2; check_C 4]) world_0))
     = alerts_for "Dynamic_A" (posted world_0).
Proof.
  apply (undelivered_alert_not_retried config_C "Dynamic_A" upstream_C
           (mkCall (mkSurroundings (upstream_C + seconds 10800) false)
                   "Dynamic_A" (Some upstream_C))
           [check_C 2; check_C 4] world_0).
  - reflexivity.
  - reflexivity.
  - intros c' Hc' _. cbn in Hc'.
    repeat destruct Hc' as [<-|Hc']; try reflexivity. destruct Hc'.
  - reflexivity.
  - reflexivity.
  - reflexivity.
Defined.

End DeliveryFacts.

(* ================================================================== *)
(** ** The staleness check of the Firebird worker *)

Module FirebirdAlertFacts.
Import Cache Db Sync Props DbFacts SyncFacts StatusFacts.

Lemma read_watermark_alerts env table use_cache s :
  exists s1,
    read_watermark env table use_cache s
    = (Ok (wm_read env table use_cache s), s1)
    /\ sent_notifications (glob s1) = sent_notifications (glob s)
    /\ submitted (glob s1) = submitted (glob s)
    /\ telegram_rate_limiter (glob s1) = telegram_rate_limiter (glob s).
Proof.
  unfold read_watermark, wm_read, read_result, cache_of.
  destruct (get_last_sync_time_async _ _ _ _ _) as [[t l] c].
  eexists. split; [reflexivity|]. done.
Qed.

Lemma insert_into_mssql_alerts env table data s :
  sent_notifications (glob (insert_into_mssql_async env table data s).2)
  = sent_notifications (glob s)
  /\ submitted (glob (insert_into_mssql_async env table data s).2)
     = submitted (glob s).
Proof.
  unfold insert_into_mssql_async.
  destruct (map process_row data) as [|r0 batch'] eqn:Hb; [done|].
  run_step.
  destruct (env_dest_write_fails env); run_step; [done|].
  destruct (executemany (r0 :: batch') (dest s)) as [[[]|e] d'] eqn:Hex;
    run_step.
  - by destruct (batch_max_rectime (r0 :: batch')).
  - apply executemany_raised in Hex as [-> _]. run_step.
    destruct (insert_each_run (r0 :: batch') 0%nat (rollback d'))
      as (n' & kept & -> & _).
    run_step. by destruct (0 <? n')%nat.
Qed.

(** The alert traces after a check depend on the world through the
    notification table, the limiter and the traces only. *)
Lemma check_alerts_congruence cfg env table lut w1 w :
  sent_notifications w1 = sent_notifications w ->
  submitted w1 = submitted w ->
  sent_notifications (Notify.check_and_notify_async cfg env table lut w1)
  = sent_notifications (Notify.check_and_notify_async cfg env table lut w)
  /\ submitted (Notify.check_and_notify_async cfg env table lut w1)
     = submitted (Notify.check_and_notify_async cfg env table lut w).
Proof.
  intros Hs Hsub.
  unfold Notify.check_and_notify_async, Notify._check_and_notify_logic.
  destruct lut as [t|]; [|done].
  cbn [sent_notifications set_sent]. rewrite Hs.
  destruct (_ && _); [|by cbn; rewrite Hs, Hsub].
  cbn [sent_notifications set_sent submitted].
  destruct (NotifyFacts.send_telegram_message_trace cfg env
              (mkAlert table (notification_timeout cfg / 3600)) false
              (set_sent (Notify.observe table t) w1)) as (-> & -> & _).
  destruct (NotifyFacts.send_telegram_message_trace cfg env
              (mkAlert table (notification_timeout cfg / 3600)) false
              (set_sent (Notify.observe table t) w)) as (-> & -> & _).
  cbn. by rewrite Hs, Hsub.
Qed.

(** The Firebird iteration runs the staleness check on the watermark it
    read for its destination table, and nothing else in it touches the
    notification table or submits a message. *)
Lemma firebird_cycle_alerts cfg env j s :
  let key := mssql_table j in
  let wm := wm_read env key true s in
  let w' := Notify.check_and_notify_async cfg (env_sur env) key (Some wm)
              (glob s) in
  let '(r, s') := run_sync_firebird_cycle cfg env j s in
  sent_notifications (glob s') = sent_notifications w'
  /\ submitted (glob s') = submitted w'.
Proof.
  cbv zeta.
  destruct (read_watermark_alerts env (mssql_table j) true s)
    as (s1 & Hread & Hsn1 & Hsub1 & _).
  destruct (check_alerts_congruence cfg (env_sur env) (mssql_table j)
              (Some (wm_read env (mssql_table j) true s)) (glob s1)
              (glob s) Hsn1 Hsub1) as [<- <-].
  unfold run_sync_firebird_cycle, try_except, run_sync_firebird_body.
  unfold bind at 1. rewrite Hread.
  unfold bind at 1. unfold on_world at 1, modify at 1.
  set (s2 := mkSys _ (dest s1)).
  change (Notify.check_and_notify_async cfg (env_sur env) (mssql_table j)
            (Some (wm_read env (mssql_table j) true s)) (glob s1))
    with (glob s2).
  clearbody s2. unfold bind at 1.
  destruct (get_firebird_data env _ j) as [[|r0 data']|].
  - run_step. done.
  - pose proof (insert_into_mssql_alerts env (mssql_table j)
                  (r0 :: data') s2) as [Hi1 Hi2].
    destruct (insert_into_mssql_async env (mssql_table j) (r0 :: data') s2)
      as [[[]|e] s3]; cbn [fst snd] in Hi1, Hi2; run_step;
      by rewrite <- Hi1, <- Hi2.
  - run_step. done.
Qed.

(** X15: the Firebird worker checks staleness on the watermark of its
    destination.  On a destination that cannot be read or holds no
    timestamp, with nothing cached, that watermark is 1900-01-01: the
    first iteration submits a staleness alert about the destination
    table, marks it as notified for 1900-01-01 and asks the source for
    every row of its object. *)
Theorem firebird_first_cycle_alerts cfg env j s :
  cache_of s !! mssql_table j = None ->
  env_dest_read_fails env = true
  \/ select_max_rectime (visible (dest s)) = None ->
  seconds (notification_timeout cfg) < env_now (env_sur env) - EPOCH_1900 ->
  sent_notifications (glob s) !! mssql_table j = None ->
  let s' := (run_sync_firebird_cycle cfg env j s).2 in
  wm_read env (mssql_table j) true s = EPOCH_1900
  /\ submitted (glob s')
     = submitted (glob s)
       ++ [mkAlert (mssql_table j) (notification_timeout cfg / 3600)]
  /\ sent_notifications (glob s') !! mssql_table j
     = Some (true, EPOCH_1900)
  /\ (env_source_fetch_fails env = false ->
      get_firebird_data env (wm_read env (mssql_table j) true s) j
      = Some (select_delta_firebird EPOCH_1900 (objid_filter j)
                (env_source env))).
Proof.
  intros Hmiss Hread Hstale Hnew. cbv zeta.
  assert (wm_read env (mssql_table j) true s = EPOCH_1900) as Hwm.
  { unfold wm_read, read_result, get_last_sync_time_async,
      get_cached_rectime. rewrite Hmiss. cbn.
    destruct Hread as [->| ->]; [done|].
    by destruct (env_dest_read_fails env). }
  pose proof (firebird_cycle_alerts cfg env j s) as Hpair.
  cbv zeta in Hpair.
  destruct (run_sync_firebird_cycle cfg env j s) as [r s'].
  destruct Hpair as [Hsn Hsub]. cbn [snd]. rewrite Hsn, Hsub, Hwm.
  split; [done|].
  destruct (NotifyFacts.check_logic_cases cfg (env_sur env) (mssql_table j)
              EPOCH_1900 (glob s)) as [(_ & Hs & Hb)|(Hc & _)].
  - unfold Notify.check_and_notify_async. rewrite Hs, Hb.
    split; [done|]. split; [by rewrite lookup_insert_eq|].
    intros Hf. unfold get_firebird_data. by rewrite Hf.
  - exfalso. unfold Notify.alert_sent, Notify.observe, Notify.stale in Hc.
    rewrite Hnew, lookup_insert_eq in Hc. cbn in Hc.
    rewrite andb_true_r in Hc. apply Z.ltb_ge in Hc. lia.
Qed.

Lemma firebird_first_cycle_alerts_witness :
  wm_read env_A (mssql_table job_A_firebird) true
          (mkSys world_0 (mkDb [] [])) = EPOCH_1900
  /\ submitted (glob (run_sync_firebird_cycle config_C env_A job_A_firebird
                        (mkSys world_0 (mkDb [] []))).2)
     = submitted (glob (mkSys world_0 (mkDb [] [])))
       ++ [mkAlert (mssql_table job_A_firebird)
                   (notification_timeout config_C / 3600)]
  /\ sent_notifications
       (glob (run_sync_firebird_cycle config_C env_A job_A_firebird
                (mkSys world_0 (mkDb [] []))).2)
     !! mssql_table job_A_firebird
     = Some (true, EPOCH_1900)
  /\ (env_source_fetch_fails env_A = false ->
      get_firebird_data env_A
        (wm_read env_A (mssql_table job_A_firebird) true
                 (mkSys world_0 (mkDb [] []))) job_A_firebird
      = Some (select_delta_firebird EPOCH_1900
                (objid_filter job_A_firebird) (env_source env_A))).
Proof.
  apply (firebird_first_cycle_alerts config_C env_A job_A_firebird
           (mkSys world_0 (mkDb [] []))).
  - reflexivity.
  - right. reflexivity.
  - reflexivity.
  - reflexivity.
Defined.

End FirebirdAlertFacts.

(* ================================================================== *)
(** ** A duplicate in the delta of the DB-to-DB worker *)

Module BlockedFacts.
Import Cache Db Sync Props DbFacts SyncFacts StatusFacts Batch BatchFacts
       Loop.

(** A read that finds the table in the cache. *)
Lemma read_watermark_hit env table s e :
  cache_of s !! table = Some e ->
  wm_read env table true s = rectime e
  /\ cache_read env table true s = cache_of s.
Proof.
  intros Hc.
  unfold wm_read, cache_read, read_result, get_last_sync_time_async,
    get_cached_rectime. by rewrite Hc.
Qed.

(** The body of a DB-to-DB iteration whose delta holds a row that the
    destination already has. *)
Lemma mssql_body_duplicate cfg env j s e r0 :
  cache_of s !! mssql_cache_key j = Some e ->
  env_source_max_fails env = false ->
  env_source_fetch_fails env = false ->
  env_dest_write_fails env = false ->
  pending (dest s) = [] ->
  r0 ∈ select_delta_ordered (rectime e) (env_source env) ->
  has_key (row_key r0) (committed (dest s)) = true ->
  exists s1,
    run_sync_mssql_body cfg env j s = (Raised IntegrityError, s1)
    /\ cache_of s1 = cache_of s
    /\ committed (dest s1) = committed (dest s).
Proof.
  intros Hc Hmax Hfetch Hwrite Hp Hr0 Hdup.
  destruct (read_watermark_hit env (mssql_cache_key j) s e Hc)
    as [Hwm Hcr].
  destruct (read_watermark_run env (mssql_cache_key j) true s)
    as (s1 & Hread & Hc1 & Hd1).
  rewrite Hwm in Hread. rewrite Hcr in Hc1.
  unfold run_sync_mssql_body. run_monad. rewrite Hread, Hmax, Hfetch.
  cbv beta iota.
  destruct (select_delta_ordered (rectime e) (env_source env))
    as [|r1 rows'] eqn:Hrows; [by apply elem_of_nil in Hr0|].
  cbn [dest glob]. rewrite Hwrite.
  pose proof (executemany_accepted (r1 :: rows') (dest s1)) as Hex.
  destruct (executemany (r1 :: rows') (dest s1)) as [[[]|e'] d'].
  - exfalso. destruct Hex as [Hacc _].
    rewrite <- Hacc in Hr0. apply accepted_new in Hr0.
    rewrite Hd1 in Hr0. unfold visible in Hr0.
    rewrite Hp, app_nil_r in Hr0. congruence.
  - destruct Hex as (-> & Hcom & _). eexists. split; [reflexivity|].
    cbn [dest glob]. split; [by cache_simpl|]. by rewrite Hcom, Hd1.
Qed.

(** One cycle of the blocked worker. *)
Lemma mssql_cycle_duplicate cfg env j s e r0 :
  cache_of s !! mssql_cache_key j = Some e ->
  env_source_max_fails env = false ->
  env_source_fetch_fails env = false ->
  env_dest_write_fails env = false ->
  pending (dest s) = [] ->
  r0 ∈ select_delta_ordered (rectime e) (env_source env) ->
  has_key (row_key r0) (committed (dest s)) = true ->
  let '(r, s') := run_sync_mssql_cycle cfg env j s in
  r = Ok tt
  /\ dest s' = dest s
  /\ cache_of s' = cache_of s
  /\ task_status (glob s') !! mssql_task_name j
     = Some (mkStatus false None (Some IntegrityError)
               (env_now (env_sur env))).
Proof.
  intros Hc Hmax Hfetch Hwrite Hp Hr0 Hdup.
  destruct (mssql_body_duplicate cfg env j s e r0 Hc Hmax Hfetch Hwrite Hp
              Hr0 Hdup) as (s1 & Hbody & Hc1 & Hcom1).
  unfold run_sync_mssql_cycle, try_except. rewrite Hbody.
  pose proof (worker_handler_status env (mssql_task_name j) IntegrityError
                s1) as Hst.
  destruct (worker_handler_run env (mssql_task_name j) IntegrityError s1)
    as (s2 & Hrun & Hc2 & Hd2).
  rewrite Hrun in Hst |- *. cbn [snd] in Hst.
  split; [done|]. split.
  { rewrite Hd2, Hcom1. destruct (dest s). cbn in *. by rewrite Hp. }
  split; [by rewrite Hc2|]. by rewrite Hst, lookup_insert_eq.
Qed.

(** X16: a duplicate blocks the DB-to-DB worker for good.  When the
    watermark is cached and, at every iteration, the delta holds a row
    whose key the destination already has, every iteration ends in the
    handler with an integrity error: the task is reported unhealthy, and
    after any number of iterations the destination and the cache are
    what they were, so that no later row of the source is ever copied. *)
Theorem mssql_duplicate_blocks_worker cfg j e passes s :
  cache_of s !! mssql_cache_key j = Some e ->
  pending (dest s) = [] ->
  Forall (fun p =>
            env_source_max_fails (pass_env p) = false
            /\ env_source_fetch_fails (pass_env p) = false
            /\ env_dest_write_fails (pass_env p) = false
            /\ exists r0,
                 r0 ∈ select_delta_ordered (rectime e)
                        (env_source (pass_env p))
                 /\ has_key (row_key r0) (committed (dest s)) = true)
         passes ->
  let s' := after_cycles (fun env => run_sync_mssql_cycle cfg env j)
              passes s in
  dest s' = dest s
  /\ cache_of s' = cache_of s
  /\ (forall p, last passes = Some p ->
        task_status (glob s') !! mssql_task_name j
        = Some (mkStatus false None (Some IntegrityError)
                  (env_now (env_sur (pass_env p))))).
Proof.
  intros Hc Hp Hall. cbv zeta. unfold after_cycles.
  revert s Hc Hp Hall. induction passes as [|p passes IH];
    intros s Hc Hp Hall.
  - cbn. split; [done|]. split; [done|]. by intros p [=].
  - apply Forall_cons in Hall
      as [(Hmax & Hfetch & Hwrite & r0 & Hr0 & Hdup) Hall].
    pose proof (mssql_cycle_duplicate cfg (pass_env p) j s e r0 Hc Hmax
                  Hfetch Hwrite Hp Hr0 Hdup) as Hcycle.
    cbn [foldl].
    destruct (run_sync_mssql_cycle cfg (pass_env p) j s) as [r s1].
    destruct Hcycle as (_ & Hd1 & Hc1 & Hst1). cbn [snd].
    destruct (IH s1) as (Hd' & Hc' & Hst').
    { by rewrite Hc1. }
    { by rewrite Hd1. }
    { by rewrite Hd1. }
    split; [by rewrite Hd', Hd1|]. split; [by rewrite Hc', Hc1|].
    intros q Hq. destruct passes as [|p' passes'].
    + cbn in Hq. injection Hq as <-. done.
    + apply Hst'. done.
Qed.

Lemma mssql_duplicate_blocks_worker_witness :
  dest (after_cycles (fun env => run_sync_mssql_cycle config_C env job_A)
          [mkPass env_A false; mkPass env_A false] sys_B)
  = dest sys_B
  /\ cache_of (after_cycles
                 (fun env => run_sync_mssql_cycle config_C env job_A)
                 [mkPass env_A false; mkPass env_A false] sys_B)
     = cache_of sys_B
  /\ (forall p, last [mkPass env_A false; mkPass env_A false] = Some p ->
        task_status
          (glob (after_cycles
                   (fun env => run_sync_mssql_cycle config_C env job_A)
                   [mkPass env_A false; mkPass env_A false] sys_B))
        !! mssql_task_name job_A
        = Some (mkStatus false None (Some IntegrityError)
                  (env_now (env_sur (pass_env p))))).
Proof.
  apply (mssql_duplicate_blocks_worker config_C job_A
           (mkEntry (t_2025 0) (t_2025 0))
           [mkPass env_A false; mkPass env_A false] sys_B).
  - reflexivity.
  - reflexivity.
  - repeat constructor; exists (row_at (t_2025 10));
      (split; [|reflexivity]); vm_compute;
      apply list_elem_of_further, list_elem_of_here.
Defined.

End BlockedFacts.

(* ================================================================== *)
(** ** Saving a TC2 frame *)

Module Tc2SaveFacts.
Import Cache Db Sync Props DbFacts SyncFacts Batch BatchFacts Tc2Save.

Lemma frame_rows_rectime c df r :
  r ∈ frame_rows c df -> exists t, RECTIME r = Some t.
Proof.
  unfold frame_rows. intros (x & _ & Hx)%list_elem_of_omap.
  destruct (check_datetime x) as [t|]; [|done].
  cbn in Hx. injection Hx as <-. by exists t.
Qed.

Lemma foldl_step_max_rectime rows : forall acc,
  foldl step_max_rectime acc rows = max_opt acc (select_max_rectime rows).
Proof.
  induction rows as [|r rows IH]; intros acc; cbn.
  - by destruct acc.
  - rewrite IH, step_max_rectime_max_opt. apply max_opt_assoc.
Qed.

Lemma accepted_elem_of present batch r :
  r ∈ accepted present batch -> r ∈ batch.
Proof.
  revert present. induction batch as [|r0 rs IH]; intros present; cbn.
  - done.
  - destruct (has_key (row_key r0) present).
    + intros Hin. apply list_elem_of_further. by apply (IH present).
    + intros [->|Hin]%elem_of_cons; [apply list_elem_of_here|].
      apply list_elem_of_further. by apply (IH (present ++ [r0])).
Qed.

(** The fallback loop adds the accepted rows, counts them and keeps
    their greatest timestamp. *)
Lemma insert_each_tc2_accepted rs : forall n m d,
  insert_each_tc2 rs n m d
  = (Ok ((n + length (accepted (visible d) rs))%nat,
         foldl step_max_rectime m (accepted (visible d) rs)),
     mkDb (committed d) (pending d ++ accepted (visible d) rs)).
Proof.
  induction rs as [|r rs IH]; intros n m d;
    cbn [insert_each_tc2 accepted].
  - cbn. rewrite app_nil_r, Nat.add_0_r. by destruct d.
  - run_monad. unfold execute_insert.
    destruct (has_key (row_key r) (visible d)).
    + cbn [fst snd]. by rewrite IH.
    + cbn [fst snd]. rewrite IH. unfold visible.
      cbn [committed pending length foldl].
      rewrite <- !app_assoc. cbn [app]. do 3 f_equal. lia.
Qed.

(** X17: [save_tc2_to_sqlserver_async] never raises and reports what it
    added.  While the connection holds, the table gains the rows of the
    frame, in order, whose key was not there yet, with nothing left
    uncommitted; the count returned is the number of rows gained and the
    timestamp returned is the greatest among them, [None] exactly when
    nothing was gained.  When the connection breaks it returns
    [(0, None)] and the table is as before. *)
Theorem save_tc2_reports_rows_added write_fails c df d :
  pending d = [] ->
  let rows := frame_rows c (default [] df) in
  let kept := accepted (committed d) rows in
  exists n mx d',
    save_tc2_to_sqlserver_async write_fails c df d = (Ok (n, mx), d')
    /\ (write_fails = false ->
        d' = mkDb (committed d ++ kept) []
        /\ n = length kept
        /\ mx = select_max_rectime kept
        /\ (mx = None <-> kept = [])
        /\ (forall t, mx = Some t -> greatest_rectime t kept))
    /\ (write_fails = true -> n = 0%nat /\ mx = None /\ d' = d).
Proof.
  intros Hp rows kept.
  assert (visible d = committed d) as Hvis.
  { unfold visible. by rewrite Hp, app_nil_r. }
  assert (forall ks, ks = kept ->
            (select_max_rectime ks = None <-> ks = [])
            /\ (forall t, select_max_rectime ks = Some t ->
                          greatest_rectime t ks)) as Hmax.
  { intros ks ->. split.
    - rewrite CacheFacts.select_max_rectime_none. split.
      + intros Hnone. destruct kept as [|r0 kept'] eqn:Hk; [done|].
        assert (r0 ∈ rows) as Hin.
        { apply (accepted_elem_of (committed d)). fold kept.
          rewrite Hk. apply list_elem_of_here. }
        apply frame_rows_rectime in Hin as [t Ht].
        rewrite (Hnone r0 (or_introl eq_refl)) in Ht. done.
      + by intros -> r [].
    - intros t. apply CacheFacts.select_max_rectime_some. }
  assert (save_tc2_to_sqlserver_async write_fails c df d
          = if write_fails
            then (Ok (0%nat, None), d)
            else (Ok (length kept, select_max_rectime kept),
                  mkDb (committed d ++ kept) [])) as ->.
  { unfold save_tc2_to_sqlserver_async. subst kept rows.
    destruct df as [[|r0 df]|]; unfold default, from_option, id.
    - cbn. destruct write_fails; [done|]. by rewrite db_no_pending.
    - destruct (frame_rows c (r0 :: df)) as [|x rows'] eqn:Hrows.
      { cbn. destruct write_fails; [done|]. by rewrite db_no_pending. }
      run_monad. destruct write_fails; [done|].
      pose proof (executemany_accepted (x :: rows') d) as Hex.
      rewrite Hvis in Hex.
      destruct (executemany (x :: rows') d) as [[[]|e] d1].
      + destruct Hex as [Hacc ->]. rewrite Hacc, Hp.
        cbv beta iota zeta. rewrite batch_max_rectime_select.
        unfold commit, visible. cbn [committed pending app]. done.
      + destruct Hex as (-> & Hcom & _). cbv beta iota zeta.
        rewrite insert_each_tc2_accepted.
        assert (visible (rollback d1) = committed d) as Hrb.
        { unfold visible, rollback. cbn. by rewrite Hcom, app_nil_r. }
        rewrite Hrb. unfold commit, visible, rollback.
        cbv beta iota zeta. cbn [committed pending app Nat.add].
        rewrite Hcom, foldl_step_max_rectime. cbn [max_opt]. done.
    - cbn. destruct write_fails; [done|]. by rewrite db_no_pending. }
  destruct write_fails.
  - eexists _, _, _. split; [reflexivity|]. split; [done|]. done.
  - eexists _, _, _. split; [reflexivity|]. split; [|done].
    intros _. destruct (Hmax kept eq_refl) as [Hn Hs]. done.
Qed.

Lemma save_tc2_reports_rows_added_witness :
  let df := Some [mkReading (Some (t_2025 5)) (Some 70) (Some 50) None None
                            None None None None None None;
                  mkReading None None None None None None None None None
                            None None] in
  let d := mkDb [] [] in
  let rows := frame_rows (mkSaveConfig 1 1 1) (default [] df) in
  let kept := accepted (committed d) rows in
  exists n mx d',
    save_tc2_to_sqlserver_async false (mkSaveConfig 1 1 1) df d
    = (Ok (n, mx), d')
    /\ (false = false ->
        d' = mkDb (committed d ++ kept) []
        /\ n = length kept
        /\ mx = select_max_rectime kept
        /\ (mx = None <-> kept = [])
        /\ (forall t, mx = Some t -> greatest_rectime t kept))
    /\ (false = true -> n = 0%nat /\ mx = None /\ d' = d).
Proof.
  apply (save_tc2_reports_rows_added false (mkSaveConfig 1 1 1)
           (Some [mkReading (Some (t_2025 5)) (Some 70) (Some 50) None None
                            None None None None None None;
                  mkReading None None None None None None None None None
                            None None])
           (mkDb [] [])).
  reflexivity.
Defined.

End Tc2SaveFacts.

(* ================================================================== *)
(** ** The values bound to the INSERT of the Firebird worker *)

Module RowsFacts.
Import Rows.

Lemma cell_not_none row i : cell row i <> PNone.
Proof. unfold cell. by destruct (row !! i) as [[]|]. Qed.

Lemma cell_blank row i : cell row i = blank (default PNone (row !! i)).
Proof. unfold cell, blank. by destruct (row !! i) as [[]|]. Qed.

Lemma fill_lookup_notin row columns col : forall idx d,
  col ∉ columns -> fill row columns idx d !! col = d !! col.
Proof.
  induction columns as [|c columns IH]; intros idx d Hnot; [done|].
  apply not_elem_of_cons in Hnot as [Hne Hnot]. cbn.
  rewrite IH by done. by rewrite lookup_insert_ne.
Qed.

Lemma fill_lookup_nodup row columns col : forall idx d j,
  NoDup columns -> columns !! j = Some col ->
  fill row columns idx d !! col = Some (cell row (idx + j)).
Proof.
  induction columns as [|c columns IH]; intros idx d j Hnd Hj; [done|].
  apply NoDup_cons in Hnd as [Hc Hnd]. cbn. destruct j as [|j].
  - cbn in Hj. injection Hj as ->.
    rewrite fill_lookup_notin by done.
    by rewrite lookup_insert_eq, Nat.add_0_r.
  - cbn in Hj. rewrite (IH (S idx) _ j) by done. do 2 f_equal. lia.
Qed.

Lemma fill_no_none row columns : forall idx d,
  (forall k v, d !! k = Some v -> v <> PNone) ->
  forall k v, fill row columns idx d !! k = Some v -> v <> PNone.
Proof.
  induction columns as [|c columns IH]; intros idx d Hd; [done|].
  cbn. apply IH. intros k v. destruct (decide (k = c)) as [->|Hne].
  - rewrite lookup_insert_eq. intros [= <-]. apply cell_not_none.
  - rewrite lookup_insert_ne by done. apply Hd.
Qed.

Lemma process_row_lookup row columns col :
  process_row row columns !! col
  = if bool_decide (col = "ObjectId")
    then Some (default (PInt 1) (fill row columns 0 ∅ !! "OBJID"))
    else if bool_decide (col = "OBJID") then None
    else fill row columns 0 ∅ !! col.
Proof.
  unfold process_row. case_bool_decide as H1.
  - subst col. by rewrite lookup_insert_eq.
  - rewrite lookup_insert_ne by done. case_bool_decide as H2.
    + subst col. by rewrite lookup_delete_eq.
    + by rewrite lookup_delete_ne.
Qed.

Lemma insert_columns_spec columns :
  "ObjectId" ∈ insert_columns columns
  /\ (NoDup columns -> NoDup (insert_columns columns))
  /\ ("OBJID" ∈ insert_columns columns <-> "OBJID" ∈ columns)
  /\ (forall k col, columns !! k = Some col ->
                    insert_columns columns !! k = Some col).
Proof.
  unfold insert_columns. case_bool_decide as H.
  - split; [done|]. split; [done|]. split; done.
  - split; [apply elem_of_app; right; apply list_elem_of_here|].
    split.
    { intros Hnd. apply NoDup_app. split; [done|].
      split; [|apply NoDup_singleton].
      intros x Hx Hx'. apply list_elem_of_singleton in Hx' as ->. done. }
    split.
    { rewrite elem_of_app, list_elem_of_singleton.
      split; [intros [?|?]; [done|discriminate]|by left]. }
    intros k col Hk. by apply lookup_app_l_Some.
Qed.

(** The tuple bound for a row of 25 values on the fixed columns. *)
Lemma row_values_fixed v0 v1 v2 v3 v4 v5 v6 v7 v8 v9 v10 v11 v12 v13 v14
      v15 v16 v17 v18 v19 v20 v21 v22 v23 v24 :
  row_values [v0; v1; v2; v3; v4; v5; v6; v7; v8; v9; v10; v11; v12; v13;
              v14; v15; v16; v17; v18; v19; v20; v21; v22; v23; v24]
             fixed_columns
  = [blank v2; blank v1; PStr EmptyString; blank v3; blank v4; blank v5;
     blank v6; blank v7; blank v8; blank v9; blank v10; blank v11;
     blank v12; blank v13; blank v14; blank v15; blank v16; blank v17;
     blank v18; blank v19; blank v20; blank v21; blank v22; blank v23;
     blank v24].
Proof. vm_compute. reflexivity. Qed.

(** X18: the values bound to the INSERT for one fetched row.  There is
    one value per column, the column ['ObjectId'] included, and none is
    [None]; the column ['OBJID'] is always bound to the empty string;
    ['ObjectId'] is bound to 1 when the row has no ['OBJID'] column and
    otherwise to the value of that column; every other column keeps the
    value at its own position, the empty string when that value is
    [None] or the row is too short. *)
Theorem row_values_spec (row : list pyval) (columns : list string) :
  let cols := insert_columns columns in
  let vals := row_values row columns in
  length vals = length cols
  /\ "ObjectId" ∈ cols
  /\ Forall (fun v => v <> PNone) vals
  /\ (forall i, cols !! i = Some "OBJID" ->
                vals !! i = Some (PStr EmptyString))
  /\ ("OBJID" ∉ columns ->
      forall i, cols !! i = Some "ObjectId" -> vals !! i = Some (PInt 1))
  /\ (NoDup columns ->
      forall k, columns !! k = Some "OBJID" ->
      forall i, cols !! i = Some "ObjectId" ->
                vals !! i = Some (cell row k))
  /\ (NoDup columns ->
      forall i col, cols !! i = Some col ->
                    col <> "OBJID" -> col <> "ObjectId" ->
                    vals !! i = Some (cell row i)).
Proof.
  cbv zeta. unfold row_values.
  destruct (insert_columns_spec columns) as (Hobj & Hnd & Hobjid & Hpre).
  set (cols := insert_columns columns) in *.
  split; [by rewrite length_map|]. split; [done|].
  split.
  { apply Forall_forall. intros v Hv.
    apply list_elem_of_fmap in Hv as (col & -> & _).
    rewrite process_row_lookup.
    case_bool_decide; [|case_bool_decide]; cbn.
    - destruct (fill row cols 0 ∅ !! "OBJID") as [w|] eqn:Hw; cbn; [|done].
      by apply (fill_no_none row cols 0 ∅) in Hw.
    - done.
    - destruct (fill row cols 0 ∅ !! col) as [w|] eqn:Hw; cbn; [|done].
      by apply (fill_no_none row cols 0 ∅) in Hw. }
  split.
  { intros i Hi. rewrite list_lookup_fmap, Hi. cbn.
    by rewrite process_row_lookup. }
  split.
  { intros Hno i Hi. rewrite list_lookup_fmap, Hi. cbn.
    rewrite process_row_lookup. cbn.
    rewrite fill_lookup_notin; [done|]. by rewrite Hobjid. }
  split.
  { intros Hnodup k Hk i Hi. rewrite list_lookup_fmap, Hi. cbn.
    rewrite process_row_lookup. cbn.
    by rewrite (fill_lookup_nodup row cols "OBJID" 0 ∅ k (Hnd Hnodup)
                  (Hpre k _ Hk)). }
  intros Hnodup i col Hi Hne1 Hne2. rewrite list_lookup_fmap, Hi. cbn.
  rewrite process_row_lookup.
  rewrite bool_decide_eq_false_2 by done.
  rewrite bool_decide_eq_false_2 by done.
  by rewrite (fill_lookup_nodup row cols col 0 ∅ i (Hnd Hnodup) Hi).
Qed.

(** X19: on the fixed columns the tuple bound to the INSERT is the
    record that the workers' model of [process_row] yields, with NULL
    bound as the empty string. *)
Theorem row_values_fixed_columns (r : Db.row) :
  length (Db.measures r) = 21%nat ->
  row_values (tuple_of r) fixed_columns
  = map blank (tuple_of (Sync.process_row r)).
Proof.
  destruct r as [oid id objid rt ms]. cbn [Db.measures]. intros Hlen.
  do 21 (destruct ms as [|? ms]; [discriminate|]).
  destruct ms; [|discriminate].
  unfold tuple_of, Sync.process_row.
  cbn [Db.ObjectId Db.ID Db.OBJID Db.RECTIME Db.measures map].
  by rewrite row_values_fixed.
Qed.

Lemma row_values_fixed_columns_witness :
  row_values
    (tuple_of (Db.mkRow None (Some 7) (Some 3) (Some 5)
                 (replicate 21 (Some 1)))) fixed_columns
  = map blank
      (tuple_of (Sync.process_row
                   (Db.mkRow None (Some 7) (Some 3) (Some 5)
                      (replicate 21 (Some 1))))).
Proof.
  apply (row_values_fixed_columns
           (Db.mkRow None (Some 7) (Some 3) (Some 5)
              (replicate 21 (Some 1)))).
  reflexivity.
Defined.

End RowsFacts.

(* ================================================================== *)
(** ** The engine pool *)

Module PoolFacts.
Import Stdlib.Strings.Ascii.
Import Pool.

Lemma append_nil_l (s : string) : "" +:+ s = s.
Proof. reflexivity. Qed.

Lemma append_cons a (s t : string) : String a s +:+ t = String a (s +:+ t).
Proof. reflexivity. Qed.

(** A name without ['|'] ends at the first ['|'] of a key. *)
Lemma append_bar_inj s1 : forall s2 r1 r2,
  bar_free s1 = true -> bar_free s2 = true ->
  s1 +:+ "|" +:+ r1 = s2 +:+ "|" +:+ r2 ->
  s1 = s2 /\ r1 = r2.
Proof.
  induction s1 as [|a s1 IH]; intros [|b s2] r1 r2 H1 H2 Heq;
    repeat first [rewrite append_nil_l in Heq
                 |rewrite append_cons in Heq]; cbn in H1, H2.
  - by injection Heq as ->.
  - injection Heq as <- _. done.
  - injection Heq as -> _. done.
  - injection Heq as -> Heq.
    apply andb_true_iff in H1 as [_ H1].
    apply andb_true_iff in H2 as [_ H2].
    destruct (IH s2 r1 r2 H1 H2) as [-> ->]; [exact Heq|done].
Qed.

Lemma pool_key_inj s1 d1 u1 s2 d2 u2 :
  bar_free s1 = true -> bar_free d1 = true ->
  bar_free s2 = true -> bar_free d2 = true ->
  pool_key s1 d1 u1 = pool_key s2 d2 u2 ->
  s1 = s2 /\ d1 = d2 /\ u1 = u2.
Proof.
  intros Hs1 Hd1 Hs2 Hd2 Heq. unfold pool_key in Heq.
  apply append_bar_inj in Heq as [-> Heq]; [|done|done].
  apply append_bar_inj in Heq as [-> ->]; done.
Qed.

Lemma same_target_key r q :
  request_ok r -> request_ok q ->
  same_target r q = true <-> request_key q = request_key r.
Proof.
  intros [Hs Hd] [Hs' Hd']. unfold same_target, request_key.
  rewrite bool_decide_eq_true. split.
  - by intros (-> & -> & ->).
  - intros Heq. apply pool_key_inj in Heq as (-> & -> & ->); done.
Qed.

(** What the pool holds for a target after a sequence of calls. *)
Lemma after_requests_lookup r reqs : forall engines,
  request_ok r -> Forall request_ok reqs ->
  after_requests reqs engines !! request_key r
  = match engines !! request_key r with
    | Some e => Some e
    | None =>
        (fun pwd => mkEngine (make_connection_string (req_server r)
                                (req_database r) (req_uid r) pwd))
          <$> first_password r reqs
    end.
Proof.
  induction reqs as [|q reqs IH]; intros engines Hr Hall.
  - cbn. by destruct (engines !! request_key r).
  - apply Forall_cons in Hall as [Hq Hall].
    unfold after_requests in *. cbn [foldl]. rewrite IH by done.
    unfold get_engine, first_password. cbn [List.find].
    fold (request_key q).
    pose proof (same_target_key r q Hr Hq) as Hsame.
    destruct (same_target r q) eqn:Ht.
    + pose proof (proj1 Hsame eq_refl) as Hk. rewrite Hk.
      destruct (engines !! request_key r) as [e|] eqn:He; cbn.
      * by rewrite He.
      * rewrite lookup_insert_eq. cbn.
        unfold same_target in Ht. apply bool_decide_eq_true in Ht
          as (-> & -> & ->). done.
    + assert (request_key q <> request_key r) as Hne.
      { intros Hk. apply Hsame in Hk. congruence. }
      destruct (engines !! request_key q) as [e|]; cbn; [done|].
      by rewrite lookup_insert_ne.
Qed.

(** X20: the pool keeps the credentials first used for a target.  For
    servers and databases whose names hold no ['|'], the engine that
    [get_engine] returns after any sequence of calls is the one for the
    same server, database and user, created with the password of the
    first call made for them; a later call with another password
    changes nothing, until [dispose_all] empties the pool. *)
Theorem pool_keeps_first_credentials (reqs : list request) (r : request) :
  Forall request_ok reqs ->
  request_ok r ->
  let engines := after_requests reqs ∅ in
  let '(e, engines') :=
    get_engine (req_server r) (req_database r) (req_uid r) (req_pwd r)
               engines in
  connection_string e
  = make_connection_string (req_server r) (req_database r) (req_uid r)
      (default (req_pwd r) (first_password r reqs))
  /\ engines' = after_requests (reqs ++ [r]) ∅
  /\ (first_password r reqs <> None -> engines' = engines)
  /\ (get_engine (req_server r) (req_database r) (req_uid r) (req_pwd r)
                 (dispose_all engines')).1
     = mkEngine (make_connection_string (req_server r) (req_database r)
                   (req_uid r) (req_pwd r)).
Proof.
  intros Hall Hr. cbv zeta.
  pose proof (after_requests_lookup r reqs ∅ Hr Hall) as Hl.
  rewrite lookup_empty in Hl.
  assert (after_requests (reqs ++ [r]) ∅
          = (get_engine (req_server r) (req_database r) (req_uid r)
               (req_pwd r) (after_requests reqs ∅)).2) as Happ.
  { unfold after_requests. by rewrite foldl_app. }
  rewrite Happ. unfold get_engine at 1 2. fold (request_key r).
  rewrite Hl. unfold get_engine, dispose_all. rewrite lookup_empty.
  destruct (first_password r reqs) as [pwd|]; cbn; done.
Qed.

Lemma pool_keeps_first_credentials_witness :
  let r := mkRequest "srv" "scada" "web" "new" in
  let engines := after_requests [mkRequest "srv" "scada" "web" "old";
                                 mkRequest "srv" "other" "web" "pw"] ∅ in
  let '(e, engines') :=
    get_engine (req_server r) (req_database r) (req_uid r) (req_pwd r)
               engines in
  connection_string e
  = make_connection_string (req_server r) (req_database r) (req_uid r)
      (default (req_pwd r)
         (first_password r [mkRequest "srv" "scada" "web" "old";
                            mkRequest "srv" "other" "web" "pw"]))
  /\ engines' = after_requests ([mkRequest "srv" "scada" "web" "old";
                                 mkRequest "srv" "other" "web" "pw"]
                                ++ [r]) ∅
  /\ (first_password r [mkRequest "srv" "scada" "web" "old";
                        mkRequest "srv" "other" "web" "pw"] <> None ->
      engines' = engines)
  /\ (get_engine (req_server r) (req_database r) (req_uid r) (req_pwd r)
                 (dispose_all engines')).1
     = mkEngine (make_connection_string (req_server r) (req_database r)
                   (req_uid r) (req_pwd r)).
Proof.
  apply (pool_keeps_first_credentials
           [mkRequest "srv" "scada" "web" "old";
            mkRequest "srv" "other" "web" "pw"]
           (mkRequest "srv" "scada" "web" "new")).
  - repeat constructor.
  - split; reflexivity.
Defined.

End PoolFacts.

(* ================================================================== *)
(** ** The columns of the overview page *)

Module WebFacts.
Import Web.

Lemma column_order_NoDup : NoDup column_order.
Proof. apply (bool_decide_unpack _). by vm_compute. Qed.

Lemma str_le_total : Total str_le.
Proof. intros a b. apply String.leb_total. Qed.

(** X21: the overview page shows every column exactly once.  The list
    [ordered_columns] holds exactly the columns found, without
    repetition; it starts with the found columns of [column_order], in
    that order, and goes on with the others in ascending order. *)
Theorem ordered_columns_spec (all_columns : gset string) :
  let cols := ordered_columns all_columns in
  (forall col, col ∈ cols <-> col ∈ all_columns)
  /\ NoDup cols
  /\ length cols = size all_columns
  /\ (exists known rest,
        cols = known ++ rest
        /\ sublist known column_order
        /\ (forall col, col ∈ known <->
                        col ∈ column_order /\ col ∈ all_columns)
        /\ (forall col, col ∈ rest <->
                        (col ∉ column_order) /\ col ∈ all_columns)
        /\ Sorted str_le rest)
  /\ ("TABLE_NAME" ∈ all_columns -> cols !! 0%nat = Some "TABLE_NAME").
Proof.
  cbv zeta. unfold ordered_columns.
  set (known := filter (fun col => col ∈ all_columns) column_order).
  set (rest := merge_sort str_le
                 (elements (all_columns ∖ list_to_set column_order))).
  assert (forall col, col ∈ known <->
                      col ∈ column_order /\ col ∈ all_columns) as Hknown.
  { intros col. unfold known. rewrite list_elem_of_filter. tauto. }
  assert (forall col, col ∈ rest <->
                      (col ∉ column_order) /\ col ∈ all_columns) as Hrest.
  { intros col. unfold rest. rewrite merge_sort_Permutation.
    rewrite elem_of_elements, elem_of_difference, elem_of_list_to_set.
    tauto. }
  assert (NoDup (known ++ rest)) as Hnd.
  { apply NoDup_app. split; [apply NoDup_filter, column_order_NoDup|].
    split.
    - intros col Hk Hr. apply Hknown in Hk. apply Hrest in Hr. tauto.
    - unfold rest. rewrite merge_sort_Permutation. apply NoDup_elements. }
  assert (forall col, col ∈ known ++ rest <-> col ∈ all_columns) as Hin.
  { intros col. rewrite elem_of_app, Hknown, Hrest.
    destruct (decide (col ∈ column_order)); tauto. }
  split; [done|]. split; [done|]. split.
  { change (size all_columns) with (length (elements all_columns)).
    apply Permutation_length, NoDup_Permutation;
      [done|apply NoDup_elements|].
    intros col. rewrite Hin. by rewrite elem_of_elements. }
  split.
  { exists known, rest. split; [done|].
    split; [apply sublist_filter|]. split; [done|]. split; [done|].
    apply Sorted_merge_sort, str_le_total. }
  intros Htn. unfold known, column_order.
  rewrite filter_cons_True by done. done.
Qed.

End WebFacts.

(* ================================================================== *)
(** ** Files behind the watermark *)

Module Tc2SelectionFacts.
Import Tc2 Props.

Lemma date_of_mono t t' : t <= t' -> date_of t <= date_of t'.
Proof.
  intros Hle. unfold date_of, seconds. apply Z.div_le_mono; lia.
Qed.

(** X22: files dated before the day of the watermark are left alone.
    Once the watermark has reached a day later than the date in a file's
    name, the file worker never selects that file again on a later day,
    however far the watermark has moved on since and whatever the file's
    modification time and check history. *)
Theorem files_before_watermark_day_skipped c now st all_files f d w0 w :
  name_date f = Some d ->
  d < date_of w0 ->
  w0 <= w ->
  last_db_record st = Some w ->
  d <> date_of now ->
  ~ In f (files_to_process c now st all_files).
Proof.
  intros Hd Hlt Hle Hw Hday Hin.
  unfold files_to_process in Hin. apply List.filter_In in Hin as [_ Hsel].
  rewrite Hd in Hsel. apply andb_true_iff in Hsel as [_ Hsel].
  unfold should_process in Hsel.
  rewrite bool_decide_eq_false_2 in Hsel by done. rewrite Hw in Hsel.
  pose proof (date_of_mono w0 w Hle) as Hmono.
  destruct (Z.ltb_spec (date_of w) d); [lia|].
  rewrite bool_decide_eq_false_2 in Hsel by lia. done.
Qed.

Lemma files_before_watermark_day_skipped_witness :
  ~ In (mkFile "2025-12-20 TC-2.xlsx" (Some 20442) (seconds 1766500000))
       (files_to_process config_D (seconds 1766490000)
          (mkTc2State (Some (seconds 1766400000)) ∅)
          [mkFile "2025-12-20 TC-2.xlsx" (Some 20442)
                  (seconds 1766500000)]).
Proof.
  apply (files_before_watermark_day_skipped config_D (seconds 1766490000)
           (mkTc2State (Some (seconds 1766400000)) ∅)
           [mkFile "2025-12-20 TC-2.xlsx" (Some 20442)
                   (seconds 1766500000)]
           (mkFile "2025-12-20 TC-2.xlsx" (Some 20442)
                   (seconds 1766500000))
           20442 (seconds 1766300000) (seconds 1766400000)).
  - reflexivity.
  - reflexivity.
  - vm_compute. discriminate.
  - reflexivity.
  - vm_compute. discriminate.
Defined.

End Tc2SelectionFacts.

(* ================================================================== *)
(** ** Validation of the configuration *)

Module ConfigFacts.
Import Config.

Lemma app_eq_nil_iff {A} (l1 l2 : list A) :
  l1 ++ l2 = [] <-> l1 = [] /\ l2 = [].
Proof.
  split; [apply app_eq_nil|]. by intros [-> ->].
Qed.

(** The keys missing from an object are reported, in order. *)
Lemma check_keys_dict mk sec keys : forall errors,
  exists extra,
    check_keys mk (JDict sec) keys errors = inr (errors ++ extra)
    /\ (extra = [] <->
        forall key, key ∈ keys -> exists v, lookup_field key sec = Some v).
Proof.
  induction keys as [|key keys IH]; intros errors.
  - exists []. rewrite app_nil_r. split; [done|]. split; [|done].
    intros _ key Hin. by apply elem_of_nil in Hin.
  - cbn [check_keys contains ebind].
    destruct (lookup_field key sec) as [v|] eqn:Hk.
    + destruct (IH errors) as (extra & -> & Hiff). exists extra.
      split; [done|]. rewrite Hiff. split.
      * intros H k [->|Hin]%elem_of_cons; [by exists v|by apply H].
      * intros H k Hin. apply H. by apply list_elem_of_further.
    + destruct (IH (errors ++ [mk key])) as (extra & -> & _).
      exists (mk key :: extra). rewrite <- app_assoc.
      split; [done|]. split; [done|].
      intros H. destruct (H key (list_elem_of_here _ _)) as [v Hv].
      congruence.
Qed.

Lemma contains_dict fields key :
  contains (JDict fields) key
  = inr (match lookup_field key fields with Some _ => true
                                       | None => false end).
Proof. done. Qed.

Lemma check_sections_dict fields required : forall errors,
  (forall section keys v,
     (section, keys) ∈ required ->
     lookup_field section fields = Some v -> is_dict v) ->
  (forall section keys, (section, keys) ∈ required -> keys <> []) ->
  exists extra,
    check_sections (JDict fields) required errors = inr (errors ++ extra)
    /\ (extra = [] <->
        forall section keys key,
          (section, keys) ∈ required -> key ∈ keys ->
          has_key fields section key).
Proof.
  induction required as [|[section keys] required IH];
    intros errors Hshape Hne.
  - exists []. rewrite app_nil_r. split; [done|]. split; [|done].
    intros _ ? ? ? Hin. by apply elem_of_nil in Hin.
  - assert (forall errors', exists extra,
              check_sections (JDict fields) required errors'
              = inr (errors' ++ extra)
              /\ (extra = [] <->
                  forall section keys key,
                    (section, keys) ∈ required -> key ∈ keys ->
                    has_key fields section key)) as IH'.
    { intros errors'. apply IH.
      - intros s k v Hin. apply (Hshape s k v).
        by apply list_elem_of_further.
      - intros s k Hin. apply (Hne s k). by apply list_elem_of_further. }
    cbn [check_sections]. rewrite contains_dict. cbn [ebind getitem].
    destruct (lookup_field section fields) as [v|] eqn:Hsec.
    + destruct (Hshape section keys v (list_elem_of_here _ _) Hsec)
        as [sec ->]. cbn [ebind].
      destruct (check_keys_dict (MissingKey section) sec keys errors)
        as (extra1 & -> & Hiff1). cbn [ebind].
      destruct (IH' (errors ++ extra1)) as (extra2 & -> & Hiff2).
      exists (extra1 ++ extra2). rewrite <- app_assoc.
      split; [done|]. rewrite app_eq_nil_iff, Hiff1, Hiff2. split.
      * intros [H1 H2] s k key [[= -> ->]|Hin]%elem_of_cons Hkey.
        -- destruct (H1 key Hkey) as [x Hx]. by exists sec, x.
        -- by apply (H2 s k).
      * intros H. split.
        -- intros key Hkey.
           destruct (H section keys key (list_elem_of_here _ _) Hkey)
             as (sec' & x & Hs' & Hx).
           rewrite Hsec in Hs'. injection Hs' as <-. by exists x.
        -- intros s k key Hin. apply H. by apply list_elem_of_further.
    + destruct (IH' (errors ++ [MissingSection section]))
        as (extra & -> & _).
      exists (MissingSection section :: extra). rewrite <- app_assoc.
      split; [done|]. split; [done|]. intros H.
      destruct keys as [|key keys'].
      { by destruct (Hne section [] (list_elem_of_here _ _)). }
      destruct (H section (key :: keys') key (list_elem_of_here _ _)
                  (list_elem_of_here _ _)) as (sec & x & Hs & _).
      congruence.
Qed.

Lemma check_syncs_dicts mk keys syncs : forall i errors,
  Forall is_dict syncs ->
  exists extra,
    check_syncs mk keys syncs i errors = inr (errors ++ extra)
    /\ (extra = [] <->
        forall sync, sync ∈ syncs ->
        forall key, key ∈ keys ->
        exists sec v, sync = JDict sec /\ lookup_field key sec = Some v).
Proof.
  induction syncs as [|sync syncs IH]; intros i errors Hall.
  - exists []. rewrite app_nil_r. split; [done|]. split; [|done].
    intros _ ? Hin. by apply elem_of_nil in Hin.
  - apply Forall_cons in Hall as [[sec ->] Hall]. cbn [check_syncs].
    destruct (check_keys_dict (mk i) sec keys errors)
      as (extra1 & -> & Hiff1). cbn [ebind].
    destruct (IH (S i) (errors ++ extra1) Hall) as (extra2 & -> & Hiff2).
    exists (extra1 ++ extra2). rewrite <- app_assoc. split; [done|].
    rewrite app_eq_nil_iff, Hiff1, Hiff2. split.
    + intros [H1 H2] sync [->|Hin]%elem_of_cons key Hkey.
      * destruct (H1 key Hkey) as [x Hx]. by exists sec, x.
      * by apply H2.
    + intros H. split.
      * intros key Hkey.
        destruct (H (JDict sec) (list_elem_of_here _ _) key Hkey)
          as (sec' & x & [= <-] & Hx). by exists x.
      * intros sync Hin. apply H. by apply list_elem_of_further.
Qed.

Lemma check_sync_list_shaped name mk keys fields errors :
  (forall v, lookup_field name fields = Some v ->
             exists syncs, v = JList syncs /\ Forall is_dict syncs) ->
  exists extra,
    check_sync_list name mk keys (JDict fields) errors
    = inr (errors ++ extra)
    /\ (extra = [] <-> jobs_have fields name keys).
Proof.
  intros Hshape. unfold check_sync_list, jobs_have.
  rewrite contains_dict. cbn [ebind getitem].
  destruct (lookup_field name fields) as [v|] eqn:Hv.
  - destruct (Hshape v eq_refl) as (syncs & -> & Hall).
    cbn [ebind iterate].
    destruct (check_syncs_dicts mk keys syncs 0 errors Hall)
      as (extra & -> & Hiff).
    exists extra. split; [done|]. rewrite Hiff. split.
    + by intros H syncs' [= <-].
    + intros H. by apply H.
  - exists []. rewrite app_nil_r. split; [done|]. split; [|done].
    by intros _ syncs.
Qed.

Lemma check_tc2_shaped fields errors :
  (forall v, lookup_field "tc2_processor" fields = Some v -> is_dict v) ->
  exists extra,
    check_tc2 (JDict fields) errors = inr (errors ++ extra)
    /\ (extra = [] <->
        forall tc2 enabled,
          lookup_field "tc2_processor" fields = Some (JDict tc2) ->
          lookup_field "enabled" tc2 = Some enabled ->
          truthy enabled = true ->
          forall key, key ∈ REQUIRED_TC2_KEYS ->
                      exists v, lookup_field key tc2 = Some v).
Proof.
  intros Hshape. unfold check_tc2. rewrite contains_dict.
  cbn [ebind getitem].
  destruct (lookup_field "tc2_processor" fields) as [v|] eqn:Hv.
  - destruct (Hshape v eq_refl) as [tc2 ->]. cbn [ebind get].
    destruct (lookup_field "enabled" tc2) as [enabled|] eqn:Hen.
    + destruct (truthy enabled) eqn:Ht.
      * destruct (check_keys_dict Tc2MissingKey tc2 REQUIRED_TC2_KEYS
                    errors) as (extra & -> & Hiff).
        exists extra. split; [done|]. rewrite Hiff. split.
        -- intros H tc2' en' [= <-] Hen' _. done.
        -- intros H. by apply (H tc2 enabled).
      * exists []. rewrite app_nil_r. split; [done|]. split; [|done].
        intros _ tc2' en' [= <-] Hen'. rewrite Hen in Hen'.
        injection Hen' as <-. congruence.
    + cbn [truthy]. exists []. rewrite app_nil_r. split; [done|].
      split; [|done]. intros _ tc2' en' [= <-] Hen'. congruence.
  - exists []. rewrite app_nil_r. split; [done|]. split; [|done].
    intros _ tc2' en' [=].
Qed.

Lemma check_port_shaped fields errors :
  (forall v, lookup_field "web" fields = Some v -> is_dict v) ->
  exists extra,
    check_port (JDict fields) errors = inr (errors ++ extra)
    /\ (forall web, lookup_field "web" fields = Some (JDict web) ->
        (extra = [] <->
         isinstance_int (default JNull (lookup_field "port" web)) = true)).
Proof.
  intros Hshape. unfold check_port. rewrite contains_dict.
  cbn [ebind getitem].
  destruct (lookup_field "web" fields) as [v|] eqn:Hv.
  - destruct (Hshape v eq_refl) as [web ->]. cbn [ebind get].
    destruct (lookup_field "port" web) as [port|] eqn:Hp.
    + destruct (isinstance_int port) eqn:Hi.
      * exists []. rewrite app_nil_r. split; [done|].
        intros web' [= <-]. rewrite Hp. cbn. by rewrite Hi.
      * exists [PortNotNumber]. split; [done|].
        intros web' [= <-]. rewrite Hp. cbn. rewrite Hi. done.
    + cbn. exists [PortNotNumber]. split; [done|].
      intros web' [= <-]. rewrite Hp. done.
  - exists []. rewrite app_nil_r. split; [done|]. by intros web [=].
Qed.

Lemma check_positive_dict name err fields errors :
  exists extra,
    check_positive name err (JDict fields) errors = inr (errors ++ extra)
    /\ (extra = [] <->
        forall v, lookup_field name fields = Some v ->
                  isinstance_number v = true /\ le_zero v = false).
Proof.
  unfold check_positive. rewrite contains_dict. cbn [ebind getitem].
  destruct (lookup_field name fields) as [v|] eqn:Hv.
  - cbn [ebind].
    destruct (isinstance_number v) eqn:Hn; destruct (le_zero v) eqn:Hz;
      cbn [negb orb].
    + exists [err]. split; [done|]. split; [done|].
      intros H. destruct (H v eq_refl). congruence.
    + exists []. rewrite app_nil_r. split; [done|]. split; [|done].
      by intros _ v' [= <-].
    + exists [err]. split; [done|]. split; [done|].
      intros H. destruct (H v eq_refl). congruence.
    + exists [err]. split; [done|]. split; [done|].
      intros H. destruct (H v eq_refl). congruence.
  - exists []. rewrite app_nil_r. split; [done|]. split; [|done].
    by intros _ v'.
Qed.

Ltac in_list :=
  repeat first [apply list_elem_of_here | apply list_elem_of_further].

(** X23: on a configuration of the expected shape [validate_config]
    raises nothing, and it returns no error exactly when every required
    key of the three sections is there, every job of the two lists has
    its keys, an enabled [tc2_processor] has its keys, [web.port] is an
    [int] (which a boolean is) and the two intervals, when given, are
    numbers or booleans greater than zero. *)
Theorem validate_config_accepts (fields : list (string * json)) :
  well_shaped fields ->
  exists errors,
    validate_config (JDict fields) = inr errors
    /\ (errors = [] <-> acceptable fields).
Proof.
  intros [Hsec Hjobs]. unfold validate_config.
  destruct (check_sections_dict fields REQUIRED_CONFIG_KEYS [])
    as (e1 & -> & H1).
  { intros section keys v Hin. apply Hsec.
    unfold REQUIRED_CONFIG_KEYS in Hin.
    repeat (apply elem_of_cons in Hin as [[= -> _]|Hin];
            [in_list|]).
    by apply elem_of_nil in Hin. }
  { intros section keys Hin. unfold REQUIRED_CONFIG_KEYS in Hin.
    repeat (apply elem_of_cons in Hin as [[= _ ->]|Hin]; [done|]).
    by apply elem_of_nil in Hin. }
  cbn [ebind].
  destruct (check_sync_list_shaped "sync_mssql" MssqlMissingKey
              REQUIRED_MSSQL_SYNC_KEYS fields ([] ++ e1))
    as (e2 & -> & H2).
  { intros v. apply Hjobs. in_list. }
  cbn [ebind].
  destruct (check_sync_list_shaped "sync_firebird" FirebirdMissingKey
              REQUIRED_FIREBIRD_SYNC_KEYS fields (([] ++ e1) ++ e2))
    as (e3 & -> & H3).
  { intros v. apply Hjobs. in_list. }
  cbn [ebind].
  destruct (check_tc2_shaped fields ((([] ++ e1) ++ e2) ++ e3))
    as (e4 & -> & H4).
  { intros v. apply Hsec. in_list. }
  cbn [ebind].
  destruct (check_port_shaped fields (((([] ++ e1) ++ e2) ++ e3) ++ e4))
    as (e5 & -> & H5).
  { intros v. apply Hsec. in_list. }
  cbn [ebind].
  destruct (check_positive_dict "sync_interval" SyncIntervalNotPositive
              fields ((((([] ++ e1) ++ e2) ++ e3) ++ e4) ++ e5))
    as (e6 & -> & H6).
  cbn [ebind].
  destruct (check_positive_dict "notification_timeout"
              NotificationTimeoutNotPositive fields
              (((((([] ++ e1) ++ e2) ++ e3) ++ e4) ++ e5) ++ e6))
    as (e7 & -> & H7).
  eexists. split; [reflexivity|].
  rewrite !app_eq_nil_iff. unfold acceptable. split.
  - intros [[[[[[[_ E1] E2] E3] E4] E5] E6] E7].
    pose proof (proj1 H1 E1) as Hkeys.
    split; [done|]. split; [by apply H2|]. split; [by apply H3|].
    split; [by apply H4|]. split.
    + destruct (Hkeys "web" ["host"; "port"] "port") as (web & port & Hw & Hp).
      { unfold REQUIRED_CONFIG_KEYS. in_list. }
      { in_list. }
      exists web, port. split; [done|]. split; [done|].
      pose proof (proj1 (H5 web Hw) E5) as Hi. by rewrite Hp in Hi.
    + intros name v Hname Hv.
      apply elem_of_cons in Hname as [->|Hname];
        [by apply (proj1 H6 E6)|].
      apply list_elem_of_singleton in Hname as ->.
      by apply (proj1 H7 E7).
  - intros (Hkeys & Hm & Hf & Ht & (web & port & Hw & Hp & Hi) & Hpos).
    repeat split.
    + by apply H1.
    + by apply H2.
    + by apply H3.
    + by apply H4.
    + apply (H5 web Hw). by rewrite Hp.
    + apply H6. intros v Hv. apply (Hpos "sync_interval"); [in_list|done].
    + apply H7. intros v Hv.
      apply (Hpos "notification_timeout"); [in_list|done].
Qed.

Lemma validate_config_accepts_witness :
  exists errors,
    validate_config (JDict config_minimal) = inr errors
    /\ (errors = [] <-> acceptable config_minimal).
Proof.
  apply (validate_config_accepts config_minimal). split.
  - intros section v Hin Hl.
    repeat (apply elem_of_cons in Hin as [->|Hin];
            [cbn in Hl; try discriminate; injection Hl as <-;
             by eexists|]).
    by apply elem_of_nil in Hin.
  - intros name v Hin Hl.
    repeat (apply elem_of_cons in Hin as [->|Hin];
            [cbn in Hl; discriminate|]).
    by apply elem_of_nil in Hin.
Defined.

Lemma check_keys_scalar mk v key keys errors :
  scalar v -> check_keys mk v (key :: keys) errors = inl TypeError.
Proof. by destruct v. Qed.

Lemma check_sections_scalar fields section keys v required :
  (section, keys) ∈ required ->
  keys <> [] ->
  lookup_field section fields = Some v ->
  scalar v ->
  forall errors,
    exists e, check_sections (JDict fields) required errors = inl e.
Proof.
  intros Hin Hne Hl Hv.
  induction required as [|[section' keys'] required IH]; intros errors.
  - by apply elem_of_nil in Hin.
  - cbn [check_sections]. rewrite contains_dict. cbn [ebind getitem].
    apply elem_of_cons in Hin as [[= <- <-]|Hin].
    + rewrite Hl. cbn [ebind]. destruct keys as [|key keys]; [done|].
      rewrite check_keys_scalar by done. by eexists.
    + destruct (lookup_field section' fields) as [v'|]; [|by apply IH].
      cbn [ebind].
      destruct (check_keys (MissingKey section') v' keys' errors)
        as [e|errors']; [by eexists|]. cbn [ebind]. by apply IH.
Qed.

(** X24: a required section that is [None], a boolean or a number is
    not reported: [validate_config] raises instead of returning its
    list of errors. *)
Theorem validate_config_scalar_section fields section v :
  section ∈ ["database"; "telegram"; "web"] ->
  lookup_field section fields = Some v ->
  scalar v ->
  exists e, validate_config (JDict fields) = inl e.
Proof.
  intros Hin Hl Hv. unfold validate_config.
  assert (exists keys, (section, keys) ∈ REQUIRED_CONFIG_KEYS
                       /\ keys <> []) as (keys & Hreq & Hne).
  { unfold REQUIRED_CONFIG_KEYS.
    repeat (apply elem_of_cons in Hin as [->|Hin];
            [eexists; split; [in_list|done]|]).
    by apply elem_of_nil in Hin. }
  destruct (check_sections_scalar fields section keys v
              REQUIRED_CONFIG_KEYS Hreq Hne Hl Hv []) as [e ->].
  by exists e.
Qed.

Lemma validate_config_scalar_section_witness :
  exists e,
    validate_config
      (JDict [("database", JDict [("server", JStr "srv")]);
              ("telegram", JNull)]) = inl e.
Proof.
  apply (validate_config_scalar_section
           [("database", JDict [("server", JStr "srv")]);
            ("telegram", JNull)] "telegram" JNull).
  - in_list.
  - reflexivity.
  - exact I.
Defined.

End ConfigFacts.

(* ================================================================== *)
(** ** The registry of open connections *)

Module RegistryFacts.
Import Registry.

Lemma registrations_remove_first c c' l :
  registrations c' (remove_first c l)
  = (registrations c' l - if bool_decide (c = c') then 1 else 0)%nat.
Proof.
  unfold registrations. induction l as [|x l IH]; cbn [remove_first].
  - done.
  - destruct (decide (x = c)) as [->|Hx].
    + rewrite (bool_decide_eq_true_2 (c = c)) by done.
      rewrite filter_cons. destruct (decide (c = c')) as [->|Hc].
      * rewrite bool_decide_eq_true_2 by done. cbn. lia.
      * rewrite bool_decide_eq_false_2 by done. lia.
    + rewrite (bool_decide_eq_false_2 (x = c)) by done.
      rewrite !filter_cons. destruct (decide (x = c')) as [->|Hne].
      * rewrite bool_decide_eq_false_2 in IH by congruence.
        rewrite bool_decide_eq_false_2 by congruence. cbn.
        rewrite IH. lia.
      * done.
Qed.

Lemma registrations_absent c l : c ∉ l -> registrations c l = 0%nat.
Proof.
  unfold registrations. induction l as [|x l IH]; [done|].
  intros [Hne Hnot]%not_elem_of_cons.
  rewrite filter_cons, decide_False by congruence. by apply IH.
Qed.

Lemma remove_first_absent c l : c ∉ l -> remove_first c l = l.
Proof.
  induction l as [|x l IH]; [done|].
  intros [Hne Hnot]%not_elem_of_cons. cbn.
  rewrite bool_decide_eq_false_2 by congruence. by rewrite IH.
Qed.

Lemma remove_first_app_absent c l :
  c ∉ l -> remove_first c (l ++ [c]) = l.
Proof.
  induction l as [|x l IH]; intros Hnot; cbn.
  - by rewrite bool_decide_eq_true_2.
  - apply not_elem_of_cons in Hnot as [Hne Hnot].
    rewrite bool_decide_eq_false_2 by congruence. by rewrite IH.
Qed.

(** X25: registering and closing balance.  Registering a connection
    adds one registration of it and closing it removes one, the oldest,
    leaving those of the other connections alone; closing [None] or a
    connection that is not registered changes nothing; and a connection
    that is registered and then closed leaves the registry as it was. *)
Theorem registry_balance (c : conn) (active : list conn) :
  (forall c',
     registrations c' (register_connection c active)
     = (registrations c' active + if bool_decide (c = c') then 1 else 0)%nat)
  /\ (forall c',
        registrations c' (close_connection_safe (Some c) active)
        = (registrations c' active
           - if bool_decide (c = c') then 1 else 0)%nat)
  /\ close_connection_safe None active = active
  /\ (c ∉ active -> close_connection_safe (Some c) active = active)
  /\ (c ∉ active ->
      close_connection_safe (Some c) (register_connection c active)
      = active)
  /\ close_connection_safe (Some c) (register_connection c active)
     ≡ₚ active.
Proof.
  assert (forall c',
            registrations c' (close_connection_safe (Some c) active)
            = (registrations c' active
               - if bool_decide (c = c') then 1 else 0)%nat) as Hclose.
  { intros c'. cbn [close_connection_safe]. unfold unregister_connection.
    destruct (decide (c ∈ active)) as [Hin|Hin].
    - rewrite (bool_decide_eq_true_2 _ Hin).
      apply registrations_remove_first.
    - rewrite (bool_decide_eq_false_2 _ Hin).
      destruct (decide (c = c')) as [<-|Hc].
      + rewrite bool_decide_eq_true_2 by done.
        by rewrite registrations_absent.
      + rewrite bool_decide_eq_false_2 by done. lia. }
  split.
  { intros c'. unfold registrations, register_connection.
    rewrite filter_app, length_app, filter_cons, filter_nil.
    case_bool_decide as Hc.
    - subst c'. by rewrite decide_True.
    - by rewrite decide_False. }
  split; [done|]. split; [done|]. split.
  { intros Hnot. cbn. unfold unregister_connection.
    by rewrite bool_decide_eq_false_2. }
  split.
  { intros Hnot. cbn. unfold unregister_connection, register_connection.
    rewrite bool_decide_eq_true_2
      by (apply elem_of_app; right; apply list_elem_of_here).
    by apply remove_first_app_absent. }
  cbn. unfold unregister_connection, register_connection.
  rewrite bool_decide_eq_true_2
    by (apply elem_of_app; right; apply list_elem_of_here).
  clear Hclose. induction active as [|x l IH]; cbn.
  - by rewrite bool_decide_eq_true_2.
  - case_bool_decide as Hx.
    + subst x. symmetry. apply Permutation_cons_append.
    + by constructor.
Qed.

End RegistryFacts.

(* ================================================================== *)
(** ** Jobs that share a source table *)

Module SharedStatusFacts.
Import Cache Db Sync Props SyncFacts Health StatusFacts.

(** A cycle of the DB-to-DB worker writes one entry of the registry. *)
Lemma mssql_cycle_status cfg env j s :
  let now := env_now (env_sur env) in
  task_status (glob (run_sync_mssql_cycle cfg env j s).2)
  = <[mssql_task_name j :=
        match (run_sync_mssql_body cfg env j s).1 with
        | Ok _ => mkStatus true (Some now) None now
        | Raised e => mkStatus false None (Some e) now
        end]> (task_status (glob s)).
Proof.
  cbv zeta.
  pose proof (mssql_body_status cfg env j s) as Hb. cbv zeta in Hb.
  unfold run_sync_mssql_cycle, try_except.
  destruct (run_sync_mssql_body cfg env j s) as [[[]|e] s1]; cbn [fst snd].
  - done.
  - by rewrite worker_handler_status, Hb.
Qed.

Lemma health_tasks_total shutdown w :
  tasks_total (health shutdown w) = size (task_status w).
Proof.
  unfold health.
  destruct (_ =? _)%nat; [|destruct (_ =? _)%nat; [|destruct (_ <? _)%nat]];
    done.
Qed.

(** X26: two DB-to-DB jobs that read the same source table share one
    entry of the task registry.  After an iteration of the one and then
    of the other the registry is what the second alone would have left:
    the report of the first is gone, and a registry that was empty
    counts one task. *)
Theorem jobs_sharing_source_share_status cfg env1 env2 j1 j2 w d1 d2 :
  source_table j1 = source_table j2 ->
  let now := env_now (env_sur env2) in
  let s1 := (run_sync_mssql_cycle cfg env1 j1 (mkSys w d1)).2 in
  let r2 := (run_sync_mssql_body cfg env2 j2 (mkSys (glob s1) d2)).1 in
  let s2 := (run_sync_mssql_cycle cfg env2 j2 (mkSys (glob s1) d2)).2 in
  task_status (glob s2)
  = <[mssql_task_name j2 :=
        match r2 with
        | Ok _ => mkStatus true (Some now) None now
        | Raised e => mkStatus false None (Some e) now
        end]> (task_status w)
  /\ (task_status w = ∅ ->
      forall shutdown, tasks_total (health shutdown (glob s2)) = 1%nat).
Proof.
  intros Hsame. cbv zeta.
  assert (mssql_task_name j1 = mssql_task_name j2) as Hname.
  { unfold mssql_task_name. by rewrite Hsame. }
  rewrite (mssql_cycle_status cfg env2 j2). cbv zeta. cbn [glob].
  rewrite (mssql_cycle_status cfg env1 j1). cbv zeta. cbn [glob].
  rewrite Hname, insert_insert_eq. split; [done|].
  intros Hempty shutdown. rewrite health_tasks_total.
  rewrite (mssql_cycle_status cfg env2 j2). cbv zeta. cbn [glob].
  rewrite (mssql_cycle_status cfg env1 j1). cbv zeta. cbn [glob].
  rewrite Hname, insert_insert_eq, Hempty, insert_empty.
  apply map_size_singleton.
Qed.

Lemma jobs_sharing_source_share_status_witness :
  let now := env_now (env_sur env_A) in
  let s1 := (run_sync_mssql_cycle config_C env_A job_A
               (mkSys world_A (mkDb [row_at (t_2025 10)] []))).2 in
  let r2 := (run_sync_mssql_body config_C env_A
               (mkMssqlJob "Dynamic_A" "Dynamic_B")
               (mkSys (glob s1) (mkDb [] []))).1 in
  let s2 := (run_sync_mssql_cycle config_C env_A
               (mkMssqlJob "Dynamic_A" "Dynamic_B")
               (mkSys (glob s1) (mkDb [] []))).2 in
  task_status (glob s2)
  = <[mssql_task_name (mkMssqlJob "Dynamic_A" "Dynamic_B") :=
        match r2 with
        | Ok _ => mkStatus true (Some now) None now
        | Raised e => mkStatus false None (Some e) now
        end]> (task_status world_A)
  /\ (task_status world_A = ∅ ->
      forall shutdown, tasks_total (health shutdown (glob s2)) = 1%nat).
Proof.
  apply (jobs_sharing_source_share_status config_C env_A env_A job_A
           (mkMssqlJob "Dynamic_A" "Dynamic_B") world_A
           (mkDb [row_at (t_2025 10)] []) (mkDb [] [])).
  reflexivity.
Defined.

End SharedStatusFacts.
